(** * The retrieval-augmented conversation engine of rag-podcast

    A shallow embedding of the three services that carry the algorithmic
    content of the backend:

    - [PdfService]    : [app/services/pdf_service.py]    (text segmenter),
    - [QdrantService] : [app/services/qdrant_service.py] (vector index wrapper),
    - [GeminiService] : [app/services/gemini_service.py] (retrieval context
                        builder and dialogue synthesizer).

    Python [str] values are Rocq [string]s, one [ascii] per character; a
    Python [int] is a [Z], a [float] a binary64 [float]; [len] is
    [String.length] or [length]; a [dict] with string keys is a [gmap].
    Functions that can raise, or that talk to the outside (clock, uuid
    generator, language model, embedding model, vector store), live in the
    monad [M] of module [Effects]: a state-passing function that returns
    either a value or the exception that escaped.  Logging is left out.

    Around them, the rest of the PDF service ([PdfIngest]), the answers
    with retrieval ([GeminiRag]), the speech service ([VoiceService]), the
    management of collections ([QdrantCollections]) and the request
    handlers of [app/routes] ([QdrantRoutes], [PodcastRoutes], [PdfRoutes],
    [VoiceRoutes]), whose collaborators are the oracles of [Tools] and
    [Admin]. *)

From Stdlib Require Import ZArith Ascii String List Lia Bool PrimFloat.
From stdpp Require Import base gmap strings list pretty.

(** ** Python string primitives *)

Module PyStr.

(** [str.isspace] on one character, for the code points a [ascii] holds:
    TAB..CR, FS..US, SPACE, NEL and NBSP. *)
Definition isspace (c : ascii) : bool :=
  let n := N_of_ascii c in
  ((9 <=? n) && (n <=? 13) || (28 <=? n) && (n <=? 32)
   || (n =? 133) || (n =? 160))%N.

Definition len (s : string) : Z := Z.of_nat (String.length s).

(** [sep.join(l)] *)
Fixpoint join (sep : string) (l : list string) : string :=
  match l with
  | [] => ""
  | x :: rest =>
      match rest with
      | [] => x
      | _ :: _ => x +:+ sep +:+ join sep rest
      end
  end.

(** What [split] emits when a run of non-blank characters ends. *)
Definition flush (word : string) : list string :=
  match word with
  | "" => []
  | String _ _ => [word]
  end.

(** [s.split()] reads [s] left to right; [word] is the run of non-blank
    characters read since the last blank. *)
Fixpoint split_from (word : string) (s : string) : list string :=
  match s with
  | "" => flush word
  | String c s' =>
      if isspace c
      then flush word ++ split_from "" s'
      else split_from (word +:+ String c "") s'
  end.

(** [s.split()]: the maximal runs of non-blank characters. *)
Definition split (s : string) : list string := split_from "" s.

Fixpoint lstrip (s : string) : string :=
  match s with
  | "" => ""
  | String c s' => if isspace c then lstrip s' else s
  end.

Fixpoint rstrip (s : string) : string :=
  match s with
  | "" => ""
  | String c s' =>
      match rstrip s' with
      | "" => if isspace c then "" else String c ""
      | String _ _ as r => String c r
      end
  end.

(** [s.strip()] *)
Definition strip (s : string) : string := rstrip (lstrip s).


(** [s.startswith(sub)] and a decision procedure for [sub in s]. *)
Fixpoint starts_with (sub s : string) : bool :=
  match sub, s with
  | "", _ => true
  | String _ _, "" => false
  | String a sub', String b s' => Ascii.eqb a b && starts_with sub' s'
  end.


(** A word: what [split] can return, non-empty and free of blanks. *)
Fixpoint no_blank (s : string) : bool :=
  match s with
  | "" => true
  | String c s' => negb (isspace c) && no_blank s'
  end.

Definition is_word (s : string) : bool :=
  match s with
  | "" => false
  | String _ _ => no_blank s
  end.

End PyStr.

(** ** The text segmenter ([pdf_service.py]) *)

Module PdfService.
Import PyStr.

(** One iteration of the loop of [chunk_text]; the state is the pair
    [(chunks, current_chunk)] of the two lists the loop mutates. *)
Definition chunk_step (chunk_size : Z)
    (st : list string * list string) (word : string)
    : list string * list string :=
  let '(chunks, current_chunk) := st in
  if (len (join " " (current_chunk ++ [word])) <=? chunk_size)%Z
  then (chunks, current_chunk ++ [word])
  else (chunks ++ [join " " current_chunk], [word]).

(** [PDFService.chunk_text(text, chunk_size)] *)
Definition chunk_text (text : string) (chunk_size : Z) : list string :=
  let words := split text in
  let '(chunks, current_chunk) :=
    fold_left (chunk_step chunk_size) words ([], []) in
  match current_chunk with
  | [] => chunks
  | _ :: _ => chunks ++ [join " " current_chunk]
  end.

End PdfService.

(** ** Effects: exceptions and the outside world *)

Module Effects.

(** The exceptions that occur; [str_exn] is Python's [str(e)]. *)
Inductive exn : Type :=
| ValueError (msg : string)
| KeyError (key : string)
| TypeError (msg : string)
| AttributeError (msg : string)
| ValidationError (msg : string)
| Exception (msg : string)
| TransportError (msg : string)
| NotFound (msg : string)
| DimensionMismatch (msg : string).

Definition str_exn (e : exn) : string :=
  match e with
  | KeyError key => "'" +:+ key +:+ "'"
  | ValueError msg | TypeError msg | AttributeError msg
  | ValidationError msg | Exception msg | TransportError msg
  | NotFound msg | DimensionMismatch msg => msg
  end.

Inductive outcome (A : Type) : Type :=
| Return (a : A)
| Raise (e : exn).
Arguments Return {A} a.
Arguments Raise {A} e.

(** Values of dynamically typed dictionaries (chunk metadata, payloads). *)
Inductive pyval : Type :=
| VStr (s : string)
| VInt (n : Z).

(** What the vector store holds: [qdrant_client]'s [PointStruct], and a
    collection with its configured dimension. *)
Record PointStruct : Type := {
  point_id : string;
  vector : list float;
  payload : gmap string pyval
}.

Record Collection : Type := {
  vector_size : nat;
  points : gmap string PointStruct
}.

(** A hit of [client.search]. *)
Record ScoredPoint : Type := {
  sp_id : string;
  sp_score : float;
  sp_payload : gmap string pyval;
  sp_vector : option (list float)
}.

(** The world a request runs in: [tick] counts the interactions with the
    outside so far (each advances it by one), [index] is the content of
    the vector store. *)
Record World : Type := {
  tick : nat;
  index : gmap string Collection
}.

(** The collaborators, as oracles indexed by the tick at which they are
    asked, so that the same question can be answered differently each
    time. *)
Record Env : Type := {
  uuid4 : nat -> string;
  now : nat -> Z;
  generate_content : nat -> string -> outcome string;
  encode : nat -> string -> outcome (list float);
  transport : nat -> option exn;
  make_filter : gmap string pyval -> outcome (gmap string pyval);
  nearest : Collection -> list float -> Z -> option (gmap string pyval)
            -> list ScoredPoint;
  kept_vector : string -> list float -> list float;
  partial_write : nat -> gmap string Collection -> string
                  -> list PointStruct -> gmap string Collection;
  QDRANT_COLLECTION : string
}.

Definition M (A : Type) : Type := World -> World * outcome A.

Definition ret {A} (a : A) : M A := fun w => (w, Return a).

Definition raise {A} (e : exn) : M A := fun w => (w, Raise e).

Definition bind {A B} (m : M A) (k : A -> M B) : M B :=
  fun w =>
    match m w with
    | (w', Return a) => k a w'
    | (w', Raise e) => (w', Raise e)
    end.

(** [try: body  except Exception as e: handler] *)
Definition try_except {A} (body : M A) (handler : exn -> M A) : M A :=
  fun w =>
    match body w with
    | (w', Return a) => (w', Return a)
    | (w', Raise e) => handler e w'
    end.

Definition lift {A} (r : outcome A) : M A := fun w => (w, r).

Definition advance (w : World) : World :=
  {| tick := S (tick w); index := index w |}.

Definition ask {A} (oracle : nat -> outcome A) : M A :=
  fun w => (advance w, oracle (tick w)).

End Effects.

Declare Scope py_scope.
Delimit Scope py_scope with py.
Notation "x <- m ;; k" := (Effects.bind m (fun x => k))
(at level 100, m at next level, right associativity) : py_scope.
Open Scope py_scope.

Module Loops.
Import Effects.

(** [for x in l: body], threading the variables the body assigns. *)
Fixpoint for_each {A S} (l : list A) (body : A -> S -> M S) (s : S) : M S :=
  match l with
  | [] => ret s
  | x :: l' => s' <- body x s ;; for_each l' body s'
  end.

(** [for i in range(n): body] *)
Definition for_range {S} (n : nat) (body : nat -> S -> M S) (s : S) : M S :=
  for_each (seq 0 n) body s.

End Loops.

(** ** The data classes ([app/models]) *)

Module PDFChunk.
Import Effects.
Record t : Type := {
  id : string;
  content : string;
  page_number : Z;
  embedding : option (list float);
  metadata : gmap string pyval
}.
End PDFChunk.

Module VectorSearchResult.
Import Effects.
Record t : Type := {
  id : string;
  score : float;
  payload : gmap string pyval;
  vector : option (list float)
}.
End VectorSearchResult.

Module PodcastAgent.
Record t : Type := {
  id : string;
  name : string;
  role : string;
  personality : string;
  voice_id : string
}.
End PodcastAgent.

Module PodcastMessage.
Record t : Type := {
  agent_id : string;
  content : string;
  timestamp : Z;
  is_user_message : bool
}.
End PodcastMessage.

Module PodcastConversation.
Record t : Type := {
  id : string;
  pdf_id : string;
  title : string;
  agents : list PodcastAgent.t;
  messages : list PodcastMessage.t;
  status : string;
  created_at : Z;
  updated_at : Z
}.
End PodcastConversation.

Module GeminiGenerationRequest.
Record t : Type := {
  pdf_id : string;
  query : option string;
  context : option string;
  agent_configs : list (gmap string string)
}.
End GeminiGenerationRequest.

(** ** The vector store behind [QdrantClient]

    The [qdrant_client] library is not part of the repository; its two
    calls that the services use are modelled from the design document.
    What the document does not say is left to the collaborators: how a
    collection keeps a vector it is given ([kept_vector]: a collection with
    the cosine metric may normalise it), and what a request that fails has
    written by then ([partial_write]). *)

Module QdrantClient.
Import Effects.

Definition fits (c : Collection) (p : PointStruct) : bool :=
  Nat.eqb (length (vector p)) (vector_size c).

(** A point as the store keeps it: under its id, with its payload as
    given, and with its vector as the collection keeps vectors. *)
Definition stored (keep : list float -> list float) (p : PointStruct)
    : PointStruct :=
  {| point_id := point_id p; vector := keep (vector p);
     payload := payload p |}.

Definition put (keep : list float -> list float)
    (pts : gmap string PointStruct) (p : PointStruct)
    : gmap string PointStruct :=
  <[point_id p := stored keep p]> pts.

Definition write (keep : list float -> list float) (c : Collection)
    (ps : list PointStruct) : Collection :=
  {| vector_size := vector_size c;
     points := fold_left (put keep) ps (points c) |}.

(** Modelled from the spec: [QdrantClient.upsert] of the [qdrant_client]
    library, called as [client.upsert(collection_name=..., points=...)].
    The request can fail on the way ([transport]); a collection that does
    not exist is an error; every vector is checked against the dimension of
    the collection ("every vector upserted into a collection must have
    length == vector_dimension"); a request that succeeds has written each
    point under its id, replacing a point that has the same id.  A request
    that fails leaves the store as [partial_write] says: nothing promises
    that it has written nothing. *)
Definition upsert (env : Env) (collection_name : string)
    (ps : list PointStruct) : M unit :=
  fun w =>
    let failed :=
      {| tick := S (tick w);
         index := partial_write env (tick w) (index w) collection_name ps |} in
    match transport env (tick w) with
    | Some e => (failed, Raise e)
    | None =>
        match index w !! collection_name with
        | None => (failed, Raise (NotFound collection_name))
        | Some c =>
            if forallb (fits c) ps
            then ({| tick := S (tick w);
                     index :=
                       <[collection_name :=
                           write (kept_vector env collection_name) c ps]>
                       (index w) |},
                  Return tt)
            else (failed, Raise (DimensionMismatch collection_name))
        end
    end.

(** Modelled from the spec: [QdrantClient.search] of the [qdrant_client]
    library, called as [client.search(collection_name=..., query_vector=...,
    limit=..., query_filter=...)].  The request can fail on the way; a
    collection that does not exist is an error; otherwise the engine ranks
    the points of the collection ([nearest]). *)
Definition search (env : Env) (collection_name : string)
    (query_vector : list float) (limit : Z)
    (query_filter : option (gmap string pyval)) : M (list ScoredPoint) :=
  fun w =>
    let w' := advance w in
    match transport env (tick w) with
    | Some e => (w', Raise e)
    | None =>
        match index w !! collection_name with
        | None => (w', Raise (NotFound collection_name))
        | Some c => (w', Return (nearest env c query_vector limit query_filter))
        end
    end.

End QdrantClient.

(** ** The vector index wrapper ([qdrant_service.py]) *)

Module QdrantService.
Import Effects Loops.

(** [d.get(key, default)] *)
Definition get {V} (d : gmap string V) (key : string) (default : V) : V :=
  match d !! key with
  | Some v => v
  | None => default
  end.

(** [PointStruct(id=str(uuid.uuid4()), vector=chunk.embedding, payload=...)]:
    the id is drawn first; a chunk without embedding fails validation. *)
Definition make_point (env : Env) (chunk : PDFChunk.t) : M PointStruct :=
  point_id <- ask (fun t => Return (uuid4 env t)) ;;
  match PDFChunk.embedding chunk with
  | None => raise (ValidationError "vector")
  | Some vector =>
      ret {| point_id := point_id;
             vector := vector;
             payload :=
               <["pdf_id" := get (PDFChunk.metadata chunk) "pdf_id" (VStr "")]>
               (<["content" := VStr (PDFChunk.content chunk)]>
               (<["page_number" := VInt (PDFChunk.page_number chunk)]>
               (<["source" := get (PDFChunk.metadata chunk) "source" (VStr "")]>
               (<["chunk_index" :=
                    get (PDFChunk.metadata chunk) "chunk_index" (VInt 0)]>
                ∅)))) |}
  end.

(** [QdrantService.upsert_vectors(collection_name, chunks)] *)
Definition upsert_vectors (env : Env) (collection_name : string)
    (chunks : list PDFChunk.t) : M bool :=
  try_except
    (points <- for_each chunks
                 (fun chunk points =>
                    point <- make_point env chunk ;;
                    ret (points ++ [point]))
                 [] ;;
     _ <- QdrantClient.upsert env collection_name points ;;
     ret true)
    (fun e => ret false).

(** [result.vector.tolist() if result.vector else None]: the vector of a
    hit is a Python list, which has no [tolist]. *)
Definition vector_tolist (v : option (list float)) : M (option (list float)) :=
  match v with
  | None | Some [] => ret None
  | Some (_ :: _) =>
      raise (AttributeError "'list' object has no attribute 'tolist'")
  end.

(** The [query_filter] argument: a [models.Filter] built from the keys of
    [filter], or [None] when [filter] is [None] or empty. *)
Definition query_filter (env : Env) (filter : option (gmap string pyval))
    : M (option (gmap string pyval)) :=
  match filter with
  | None => ret None
  | Some d =>
      if decide (d = ∅) then ret None
      else f <- lift (make_filter env d) ;; ret (Some f)
  end.

(** [QdrantService.search_similar(collection_name, query_vector, limit,
    filter)] *)
Definition search_similar (env : Env) (collection_name : string)
    (query_vector : list float) (limit : Z)
    (filter : option (gmap string pyval)) : M (list VectorSearchResult.t) :=
  try_except
    (qf <- query_filter env filter ;;
     search_result <- QdrantClient.search env collection_name
                        query_vector limit qf ;;
     for_each search_result
       (fun result results =>
          v <- vector_tolist (sp_vector result) ;;
          let vector_result :=
            {| VectorSearchResult.id := sp_id result;
               VectorSearchResult.score := sp_score result;
               VectorSearchResult.payload := sp_payload result;
               VectorSearchResult.vector := v |} in
          ret (results ++ [vector_result]))
       [])
    (fun e => ret []).

End QdrantService.

(** ** The context builder and the dialogue synthesizer
     ([gemini_service.py]) *)

Module GeminiService.
Import Effects Loops PyStr.

Definition nl : string := String "010" "".
Definition indent : string := "            ".

(** [x or default] on an optional string: [None] and the empty string are
    both falsy. *)
Definition or_default (x : option string) (default : string) : string :=
  match x with
  | Some (String _ _ as s) => s
  | Some "" | None => default
  end.

(** [d[key]] *)
Definition getitem {V} (d : gmap string V) (key : string) : M V :=
  match d !! key with
  | Some v => ret v
  | None => raise (KeyError key)
  end.

(** [conversation_history[-5:]] *)
Definition last5 {A} (l : list A) : list A := skipn (length l - 5) l.

(** The f-string of [generate_agent_response]. *)
Definition agent_prompt (agent : PodcastAgent.t) (context : string)
    (history_text : string) : string :=
  nl +:+ indent +:+ "You are " +:+ PodcastAgent.name agent +:+ ", a "
     +:+ PodcastAgent.role agent +:+ " with the following personality: "
     +:+ PodcastAgent.personality agent +:+ "." +:+ nl
  +:+ indent +:+ "Current conversation context: " +:+ context +:+ nl
  +:+ indent +:+ "Conversation history:" +:+ nl
  +:+ indent +:+ history_text +:+ nl
  +:+ nl
  +:+ indent +:+ "Please generate a response that is appropriate for your role and personality." +:+ nl
  +:+ indent +:+ "Keep responses concise but informative, typically 1-3 sentences." +:+ nl
  +:+ indent.

Definition history_text (conversation_history : list PodcastMessage.t)
    : string :=
  join nl (map (fun msg => PodcastMessage.agent_id msg +:+ ": "
                           +:+ PodcastMessage.content msg)
               (last5 conversation_history)).

Definition apology (e : exn) : string :=
  "Sorry, I encountered an error generating a response. " +:+ str_exn e.

(** [GeminiService.generate_agent_response(agent, context,
    conversation_history)] *)
Definition generate_agent_response (env : Env) (agent : PodcastAgent.t)
    (context : string) (conversation_history : list PodcastMessage.t)
    : M string :=
  try_except
    (let prompt :=
       agent_prompt agent context (history_text conversation_history) in
     response <- ask (fun t => generate_content env t prompt) ;;
     ret (strip response))
    (fun e => ret (apology e)).

(** ["\n\n".join(context_chunks)]: every item has to be a [str]. *)
Fixpoint as_strs (l : list pyval) : option (list string) :=
  match l with
  | [] => Some []
  | VStr s :: l' =>
      match as_strs l' with
      | Some ss => Some (s :: ss)
      | None => None
      end
  | VInt _ :: _ => None
  end.

Definition join_values (sep : string) (l : list pyval) : M string :=
  match as_strs l with
  | Some ss => ret (join sep ss)
  | None => raise (TypeError "sequence item: expected str instance")
  end.

(** [GeminiService._get_conversation_context(pdf_id, query)] *)
Definition _get_conversation_context (env : Env) (pdf_id : string)
    (query : option string) : M string :=
  try_except
    (match query with
     | Some (String _ _ as query) =>
         query_embedding <- ask (fun t => encode env t query) ;;
         results <- QdrantService.search_similar env
                      (QDRANT_COLLECTION env) query_embedding 5 None ;;
         context_chunks <-
           for_each results
             (fun result context_chunks =>
                c <- getitem (VectorSearchResult.payload result) "content" ;;
                ret (context_chunks ++ [c]))
             [] ;;
         join_values (nl +:+ nl) context_chunks
     | Some "" | None =>
         ret ("Context from PDF " +:+ pdf_id +:+ " about various topics.")
     end)
    (fun e => ret "General context about the PDF content.").

(** [next((a for a in agents if a.role == role), None)] *)
Definition first_with_role (role : string) (agents : list PodcastAgent.t)
    : option PodcastAgent.t :=
  List.find (fun a => String.eqb (PodcastAgent.role a) role) agents.

(** One agent's turn inside the loop: generate, wrap in a message, append
    to both lists. *)
Definition turn (env : Env) (agent : PodcastAgent.t) (context : string)
    (st : list PodcastMessage.t * list PodcastMessage.t)
    : M (list PodcastMessage.t * list PodcastMessage.t) :=
  let '(messages, conversation_history) := st in
  response <- generate_agent_response env agent context
                conversation_history ;;
  timestamp <- ask (fun t => Return (now env t)) ;;
  let message :=
    {| PodcastMessage.agent_id := PodcastAgent.id agent;
       PodcastMessage.content := response;
       PodcastMessage.timestamp := timestamp;
       PodcastMessage.is_user_message := false |} in
  ret (messages ++ [message], conversation_history ++ [message]).

(** [GeminiService._generate_conversation_flow(agents, context, query)] *)
Definition _generate_conversation_flow (env : Env)
    (agents : list PodcastAgent.t) (context : string)
    (query : option string) : M (list PodcastMessage.t) :=
  let messages := [] in
  let conversation_history := [] in
  let explainer := first_with_role "explainer" agents in
  let curious := first_with_role "curious" agents in
  let user := first_with_role "user" agents in
  match explainer, curious with
  | Some explainer, Some curious =>
      let initial_question :=
        "What can you tell me about "
        +:+ or_default query "this PDF content" +:+ "?" in
      timestamp <- ask (fun t => Return (now env t)) ;;
      let initial_message :=
        {| PodcastMessage.agent_id := PodcastAgent.id curious;
           PodcastMessage.content := initial_question;
           PodcastMessage.timestamp := timestamp;
           PodcastMessage.is_user_message := false |} in
      let messages := messages ++ [initial_message] in
      let conversation_history := conversation_history ++ [initial_message] in
      st <- for_range 5
              (fun i st =>
                 st <- turn env explainer context st ;;
                 turn env curious context st)
              (messages, conversation_history) ;;
      ret (fst st)
  | _, _ => raise (ValueError "Explainer and curious agents must be present")
  end.

(** [PodcastAgent(id=str(uuid.uuid4()), name=agent_config["name"], ...)] *)
Definition make_agent (env : Env) (agent_config : gmap string string)
    : M PodcastAgent.t :=
  id <- ask (fun t => Return (uuid4 env t)) ;;
  name <- getitem agent_config "name" ;;
  role <- getitem agent_config "role" ;;
  personality <- getitem agent_config "personality" ;;
  ret {| PodcastAgent.id := id;
         PodcastAgent.name := name;
         PodcastAgent.role := role;
         PodcastAgent.personality := personality;
         PodcastAgent.voice_id :=
           QdrantService.get agent_config "voice_id" "default" |}.

(** [GeminiService.generate_podcast_conversation(request)] *)
Definition generate_podcast_conversation (env : Env)
    (request : GeminiGenerationRequest.t) : M PodcastConversation.t :=
  try_except
    (agents <- for_each (GeminiGenerationRequest.agent_configs request)
                 (fun agent_config agents =>
                    agent <- make_agent env agent_config ;;
                    ret (agents ++ [agent]))
                 [] ;;
     context <- _get_conversation_context env
                  (GeminiGenerationRequest.pdf_id request)
                  (GeminiGenerationRequest.query request) ;;
     messages <- _generate_conversation_flow env agents context
                   (GeminiGenerationRequest.query request) ;;
     id <- ask (fun t => Return (uuid4 env t)) ;;
     created_at <- ask (fun t => Return (now env t)) ;;
     updated_at <- ask (fun t => Return (now env t)) ;;
     ret {| PodcastConversation.id := id;
            PodcastConversation.pdf_id :=
              GeminiGenerationRequest.pdf_id request;
            PodcastConversation.title :=
              "Podcast about "
              +:+ or_default (GeminiGenerationRequest.query request)
                    "PDF content";
            PodcastConversation.agents := agents;
            PodcastConversation.messages := messages;
            PodcastConversation.status := "completed";
            PodcastConversation.created_at := created_at;
            PodcastConversation.updated_at := updated_at |})
    (fun e =>
       raise (Exception ("Failed to generate podcast conversation: "
                         +:+ str_exn e))).

End GeminiService.

(** ** Vocabulary of the properties *)

Module Props.
Import PyStr.

(** [prefixed l] is every element of [l] followed by one space, so that
    [join " " (l ++ [x])] is [prefixed l +:+ x]. *)
Fixpoint prefixed (l : list string) : string :=
  match l with
  | [] => ""
  | x :: rest => x +:+ " " +:+ prefixed rest
  end.

(** The whitespace-collapsed form of a text. *)
Definition normalized (text : string) : string := join " " (split text).

(** A chunk respects the limit, or is one word of the text that is itself
    over the limit. *)
Definition within (max_chars : Z) (words : list string) (chunk : string)
    : Prop :=
  (len chunk <= max_chars)%Z \/
  (In chunk words /\ (max_chars < len chunk)%Z).

(** What the loop of [chunk_text] keeps true of [current_chunk]: it respects
    the limit once joined, or holds a single word of the text. *)
Definition current_ok (max_chars : Z) (words : list string)
    (current_chunk : list string) : Prop :=
  (len (join " " current_chunk) <= max_chars)%Z \/
  (exists w, current_chunk = [w] /\ In w words).

(** The number of points a collection holds, if it exists. *)
Definition point_count (w : Effects.World) (collection_name : string)
    : option nat :=
  (fun c => size (Effects.points c)) <$> Effects.index w !! collection_name.

(** A chunk whose embedding has the dimension of the collection, and one
    whose embedding has another length. *)
Definition fitting (c : Effects.Collection) (chunk : PDFChunk.t) : Prop :=
  exists v, PDFChunk.embedding chunk = Some v /\
            length v = Effects.vector_size c.


(** The ids drawn from tick [t] on are pairwise distinct and none of them
    is the id of a point that [c] already holds. *)
Definition fresh_from (env : Effects.Env) (t : nat) (c : Effects.Collection)
    : Prop :=
  (forall i j, Effects.uuid4 env i = Effects.uuid4 env j -> i = j) /\
  (forall i, t <= i -> Effects.points c !! Effects.uuid4 env i = None).

(** Who speaks in turn [k] of the loop (turn 0 is the first one after the
    opening question). *)
Definition speaker (explainer curious : PodcastAgent.t) (k : nat)
    : PodcastAgent.t :=
  if Nat.even k then explainer else curious.

(** What a turn puts in its message when the model is asked at tick [t]
    with the history [history]. *)
Definition reply (env : Effects.Env) (agent : PodcastAgent.t)
    (context : string) (history : list PodcastMessage.t) (t : nat) : string :=
  match Effects.generate_content env t
          (GeminiService.agent_prompt agent context
             (GeminiService.history_text history)) with
  | Effects.Return response => strip response
  | Effects.Raise e => GeminiService.apology e
  end.

(** [new] is what the loop appends after [history] from turn [k] on, the
    model being asked first at tick [t]: each message is the reply of the
    turn's speaker to everything before it. *)
Fixpoint generated (env : Effects.Env) (explainer curious : PodcastAgent.t)
    (context : string) (t k : nat) (history new : list PodcastMessage.t)
    : Prop :=
  match new with
  | [] => True
  | m :: rest =>
      PodcastMessage.agent_id m
        = PodcastAgent.id (speaker explainer curious k) /\
      PodcastMessage.content m
        = reply env (speaker explainer curious k) context history t /\
      generated env explainer curious context (2 + t) (S k)
        (history ++ [m]) rest
  end.

(** An agent configuration with the three keys that are read with
    [agent_config[...]]. *)
Definition well_formed (agent_config : gmap string string) : Prop :=
  is_Some (agent_config !! "name") /\ is_Some (agent_config !! "role") /\
  is_Some (agent_config !! "personality").

Definition has_role (role : string) (agent_configs : list (gmap string string))
    : Prop :=
  Exists (fun agent_config => agent_config !! "role" = Some role) agent_configs.

End Props.

(** ** Concrete worlds and inputs *)

Module Scenario.
Import Effects.

Definition uuid_of (t : nat) : string := "00000000-0000-4000-8000-" +:+ pretty t.

(** Every stored point is a hit, in the order of the store, with score 1. *)
Definition all_points (c : Collection) (query_vector : list float) (limit : Z)
    (query_filter : option (gmap string pyval)) : list ScoredPoint :=
  take (Z.to_nat limit)
    (map (fun kv => {| sp_id := fst kv; sp_score := 1%float;
                       sp_payload := payload (snd kv); sp_vector := None |})
         (map_to_list (points c))).

(** All collaborators answer; the store keeps vectors as given and writes
    nothing when it refuses a request. *)
Definition env_up : Env :=
  {| uuid4 := uuid_of;
     now := Z.of_nat;
     generate_content := fun t prompt => Return ("  Reply " +:+ pretty t +:+ ". ");
     encode := fun t text => Return [0.5; 0.25; 0.125; 0.75]%float;
     transport := fun t => None;
     make_filter := fun d => Return d;
     nearest := all_points;
     kept_vector := fun collection_name v => v;
     partial_write := fun t idx collection_name ps => idx;
     QDRANT_COLLECTION := "podcast_chunks" |}.

(** The language model fails on every call. *)
Definition env_model_down : Env :=
  {| uuid4 := uuid_of;
     now := Z.of_nat;
     generate_content := fun t prompt => Raise (TransportError "429 quota exceeded");
     encode := encode env_up;
     transport := transport env_up;
     make_filter := make_filter env_up;
     nearest := nearest env_up;
     kept_vector := kept_vector env_up;
     partial_write := partial_write env_up;
     QDRANT_COLLECTION := "podcast_chunks" |}.


(** The vector store cannot be reached. *)
Definition env_store_down : Env :=
  {| uuid4 := uuid_of;
     now := Z.of_nat;
     generate_content := generate_content env_up;
     encode := encode env_up;
     transport := fun t => Some (TransportError "connection refused");
     make_filter := make_filter env_up;
     nearest := nearest env_up;
     kept_vector := kept_vector env_up;
     partial_write := partial_write env_up;
     QDRANT_COLLECTION := "podcast_chunks" |}.

(** A store with the default collection, of dimension 4 and still empty,
    and a store without any collection. *)
Definition w0 : World :=
  {| tick := 0;
     index := {[ "podcast_chunks" := {| vector_size := 4; points := ∅ |} ]} |}.

Definition w_empty : World := {| tick := 0; index := ∅ |}.

Definition sample_chunks : list PDFChunk.t :=
  [ {| PDFChunk.id := "1";
       PDFChunk.content := "Sample content for testing";
       PDFChunk.page_number := 1;
       PDFChunk.embedding := Some [0.5; 0.25; 0.125; 0.75]%float;
       PDFChunk.metadata := {[ "source" := VStr "test.pdf" ]} |};
    {| PDFChunk.id := "2";
       PDFChunk.content := "Another test content";
       PDFChunk.page_number := 2;
       PDFChunk.embedding := Some [0.75; 0.5; 0.25; 0.125]%float;
       PDFChunk.metadata := {[ "source" := VStr "test.pdf" ]} |} ].

(** A chunk with a 3-component embedding. *)
Definition short_chunk : PDFChunk.t :=
  {| PDFChunk.id := "3";
     PDFChunk.content := "Too short";
     PDFChunk.page_number := 1;
     PDFChunk.embedding := Some [0.5; 0.25; 0.125]%float;
     PDFChunk.metadata := {[ "source" := VStr "test.pdf" ]} |}.

Definition agent_config (name role personality voice_id : string)
    : gmap string string :=
  <["name" := name]> (<["role" := role]> (<["personality" := personality]>
    (<["voice_id" := voice_id]> ∅))).

(** The default agents of [podcast_service.py]. *)
Definition default_agents : list (gmap string string) :=
  [ agent_config "Dr. Knowledge" "explainer"
      "Expert in the subject matter, patient, and thorough in explanations"
      "21m00Tcm4TlvDq8ikWAM";
    agent_config "Curious Carl" "curious"
      "Inquisitive, asks insightful questions, represents the audience's perspective"
      "AZCnJ6YX1Dv9e0J9z4Jm";
    agent_config "You" "user"
      "The actual user who can ask questions during the conversation"
      "EXAVITQu4vr4xnSDxMaL" ].

Definition request0 : GeminiGenerationRequest.t :=
  {| GeminiGenerationRequest.pdf_id := "doc-42";
     GeminiGenerationRequest.query := None;
     GeminiGenerationRequest.context := None;
     GeminiGenerationRequest.agent_configs := default_agents |}.

(** A request whose agents lack the curious role. *)
Definition request_no_curious : GeminiGenerationRequest.t :=
  {| GeminiGenerationRequest.pdf_id := "doc-42";
     GeminiGenerationRequest.query := None;
     GeminiGenerationRequest.context := None;
     GeminiGenerationRequest.agent_configs :=
       [ agent_config "Dr. Knowledge" "explainer" "Expert" "v1";
         agent_config "You" "user" "The user" "v3" ] |}.

Definition alex : PodcastAgent.t :=
  {| PodcastAgent.id := "1"; PodcastAgent.name := "Alex";
     PodcastAgent.role := "explainer";
     PodcastAgent.personality := "Knowledgeable and patient";
     PodcastAgent.voice_id := "default" |}.

Definition jamie : PodcastAgent.t :=
  {| PodcastAgent.id := "2"; PodcastAgent.name := "Jamie";
     PodcastAgent.role := "curious";
     PodcastAgent.personality := "Inquisitive and enthusiastic";
     PodcastAgent.voice_id := "default" |}.

End Scenario.

(** ** Further vocabulary: the segmenter's grouping of words *)

Module Grouping.
Import PyStr.

(** A text without any non-blank character. *)
Fixpoint all_blank (s : string) : bool :=
  match s with
  | "" => true
  | String c s' => isspace c && all_blank s'
  end.

(** The loop of [chunk_text], keeping every sealed chunk as the list of its
    words instead of joining it. *)
Definition group_step (chunk_size : Z)
    (st : list (list string) * list string) (word : string)
    : list (list string) * list string :=
  let '(groups, current_chunk) := st in
  if (len (join " " (current_chunk ++ [word])) <=? chunk_size)%Z
  then (groups, current_chunk ++ [word])
  else (groups ++ [current_chunk], [word]).

(** In a list of word groups, every group is followed by a non-empty group
    whose first word did not fit behind it. *)
Fixpoint tight (chunk_size : Z) (groups : list (list string)) : Prop :=
  match groups with
  | [] => True
  | g :: rest =>
      match rest with
      | [] => True
      | next :: _ =>
          (exists w more,
             next = w :: more /\
             (chunk_size < len (join " " (g ++ [w])))%Z) /\
          tight chunk_size rest
      end
  end.

End Grouping.

(** ** Further vocabulary: stored points and search results *)

Module Stored.
Import Effects.

(** The payload [upsert_vectors] writes for a chunk. *)
Definition payload_of (chunk : PDFChunk.t) : gmap string pyval :=
  <["pdf_id" := QdrantService.get (PDFChunk.metadata chunk) "pdf_id" (VStr "")]>
  (<["content" := VStr (PDFChunk.content chunk)]>
  (<["page_number" := VInt (PDFChunk.page_number chunk)]>
  (<["source" := QdrantService.get (PDFChunk.metadata chunk) "source" (VStr "")]>
  (<["chunk_index" :=
       QdrantService.get (PDFChunk.metadata chunk) "chunk_index" (VInt 0)]>
   ∅)))).

(** The result [search_similar] builds from a hit that carries no vector. *)
Definition result_of (hit : ScoredPoint) : VectorSearchResult.t :=
  {| VectorSearchResult.id := sp_id hit;
     VectorSearchResult.score := sp_score hit;
     VectorSearchResult.payload := sp_payload hit;
     VectorSearchResult.vector := None |}.

(** A hit without vector, and a hit with one. *)
Definition bare (hit : ScoredPoint) : Prop :=
  sp_vector hit = None \/ sp_vector hit = Some [].

Definition loaded (hit : ScoredPoint) : Prop :=
  exists x v, sp_vector hit = Some (x :: v).

(** A chunk that was never embedded. *)
Definition unembedded_chunk : PDFChunk.t :=
  {| PDFChunk.id := "4";
     PDFChunk.content := "Not embedded yet";
     PDFChunk.page_number := 3;
     PDFChunk.embedding := None;
     PDFChunk.metadata := {[ "source" := VStr "test.pdf" ]} |}.

(** A store whose default collection holds two points. *)
Definition stocked : Collection :=
  {| vector_size := 4;
     points :=
       {[ "p-1" := {| point_id := "p-1";
                      vector := [0.5; 0.25; 0.125; 0.75]%float;
                      payload :=
                        {[ "content" := VStr "Sample content for testing" ]} |};
          "p-2" := {| point_id := "p-2";
                      vector := [0.75; 0.5; 0.25; 0.125]%float;
                      payload :=
                        {[ "content" := VStr "Another test content" ]} |} ]} |}.

Definition w_stocked : World :=
  {| tick := 0; index := {[ "podcast_chunks" := stocked ]} |}.

(** An engine that returns every stored point with its vector, as the
    client does when vectors are asked for. *)
Definition with_vectors (c : Collection) (query_vector : list float)
    (limit : Z) (query_filter : option (gmap string pyval))
    : list ScoredPoint :=
  take (Z.to_nat limit)
    (map (fun kv => {| sp_id := fst kv; sp_score := 1%float;
                       sp_payload := payload (snd kv);
                       sp_vector := Some (vector (snd kv)) |})
         (map_to_list (points c))).

Definition env_with_vectors : Env :=
  {| uuid4 := uuid4 Scenario.env_up;
     now := now Scenario.env_up;
     generate_content := generate_content Scenario.env_up;
     encode := encode Scenario.env_up;
     transport := transport Scenario.env_up;
     make_filter := make_filter Scenario.env_up;
     nearest := with_vectors;
     kept_vector := kept_vector Scenario.env_up;
     partial_write := partial_write Scenario.env_up;
     QDRANT_COLLECTION := QDRANT_COLLECTION Scenario.env_up |}.

(** A store that writes the points of a refused batch up to the first one
    that does not fit. *)
Fixpoint fitting_prefix (c : Collection) (ps : list PointStruct)
    : list PointStruct :=
  match ps with
  | [] => []
  | p :: rest =>
      if QdrantClient.fits c p then p :: fitting_prefix c rest else []
  end.

Definition env_eager : Env :=
  {| uuid4 := uuid4 Scenario.env_up;
     now := now Scenario.env_up;
     generate_content := generate_content Scenario.env_up;
     encode := encode Scenario.env_up;
     transport := transport Scenario.env_up;
     make_filter := make_filter Scenario.env_up;
     nearest := nearest Scenario.env_up;
     kept_vector := kept_vector Scenario.env_up;
     partial_write := fun t idx collection_name ps =>
       match idx !! collection_name with
       | Some c =>
           <[collection_name :=
               QdrantClient.write (fun v => v) c (fitting_prefix c ps)]> idx
       | None => idx
       end;
     QDRANT_COLLECTION := QDRANT_COLLECTION Scenario.env_up |}.

End Stored.

(** ** Further vocabulary: the transcript *)

Module Transcript.
Import Effects PyStr Props.

(** [new] is, message for message, what the loop appends after [history]
    from turn [k] on when the model is first asked at tick [t]: the reply
    of the turn's speaker, stamped with the clock read that follows it. *)
Fixpoint produced (env : Env) (explainer curious : PodcastAgent.t)
    (context : string) (t k : nat) (history new : list PodcastMessage.t)
    : Prop :=
  match new with
  | [] => True
  | m :: rest =>
      m = {| PodcastMessage.agent_id :=
               PodcastAgent.id (speaker explainer curious k);
             PodcastMessage.content :=
               reply env (speaker explainer curious k) context history t;
             PodcastMessage.timestamp := now env (S t);
             PodcastMessage.is_user_message := false |} /\
      produced env explainer curious context (2 + t) (S k)
        (history ++ [m]) rest
  end.

(** The opening question, asked by the curious agent at tick [t]. *)
Definition opening (env : Env) (curious : PodcastAgent.t)
    (query : option string) (t : nat) : PodcastMessage.t :=
  {| PodcastMessage.agent_id := PodcastAgent.id curious;
     PodcastMessage.content :=
       "What can you tell me about "
       +:+ GeminiService.or_default query "this PDF content" +:+ "?";
     PodcastMessage.timestamp := now env t;
     PodcastMessage.is_user_message := false |}.

(** What the model is shown of a message. *)
Definition shown (m : PodcastMessage.t) : string * string :=
  (PodcastMessage.agent_id m, PodcastMessage.content m).

(** An agent built from a configuration. *)
Definition mirrors (agent_config : gmap string string) (a : PodcastAgent.t)
    : Prop :=
  agent_config !! "name" = Some (PodcastAgent.name a) /\
  agent_config !! "role" = Some (PodcastAgent.role a) /\
  agent_config !! "personality" = Some (PodcastAgent.personality a) /\
  PodcastAgent.voice_id a
  = QdrantService.get agent_config "voice_id" "default".

End Transcript.

(** ** Further collaborators

    The oracles of the functions below that [Env] does not have: the PDF
    reader, the embedding of chunks, the file system, the enumeration of
    distance metrics, the speech synthesis, and the texts of errors that
    the Python runtime and its libraries word themselves. *)

Module Tools.
Import Effects.

Record t : Type := {
  (** [PyPDF2.PdfReader(open(path, 'rb')).pages], each through
      [page.extract_text()] *)
  read_pages : nat -> string -> outcome (list string);
  (** [self.embedding_model.encode(chunks).tolist()] *)
  encode_chunks : nat -> list string -> outcome (list (list float));
  (** [datetime.isoformat] *)
  isoformat : Z -> string;
  (** [open(path, 'wb')] and [file.write(content)] *)
  write_file : nat -> string -> list Byte.byte -> option exn;
  (** [models.Distance(metric.upper())] *)
  distance : string -> outcome string;
  (** elevenlabs' [generate(text=..., voice=..., model=...)] *)
  tts_generate : nat -> string -> string -> outcome (list Byte.byte);
  (** [save(audio, filepath)] and [len(AudioSegment.from_file(filepath))]:
      the length in milliseconds, as the float the division by [1000.0]
      makes of it *)
  store_audio : nat -> string -> list Byte.byte -> outcome float;
  (** the interpreter's message for a local variable read before it is
      assigned *)
  unbound_local : string -> string;
  (** [str(e)] of an [HTTPException] *)
  str_http : Z -> string -> string;
  UPLOAD_DIR : string;
  AUDIO_DIR : string
}.

End Tools.

(** ** More string and path primitives *)

Module PyPath.
Import PyStr.

(** [s.split(sep)] for a separator of one character: never empty. *)
Fixpoint split_on (sep : ascii) (s : string) : list string :=
  match s with
  | "" => [""]
  | String c s' =>
      if Ascii.eqb c sep then "" :: split_on sep s'
      else match split_on sep s' with
           | x :: rest => String c x :: rest
           | [] => [String c ""]
           end
  end.

(** [l[-1]] on a list of strings that is not empty. *)
Definition last_item (l : list string) : string := List.last l "".

Fixpoint ends_with_slash (s : string) : bool :=
  match s with
  | "" => false
  | String c "" => Ascii.eqb c "/"
  | String _ s' => ends_with_slash s'
  end.

(** [os.path.join(a, b)] of [posixpath]. *)
Definition path_join (a b : string) : string :=
  if starts_with "/" b then b
  else match a with
       | "" => a +:+ b
       | String _ _ =>
           if ends_with_slash a then a +:+ b else a +:+ "/" +:+ b
       end.

(** The number of occurrences of a character. *)
Fixpoint count_char (c : ascii) (s : string) : nat :=
  match s with
  | "" => 0
  | String x s' => (if Ascii.eqb x c then 1 else 0) + count_char c s'
  end.

(** [enumerate(l)] *)
Definition enumerate {A} (l : list A) : list (nat * A) :=
  combine (seq 0 (length l)) l.

End PyPath.

(** ** The rest of the PDF service ([pdf_service.py]) *)

Module PDFProcessingResult.
Record t : Type := {
  pdf_id : string;
  filename : string;
  total_chunks : Z;
  total_pages : Z;
  status : string;
  created_at : Z;
  chunks : list PDFChunk.t
}.
End PDFProcessingResult.

Module PdfIngest.
Import Effects Loops PyStr PyPath.

(** [PDFService.extract_text_from_pdf(file_path)] *)
Definition extract_text_from_pdf (tools : Tools.t) (file_path : string)
    : M string :=
  let text := "" in
  pages <- ask (fun t => Tools.read_pages tools t file_path) ;;
  for_each pages
    (fun page text => ret (text +:+ page +:+ GeminiService.nl))
    text.

(** [PDFService.generate_embeddings(chunks)] *)
Definition generate_embeddings (tools : Tools.t) (chunks : list string)
    : M (list (list float)) :=
  ask (fun t => Tools.encode_chunks tools t chunks).

(** The body of the loop of [process_pdf_file]: one [PDFChunk] from the
    [i]-th pair of chunk text and embedding. *)
Definition make_chunk (env : Env) (tools : Tools.t) (filename : string)
    (item : nat * (string * list float)) : M PDFChunk.t :=
  let '(i, (chunk_text, embedding)) := item in
  id <- ask (fun t => Return (uuid4 env t)) ;;
  timestamp <- ask (fun t => Return (now env t)) ;;
  ret {| PDFChunk.id := id;
         PDFChunk.content := chunk_text;
         PDFChunk.page_number := Z.of_nat i / 5 + 1;
         PDFChunk.embedding := Some embedding;
         PDFChunk.metadata :=
           <["source" := VStr filename]>
           (<["timestamp" := VStr (Tools.isoformat tools timestamp)]>
           (<["chunk_index" := VInt (Z.of_nat i)]> ∅)) |}.

(** [PDFService.process_pdf_file(file_path, filename)] *)
Definition process_pdf_file (env : Env) (tools : Tools.t)
    (file_path filename : string) : M PDFProcessingResult.t :=
  text_content <- extract_text_from_pdf tools file_path ;;
  let text_chunks := PdfService.chunk_text text_content 1000 in
  embeddings <- generate_embeddings tools text_chunks ;;
  chunks <- for_each (enumerate (combine text_chunks embeddings))
              (fun item chunks =>
                 chunk <- make_chunk env tools filename item ;;
                 ret (chunks ++ [chunk]))
              [] ;;
  pdf_id <- ask (fun t => Return (uuid4 env t)) ;;
  created_at <- ask (fun t => Return (now env t)) ;;
  ret {| PDFProcessingResult.pdf_id := pdf_id;
         PDFProcessingResult.filename := filename;
         PDFProcessingResult.total_chunks := Z.of_nat (length chunks);
         PDFProcessingResult.total_pages :=
           Z.of_nat (length text_chunks) / 5 + 1;
         PDFProcessingResult.status := "completed";
         PDFProcessingResult.created_at := created_at;
         PDFProcessingResult.chunks := chunks |}.

(** [PDFService.save_uploaded_file(file_content, filename)] *)
Definition save_uploaded_file (env : Env) (tools : Tools.t)
    (file_content : list Byte.byte) (filename : string) : M string :=
  file_id <- ask (fun t => Return (uuid4 env t)) ;;
  let file_extension := last_item (split_on "." filename) in
  let safe_filename := file_id +:+ "." +:+ file_extension in
  let file_path := path_join (Tools.UPLOAD_DIR tools) safe_filename in
  _ <- ask (fun t => match Tools.write_file tools t file_path file_content with
                     | Some e => Raise e
                     | None => Return tt
                     end) ;;
  ret file_path.

End PdfIngest.

(** ** Further vocabulary and inputs for the PDF service *)

Module Ingested.
Import Effects PyStr.

(** The text [extract_text_from_pdf] builds from the pages. *)
Definition page_lines (pages : list string) : string :=
  join "" (map (fun page => page +:+ GeminiService.nl) pages).

(** The chunk [process_pdf_file] builds at position [i], its id being
    drawn at tick [t]. *)
Definition chunk_at (env : Env) (tools : Tools.t) (filename : string)
    (t i : nat) (chunk_text : string) (embedding : list float) : PDFChunk.t :=
  {| PDFChunk.id := uuid4 env t;
     PDFChunk.content := chunk_text;
     PDFChunk.page_number := Z.of_nat i / 5 + 1;
     PDFChunk.embedding := Some embedding;
     PDFChunk.metadata :=
       <["source" := VStr filename]>
       (<["timestamp" := VStr (Tools.isoformat tools (now env (S t)))]>
       (<["chunk_index" := VInt (Z.of_nat i)]> ∅)) |}.

(** Collaborators that answer. *)
Definition tools_up : Tools.t :=
  {| Tools.read_pages := fun t path =>
       Return ["Sample PDF Content"; "Page 2 Content More text here"];
     Tools.encode_chunks := fun t chunks =>
       Return (map (fun _ => [0.5; 0.25; 0.125; 0.75]%float) chunks);
     Tools.isoformat := fun z => pretty z;
     Tools.write_file := fun t path content => None;
     Tools.distance := fun metric => Return metric;
     Tools.tts_generate := fun t text voice => Return [];
     Tools.store_audio := fun t path audio => Return 1500%float;
     Tools.unbound_local := fun x =>
       "cannot access local variable '" +:+ x
       +:+ "' where it is not associated with a value";
     Tools.str_http := fun status_code detail =>
       pretty status_code +:+ ": " +:+ detail;
     Tools.UPLOAD_DIR := "app/static/uploads";
     Tools.AUDIO_DIR := "app/static/audio" |}.

(** A reader that finds seven pages with one word of 600 letters each: no
    two of them fit in a chunk of 1000 characters. *)
Definition long_word (n : nat) : string := Nat.iter n (String "a") "".

Definition long_pages : list string := repeat (long_word 600) 7.

Definition tools_long : Tools.t :=
  {| Tools.read_pages := fun t path => Return long_pages;
     Tools.encode_chunks := Tools.encode_chunks tools_up;
     Tools.isoformat := Tools.isoformat tools_up;
     Tools.write_file := Tools.write_file tools_up;
     Tools.distance := Tools.distance tools_up;
     Tools.tts_generate := Tools.tts_generate tools_up;
     Tools.store_audio := Tools.store_audio tools_up;
     Tools.unbound_local := Tools.unbound_local tools_up;
     Tools.str_http := Tools.str_http tools_up;
     Tools.UPLOAD_DIR := Tools.UPLOAD_DIR tools_up;
     Tools.AUDIO_DIR := Tools.AUDIO_DIR tools_up |}.


End Ingested.

(** ** Answers with retrieval ([gemini_service.py], continued) *)

Module GeminiRag.
Import Effects Loops PyStr GeminiService.

(** The f-string of [generate_response_with_rag]. *)
Definition rag_prompt (agent : PodcastAgent.t) (query context : string)
    : string :=
  nl +:+ indent +:+ "You are " +:+ PodcastAgent.name agent +:+ ", a "
     +:+ PodcastAgent.role agent +:+ " with personality: "
     +:+ PodcastAgent.personality agent +:+ "." +:+ nl
  +:+ indent +:+ "Answer the following question based on the provided context:" +:+ nl
  +:+ nl
  +:+ indent +:+ "Question: " +:+ query +:+ nl
  +:+ indent +:+ "Context: " +:+ context +:+ nl
  +:+ nl
  +:+ indent +:+ "Provide a detailed and informative answer based on the context." +:+ nl
  +:+ indent +:+ "If the context doesn't contain relevant information, say you don't know." +:+ nl
  +:+ indent.

Definition rag_apology (e : exn) : string :=
  "Sorry, I couldn't generate a response based on the provided context. "
  +:+ str_exn e.

(** [GeminiService.generate_response_with_rag(pdf_id, query, agent)] *)
Definition generate_response_with_rag (env : Env) (pdf_id query : string)
    (agent : PodcastAgent.t) : M string :=
  try_except
    (context <- _get_conversation_context env pdf_id (Some query) ;;
     let prompt := rag_prompt agent query context in
     response <- ask (fun t => generate_content env t prompt) ;;
     ret (strip response))
    (fun e => ret (rag_apology e)).

End GeminiRag.

(** ** The speech service ([voice_service.py]) *)

Module AudioGenerationRequest.
Record t : Type := {
  text : string;
  voice_id : string;
  agent_id : string;
  format : string
}.
End AudioGenerationRequest.

Module AudioGenerationResponse.
Record t : Type := {
  audio_url : string;
  file_id : string;
  duration : float;
  format : string
}.
End AudioGenerationResponse.

Module PodcastAudioSegment.
Record t : Type := {
  segment_id : string;
  agent_id : string;
  audio_url : string;
  text_content : string;
  duration : float;
  order : Z
}.
End PodcastAudioSegment.

Module CompletePodcastAudio.
Record t : Type := {
  podcast_id : string;
  conversation_id : string;
  segments : list PodcastAudioSegment.t;
  total_duration : float;
  format : string;
  download_url : string
}.
End CompletePodcastAudio.

Module VoiceService.
Import Effects Loops PyStr PyPath GeminiService.

(** [VoiceService.generate_speech(request)] *)
Definition generate_speech (env : Env) (tools : Tools.t)
    (request : AudioGenerationRequest.t) : M AudioGenerationResponse.t :=
  try_except
    (audio <- ask (fun t => Tools.tts_generate tools t
                              (AudioGenerationRequest.text request)
                              (AudioGenerationRequest.voice_id request)) ;;
     file_id <- ask (fun t => Return (uuid4 env t)) ;;
     let filename :=
       file_id +:+ "." +:+ AudioGenerationRequest.format request in
     let filepath := path_join (Tools.AUDIO_DIR tools) filename in
     milliseconds <- ask (fun t => Tools.store_audio tools t filepath audio) ;;
     let duration := (milliseconds / 1000)%float in
     ret {| AudioGenerationResponse.audio_url := "/audio/" +:+ filename;
            AudioGenerationResponse.file_id := file_id;
            AudioGenerationResponse.duration := duration;
            AudioGenerationResponse.format :=
              AudioGenerationRequest.format request |})
    (fun e => raise (Exception ("Failed to generate speech: " +:+ str_exn e))).

(** Reading a local variable of the function before any assignment to it:
    Python raises [UnboundLocalError].  The handler around it catches every
    [Exception] and keeps only [str(e)], so the generic constructor carries
    the interpreter's message. *)
Definition read_unbound {A} (tools : Tools.t) (name : string) : M A :=
  raise (Exception (Tools.unbound_local tools name)).

(** The body of the loop of [generate_podcast_audio], for a message that is
    a [dict] from [str] to [str]. *)
Definition segment_step (env : Env) (tools : Tools.t)
    (item : nat * gmap string string)
    (st : list PodcastAudioSegment.t * float)
    : M (list PodcastAudioSegment.t * float) :=
  let '(i, message) := item in
  let '(segments, total_duration) := st in
  let voice_id := QdrantService.get message "voice_id" "21m00Tcm4TlvDq8ikWAM" in
  text <- getitem message "content" ;;
  agent_id <- getitem message "agent_id" ;;
  let audio_request :=
    {| AudioGenerationRequest.text := text;
       AudioGenerationRequest.voice_id := voice_id;
       AudioGenerationRequest.agent_id := agent_id;
       AudioGenerationRequest.format := "mp3" |} in
  audio_response <- generate_speech env tools audio_request ;;
  agent_id <- getitem message "agent_id" ;;
  text_content <- getitem message "content" ;;
  let segment :=
    {| PodcastAudioSegment.segment_id :=
         AudioGenerationResponse.file_id audio_response;
       PodcastAudioSegment.agent_id := agent_id;
       PodcastAudioSegment.audio_url :=
         AudioGenerationResponse.audio_url audio_response;
       PodcastAudioSegment.text_content := text_content;
       PodcastAudioSegment.duration :=
         AudioGenerationResponse.duration audio_response;
       PodcastAudioSegment.order := Z.of_nat i |} in
  ret (segments ++ [segment],
       (total_duration + AudioGenerationResponse.duration audio_response)%float).

(** [VoiceService.generate_podcast_audio(conversation_id, messages)].  The
    arguments of [CompletePodcastAudio(...)] are evaluated in order: the id
    is drawn, and then [download_url] reads [podcast_audio], the variable
    this very statement is about to assign. *)
Definition generate_podcast_audio (env : Env) (tools : Tools.t)
    (conversation_id : string) (messages : list (gmap string string))
    : M CompletePodcastAudio.t :=
  try_except
    (let segments := [] in
     let total_duration := 0%float in
     st <- for_each (enumerate messages) (segment_step env tools)
             (segments, total_duration) ;;
     podcast_id <- ask (fun t => Return (uuid4 env t)) ;;
     podcast_audio <- read_unbound tools "podcast_audio" ;;
     let download_url :=
       "/podcasts/" +:+ CompletePodcastAudio.podcast_id podcast_audio
       +:+ "/download" in
     ret {| CompletePodcastAudio.podcast_id := podcast_id;
            CompletePodcastAudio.conversation_id := conversation_id;
            CompletePodcastAudio.segments := fst st;
            CompletePodcastAudio.total_duration := snd st;
            CompletePodcastAudio.format := "mp3";
            CompletePodcastAudio.download_url := download_url |})
    (fun e =>
       raise (Exception ("Failed to generate podcast audio: " +:+ str_exn e))).

End VoiceService.

(** ** Managing collections ([qdrant_service.py], continued)

    The calls of the client library that create, probe, describe and drop
    a collection are neither in the repository nor described with it.
    They are left open: each is a function of the tick and of the content
    of the store, which gives the new content, where the call can change
    it, and the result or the exception. *)

Module QdrantCollectionConfig.
Record t : Type := {
  collection_name : string;
  vector_size : Z;
  distance_metric : string
}.
End QdrantCollectionConfig.

Module Admin.
Import Effects.

(** What [get_collection_info] reads off the answer of
    [client.get_collection]: [vectors_count], [points_count] and
    [config.dict()]. *)
Record CollectionInfo : Type := {
  vectors_count : Z;
  points_count : Z;
  config : gmap string pyval
}.

Record t : Type := {
  (** [client.create_collection(collection_name=..., vectors_config=
      models.VectorParams(size=..., distance=...))] *)
  create_collection : nat -> gmap string Collection -> string -> Z -> string
                      -> gmap string Collection * option exn;
  (** [client.collection_exists(collection_name)] *)
  collection_exists : nat -> gmap string Collection -> string -> outcome bool;
  (** [client.get_collection(collection_name)] and the three attributes *)
  get_collection : nat -> gmap string Collection -> string
                   -> outcome CollectionInfo;
  (** [client.delete_collection(collection_name)] *)
  delete_collection : nat -> gmap string Collection -> string
                      -> gmap string Collection * option exn;
  (** [len(SentenceTransformer('all-MiniLM-L6-v2').encode(["sample text"])[0])] *)
  sample_dimension : nat -> outcome Z
}.

(** A call that can change the store. *)
Definition changing (call : nat -> gmap string Collection
                            -> gmap string Collection * option exn)
    : M unit :=
  fun w =>
    let '(idx, r) := call (tick w) (index w) in
    ({| tick := S (tick w); index := idx |},
     match r with
     | Some e => Raise e
     | None => Return tt
     end).

(** A call that only reads it. *)
Definition reading {A} (call : nat -> gmap string Collection -> outcome A)
    : M A :=
  fun w => (advance w, call (tick w) (index w)).

End Admin.

Module QdrantCollections.
Import Effects Loops.

(** The [dict] that [get_collection_info] returns: the one with the four
    keys, or the empty one. *)
Inductive info_dict : Type :=
| Empty
| Info (name : string) (vectors_count points_count : Z)
       (config : gmap string pyval).

(** Truth value of the [dict]. *)
Definition truthy (d : info_dict) : bool :=
  match d with
  | Empty => false
  | Info _ _ _ _ => true
  end.

(** [QdrantService.create_collection(config)]: the distance is looked up
    while the arguments are evaluated, before the client is called. *)
Definition create_collection (tools : Tools.t) (admin : Admin.t)
    (config : QdrantCollectionConfig.t) : M bool :=
  try_except
    (distance <- lift (Tools.distance tools
                         (QdrantCollectionConfig.distance_metric config)) ;;
     _ <- Admin.changing
            (fun t idx =>
               Admin.create_collection admin t idx
                 (QdrantCollectionConfig.collection_name config)
                 (QdrantCollectionConfig.vector_size config) distance) ;;
     ret true)
    (fun e => ret false).

(** [QdrantService.collection_exists(collection_name)] *)
Definition collection_exists (admin : Admin.t) (collection_name : string)
    : M bool :=
  try_except
    (Admin.reading
       (fun t idx => Admin.collection_exists admin t idx collection_name))
    (fun e => ret false).

(** [QdrantService.get_collection_info(collection_name)] *)
Definition get_collection_info (admin : Admin.t) (collection_name : string)
    : M info_dict :=
  try_except
    (collection_info <-
       Admin.reading
         (fun t idx => Admin.get_collection admin t idx collection_name) ;;
     ret (Info collection_name
            (Admin.vectors_count collection_info)
            (Admin.points_count collection_info)
            (Admin.config collection_info)))
    (fun e => ret Empty).

(** [QdrantService.delete_collection(collection_name)] *)
Definition delete_collection (admin : Admin.t) (collection_name : string)
    : M bool :=
  try_except
    (_ <- Admin.changing
            (fun t idx =>
               Admin.delete_collection admin t idx collection_name) ;;
     ret true)
    (fun e => ret false).

(** [QdrantService.initialize_default_collection()]: the outcome of the
    creation only chooses the line that is logged. *)
Definition initialize_default_collection (env : Env) (tools : Tools.t)
    (admin : Admin.t) : M string :=
  let collection_name := QDRANT_COLLECTION env in
  present <- collection_exists admin collection_name ;;
  if negb present then
    vector_size <- ask (Admin.sample_dimension admin) ;;
    let config :=
      {| QdrantCollectionConfig.collection_name := collection_name;
         QdrantCollectionConfig.vector_size := vector_size;
         QdrantCollectionConfig.distance_metric := "cosine" |} in
    created <- create_collection tools admin config ;;
    (if created then ret collection_name else ret collection_name)
  else ret collection_name.

End QdrantCollections.

(** ** The request handlers ([app/routes])

    A handler returns the body of its answer or raises; what it raises is
    an exception of the services or an [HTTPException], which is an
    [Exception] too, so that [except Exception] catches both. *)

Module Http.
Import Effects.

Inductive raised : Type :=
| Py (e : exn)
| HTTPException (status_code : Z) (detail : string).

(** [str(e)] in a handler. *)
Definition str_raised (tools : Tools.t) (r : raised) : string :=
  match r with
  | Py e => str_exn e
  | HTTPException status_code detail => Tools.str_http tools status_code detail
  end.

Inductive answer (A : Type) : Type :=
| Ok (a : A)
| Failed (r : raised).
Arguments Ok {A} a.
Arguments Failed {A} r.

Definition R (A : Type) : Type := World -> World * answer A.

Definition ret {A} (a : A) : R A := fun w => (w, Ok a).

Definition raise {A} (r : raised) : R A := fun w => (w, Failed r).

Definition bind {A B} (m : R A) (k : A -> R B) : R B :=
  fun w =>
    match m w with
    | (w', Ok a) => k a w'
    | (w', Failed r) => (w', Failed r)
    end.

(** A call of a service. *)
Definition call {A} (m : M A) : R A :=
  fun w =>
    match m w with
    | (w', Return a) => (w', Ok a)
    | (w', Raise e) => (w', Failed (Py e))
    end.

(** [try: body  except Exception as e: handler] *)
Definition try_except {A} (body : R A) (handler : raised -> R A) : R A :=
  fun w =>
    match body w with
    | (w', Ok a) => (w', Ok a)
    | (w', Failed r) => handler r w'
    end.

Definition HTTP_400_BAD_REQUEST : Z := 400.
Definition HTTP_404_NOT_FOUND : Z := 404.
Definition HTTP_500_INTERNAL_SERVER_ERROR : Z := 500.

End Http.

Notation "x <~ m ;; k" := (Http.bind m (fun x => k))
(at level 100, m at next level, right associativity) : py_scope.

Module QdrantRoutes.
Import Effects Http.

Record SearchBody : Type := {
  results : list VectorSearchResult.t;
  count : Z
}.

(** [create_collection(config)] of [qdrant_routes.py] *)
Definition create_collection (tools : Tools.t) (admin : Admin.t)
    (config : QdrantCollectionConfig.t) : R (gmap string string) :=
  Http.try_except
    (success <~ call (QdrantCollections.create_collection tools admin
                        config) ;;
     if success : bool then
       Http.ret {[ "status" := "success";
                   "collection_name" :=
                     QdrantCollectionConfig.collection_name config ]}
     else
       Http.raise (HTTPException HTTP_400_BAD_REQUEST
                     "Failed to create collection"))
    (fun e =>
       Http.raise (HTTPException HTTP_500_INTERNAL_SERVER_ERROR
                     ("Error creating collection: " +:+ str_raised tools e))).

(** [get_collection_info(collection_name)] of [qdrant_routes.py] *)
Definition get_collection_info (tools : Tools.t) (admin : Admin.t)
    (collection_name : string) : R QdrantCollections.info_dict :=
  Http.try_except
    (info <~ call (QdrantCollections.get_collection_info admin
                     collection_name) ;;
     if QdrantCollections.truthy info then Http.ret info
     else
       Http.raise (HTTPException HTTP_404_NOT_FOUND "Collection not found"))
    (fun e =>
       Http.raise (HTTPException HTTP_500_INTERNAL_SERVER_ERROR
                     ("Error getting collection info: "
                      +:+ str_raised tools e))).

(** [search_vectors(collection_name, query_vector, limit, filter)] *)
Definition search_vectors (env : Env) (tools : Tools.t)
    (collection_name : string) (query_vector : list float) (limit : Z)
    (filter : option (gmap string pyval)) : R SearchBody :=
  Http.try_except
    (results <~ call (QdrantService.search_similar env collection_name
                        query_vector limit filter) ;;
     Http.ret {| results := results;
                 count := Z.of_nat (length results) |})
    (fun e =>
       Http.raise (HTTPException HTTP_500_INTERNAL_SERVER_ERROR
                     ("Error searching vectors: " +:+ str_raised tools e))).

(** [delete_collection(collection_name)] of [qdrant_routes.py] *)
Definition delete_collection (tools : Tools.t) (admin : Admin.t)
    (collection_name : string) : R (gmap string string) :=
  Http.try_except
    (success <~ call (QdrantCollections.delete_collection admin
                        collection_name) ;;
     if success : bool then
       Http.ret {[ "status" := "success";
                   "message" :=
                     "Collection " +:+ collection_name +:+ " deleted" ]}
     else
       Http.raise (HTTPException HTTP_404_NOT_FOUND "Collection not found"))
    (fun e =>
       Http.raise (HTTPException HTTP_500_INTERNAL_SERVER_ERROR
                     ("Error deleting collection: " +:+ str_raised tools e))).

(** [initialize_default_collection()] of [qdrant_routes.py] *)
Definition initialize_default_collection (env : Env) (tools : Tools.t)
    (admin : Admin.t) : R (gmap string string) :=
  Http.try_except
    (collection_name <~
       call (QdrantCollections.initialize_default_collection env tools
               admin) ;;
     Http.ret {[ "status" := "success";
                 "collection_name" := collection_name;
                 "message" := "Default collection initialized" ]})
    (fun e =>
       Http.raise (HTTPException HTTP_500_INTERNAL_SERVER_ERROR
                     ("Error initializing default collection: "
                      +:+ str_raised tools e))).

End QdrantRoutes.

Module GeminiGenerationResponse.
Record t : Type := {
  conversation_id : string;
  messages : list PodcastMessage.t;
  status : string;
  tokens_used : Z
}.
End GeminiGenerationResponse.

Module PodcastRoutes.
Import Effects Http PyStr.

(** [generate_podcast(request)] of [podcast_routes.py] *)
Definition generate_podcast (env : Env) (tools : Tools.t)
    (request : GeminiGenerationRequest.t) : R GeminiGenerationResponse.t :=
  Http.try_except
    (conversation <~
       call (GeminiService.generate_podcast_conversation env request) ;;
     let response :=
       {| GeminiGenerationResponse.conversation_id :=
            PodcastConversation.id conversation;
          GeminiGenerationResponse.messages :=
            PodcastConversation.messages conversation;
          GeminiGenerationResponse.status := "completed";
          GeminiGenerationResponse.tokens_used :=
            Z.of_nat
              (length
                 (split (join " "
                           (map PodcastMessage.content
                              (PodcastConversation.messages
                                 conversation))))) |} in
     Http.ret response)
    (fun e =>
       Http.raise (HTTPException HTTP_500_INTERNAL_SERVER_ERROR
                     ("Error generating podcast: " +:+ str_raised tools e))).

(** [generate_rag_response(pdf_id, query, agent_role)] *)
Definition generate_rag_response (env : Env) (tools : Tools.t)
    (pdf_id query agent_role : string) : R (gmap string string) :=
  Http.try_except
    (let agent :=
       {| PodcastAgent.id := "temp";
          PodcastAgent.name := "Assistant";
          PodcastAgent.role := agent_role;
          PodcastAgent.personality := "Helpful and informative";
          PodcastAgent.voice_id := "default" |} in
     response <~ call (GeminiRag.generate_response_with_rag env pdf_id query
                         agent) ;;
     Http.ret {[ "response" := response;
                 "pdf_id" := pdf_id;
                 "query" := query;
                 "agent_role" := agent_role ]})
    (fun e =>
       Http.raise (HTTPException HTTP_500_INTERNAL_SERVER_ERROR
                     ("Error generating RAG response: "
                      +:+ str_raised tools e))).

End PodcastRoutes.

Module PDFUploadResponse.
Record t : Type := {
  pdf_id : string;
  filename : string;
  status : string;
  message : string
}.
End PDFUploadResponse.

Module PdfRoutes.
Import Effects Http.

(** [upload_pdf(file)] of [pdf_routes.py], for the content and the name of
    the uploaded file. *)
Definition upload_pdf (env : Env) (tools : Tools.t)
    (content : list Byte.byte) (filename : string) : R PDFUploadResponse.t :=
  Http.try_except
    (file_path <~ call (PdfIngest.save_uploaded_file env tools content
                          filename) ;;
     result <~ call (PdfIngest.process_pdf_file env tools file_path
                       filename) ;;
     Http.ret
       {| PDFUploadResponse.pdf_id := PDFProcessingResult.pdf_id result;
          PDFUploadResponse.filename := PDFProcessingResult.filename result;
          PDFUploadResponse.status := "success";
          PDFUploadResponse.message :=
            "PDF processed successfully. Generated "
            +:+ pretty (PDFProcessingResult.total_chunks result)
            +:+ " chunks." |})
    (fun e =>
       Http.raise (HTTPException HTTP_500_INTERNAL_SERVER_ERROR
                     ("Error processing PDF: " +:+ str_raised tools e))).

End PdfRoutes.

Module VoiceRoutes.
Import Effects Http.

(** [generate_speech(request)] of [voice_routes.py] *)
Definition generate_speech (env : Env) (tools : Tools.t)
    (request : AudioGenerationRequest.t) : R AudioGenerationResponse.t :=
  Http.try_except
    (response <~ call (VoiceService.generate_speech env tools request) ;;
     Http.ret response)
    (fun e =>
       Http.raise (HTTPException HTTP_500_INTERNAL_SERVER_ERROR
                     ("Error generating speech: " +:+ str_raised tools e))).

(** [generate_podcast_audio(conversation_id, messages)] of
    [voice_routes.py] *)
Definition generate_podcast_audio (env : Env) (tools : Tools.t)
    (conversation_id : string) (messages : list (gmap string string))
    : R CompletePodcastAudio.t :=
  Http.try_except
    (response <~ call (VoiceService.generate_podcast_audio env tools
                         conversation_id messages) ;;
     Http.ret response)
    (fun e =>
       Http.raise (HTTPException HTTP_500_INTERNAL_SERVER_ERROR
                     ("Error generating podcast audio: "
                      +:+ str_raised tools e))).

End VoiceRoutes.

(** ** Inputs for the handlers *)

Module Served.
Import Effects.

(** A store whose collections are the entries of the index. *)
Definition admin_up : Admin.t :=
  {| Admin.create_collection := fun t idx name size distance =>
       match idx !! name with
       | Some _ => (idx, Some (Exception ("Collection " +:+ name
                                          +:+ " already exists")))
       | None =>
           (<[name := {| vector_size := Z.to_nat size; points := ∅ |}]> idx,
            None)
       end;
     Admin.collection_exists := fun t idx name =>
       Return (bool_decide (is_Some (idx !! name)));
     Admin.get_collection := fun t idx name =>
       match idx !! name with
       | Some c =>
           Return {| Admin.vectors_count := Z.of_nat (size (points c));
                     Admin.points_count := Z.of_nat (size (points c));
                     Admin.config := ∅ |}
       | None => Raise (NotFound name)
       end;
     Admin.delete_collection := fun t idx name =>
       match idx !! name with
       | Some _ => (delete name idx, None)
       | None => (idx, Some (NotFound name))
       end;
     Admin.sample_dimension := fun t => Return 4%Z |}.

(** An enumeration of distances that knows capitalised names only, so
    that it rejects the upper-case name of a metric. *)
Definition tools_strict : Tools.t :=
  {| Tools.read_pages := Tools.read_pages Ingested.tools_up;
     Tools.encode_chunks := Tools.encode_chunks Ingested.tools_up;
     Tools.isoformat := Tools.isoformat Ingested.tools_up;
     Tools.write_file := Tools.write_file Ingested.tools_up;
     Tools.distance := fun metric =>
       Raise (ValueError ("'" +:+ metric +:+ "' is not a valid Distance"));
     Tools.tts_generate := Tools.tts_generate Ingested.tools_up;
     Tools.store_audio := Tools.store_audio Ingested.tools_up;
     Tools.unbound_local := Tools.unbound_local Ingested.tools_up;
     Tools.str_http := Tools.str_http Ingested.tools_up;
     Tools.UPLOAD_DIR := Tools.UPLOAD_DIR Ingested.tools_up;
     Tools.AUDIO_DIR := Tools.AUDIO_DIR Ingested.tools_up |}.

End Served.

(** * Properties of the string primitives *)

Module PyStrFacts.
Import PyStr Props.

Lemma append_nil_l (b : string) : "" +:+ b = b.
Proof. reflexivity. Qed.

Lemma append_cons (c : ascii) (a b : string) :
  String c a +:+ b = String c (a +:+ b).
Proof. reflexivity. Qed.

Ltac unfold_append := rewrite ?append_cons, ?append_nil_l.

Lemma append_nil_r (s : string) : s +:+ "" = s.
Proof.
  induction s as [|c s IH]; unfold_append; [reflexivity | now rewrite IH].
Qed.

Lemma append_assoc (a b c : string) : (a +:+ b) +:+ c = a +:+ b +:+ c.
Proof.
  induction a as [|x a IH]; unfold_append; [reflexivity | now rewrite IH].
Qed.

Lemma join_snoc (l : list string) (x : string) :
  join " " (l ++ [x]) = prefixed l +:+ x.
Proof.
  induction l as [|y l IH]; [reflexivity|].
  change ((y :: l) ++ [x]) with (y :: (l ++ [x])).
  cbn [join prefixed]. rewrite !append_assoc, <- IH.
  destruct l; reflexivity.
Qed.

Lemma prefixed_snoc (l : list string) (x : string) :
  prefixed (l ++ [x]) = prefixed l +:+ x +:+ " ".
Proof.
  induction l as [|y l IH]; cbn [app prefixed].
  - now rewrite append_nil_r.
  - now rewrite IH, !append_assoc.
Qed.

Lemma join_cons (x y : string) (l : list string) :
  join " " (x :: y :: l) = x +:+ " " +:+ join " " (y :: l).
Proof. reflexivity. Qed.

(** A non-empty list joined and followed by a space is the list
    [prefixed]. *)
Lemma prefixed_join (l : list string) :
  l <> [] -> prefixed l = join " " l +:+ " ".
Proof.
  induction l as [|x l IH]; [congruence|]. intros _.
  destruct l as [|y l].
  - cbn [prefixed join]. now rewrite append_nil_r.
  - rewrite join_cons.
    change (prefixed (x :: y :: l)) with (x +:+ " " +:+ prefixed (y :: l)).
    rewrite IH by congruence. now rewrite !append_assoc.
Qed.

Lemma flush_word (w : string) : is_word w = true -> flush w = [w].
Proof. destruct w; [discriminate | reflexivity]. Qed.

Lemma no_blank_app (a b : string) :
  no_blank (a +:+ b) = no_blank a && no_blank b.
Proof.
  induction a as [|c a IH]; unfold_append; cbn [no_blank]; [reflexivity|].
  now rewrite IH, andb_assoc.
Qed.

(** Reading a blank-free string only extends the current word. *)
Lemma split_from_no_blank (s word : string) :
  no_blank s = true -> split_from word s = flush (word +:+ s).
Proof.
  revert word. induction s as [|c s IH]; intros word H; cbn in *.
  - now rewrite append_nil_r.
  - apply andb_prop in H as [Hc Hs].
    apply negb_true_iff in Hc. rewrite Hc, IH by assumption.
    now rewrite append_assoc.
Qed.

Lemma split_word (w : string) : is_word w = true -> split w = [w].
Proof.
  intros H. unfold split. rewrite split_from_no_blank.
  - now apply flush_word.
  - destruct w; [discriminate | exact H].
Qed.

(** [split] is a morphism over a separating space. *)
Lemma split_from_space (a b word : string) :
  split_from word (a +:+ " " +:+ b) = split_from word a ++ split b.
Proof.
  revert word. induction a as [|c a IH]; intros word.
  - reflexivity.
  - rewrite append_cons. cbn [split_from]. destruct (isspace c).
    + now rewrite IH, app_assoc.
    + apply IH.
Qed.

Lemma split_space (a b : string) :
  split (a +:+ " " +:+ b) = split a ++ split b.
Proof. apply split_from_space. Qed.

Lemma split_join_words (ws : list string) :
  Forall (fun w => is_word w = true) ws -> split (join " " ws) = ws.
Proof.
  induction 1 as [|w ws Hw Hws IH]; [reflexivity|].
  destruct ws as [|v ws].
  - now apply split_word.
  - rewrite join_cons, split_space, IH. now rewrite split_word.
Qed.

Lemma split_from_words (s word : string) :
  no_blank word = true ->
  Forall (fun w => is_word w = true) (split_from word s).
Proof.
  revert word. induction s as [|c s IH]; intros word H; cbn [split_from].
  - destruct word; constructor; [exact H | constructor].
  - destruct (isspace c) eqn:Hc.
    + apply Forall_app. split; [|now apply IH].
      destruct word; constructor; [exact H | constructor].
    + apply IH. rewrite no_blank_app, H. cbn. now rewrite Hc.
Qed.

(** Every item [split] returns is a word. *)
Lemma split_words (s : string) :
  Forall (fun w => is_word w = true) (split s).
Proof. now apply split_from_words. Qed.

(** The collapsed form of a text is a fixed point of collapsing. *)
Lemma split_normalized (text : string) :
  split (normalized text) = split text.
Proof. apply split_join_words, split_words. Qed.




End PyStrFacts.

(** * Properties of the text segmenter *)

Module PdfServiceFacts.
Import PyStr PdfService Props PyStrFacts.

Example chunk_text_abcde :
  chunk_text "a b c d e" 3 = ["a b"; "c d"; "e"].
Proof. reflexivity. Qed.

Example split_collapses :
  split "  two   words " = ["two"; "words"].
Proof. reflexivity. Qed.

Example strip_both_ends : strip "  a b  " = "a b".
Proof. reflexivity. Qed.

(** *** The size limit *)

Lemma chunk_step_within (n : Z) (words chunks cur : list string) (w : string) :
  In w words ->
  Forall (within n words) chunks -> current_ok n words cur ->
  Forall (within n words) (fst (chunk_step n (chunks, cur) w)) /\
  current_ok n words (snd (chunk_step n (chunks, cur) w)).
Proof.
  intros Hw Hchunks Hcur. unfold chunk_step.
  destruct (len (join " " (cur ++ [w])) <=? n)%Z eqn:Hfit; cbn [fst snd].
  - split; [assumption|]. left. now apply Z.leb_le.
  - split; [|right; eauto].
    apply Forall_app. split; [assumption|]. constructor; [|constructor].
    destruct Hcur as [Hle | (w0 & -> & Hin)]; [now left|].
    cbn [join]. destruct (Z_le_gt_dec (len w0) n); [now left|].
    right. split; [assumption | lia].
Qed.

Lemma chunk_loop_within (n : Z) (words ws chunks cur : list string) :
  incl ws words ->
  Forall (within n words) chunks -> current_ok n words cur ->
  Forall (within n words) (fst (fold_left (chunk_step n) ws (chunks, cur))) /\
  current_ok n words (snd (fold_left (chunk_step n) ws (chunks, cur))).
Proof.
  revert chunks cur.
  induction ws as [|w ws IH]; intros chunks cur Hincl Hchunks Hcur.
  - now split.
  - cbn [fold_left].
    destruct (chunk_step_within n words chunks cur w) as [H1 H2];
      [apply Hincl; now left | assumption | assumption |].
    destruct (chunk_step n (chunks, cur) w) as [chunks' cur'].
    apply IH; [|assumption..].
    intros x Hx. apply Hincl. now right.
Qed.

(** *** The round trip *)

(** Once [current_chunk] is non-empty it stays so, and what has been
    emitted, followed by the current chunk, reads as the words consumed so
    far; [lead] is whatever the output began with. *)
Lemma chunk_loop_join (n : Z) (lead : string) (ws seen chunks cur : list string) :
  cur <> [] -> seen <> [] ->
  prefixed chunks +:+ join " " cur = lead +:+ join " " seen ->
  snd (fold_left (chunk_step n) ws (chunks, cur)) <> [] /\
  prefixed (fst (fold_left (chunk_step n) ws (chunks, cur)))
    +:+ join " " (snd (fold_left (chunk_step n) ws (chunks, cur)))
  = lead +:+ join " " (seen ++ ws).
Proof.
  revert seen chunks cur.
  induction ws as [|w ws IH]; intros seen chunks cur Hcur Hseen Hinv.
  - rewrite app_nil_r. now split.
  - cbn [fold_left]. unfold chunk_step at 2 4 6.
    replace (seen ++ w :: ws) with ((seen ++ [w]) ++ ws)
      by now rewrite <- app_assoc.
    assert (Hnext : lead +:+ join " " (seen ++ [w])
                    = prefixed chunks +:+ join " " cur +:+ " " +:+ w).
    { rewrite join_snoc, prefixed_join by assumption.
      now rewrite <- !append_assoc, <- Hinv, !append_assoc. }
    destruct (len (join " " (cur ++ [w])) <=? n)%Z.
    + apply IH.
      * now destruct cur.
      * now destruct seen.
      * rewrite Hnext, join_snoc, (prefixed_join cur) by assumption.
        now rewrite !append_assoc.
    + apply IH.
      * discriminate.
      * now destruct seen.
      * rewrite Hnext, prefixed_snoc. cbn [join].
        now rewrite !append_assoc.
Qed.

Lemma chunk_text_no_words (text : string) (n : Z) :
  split text = [] -> chunk_text text n = [].
Proof. intros H. unfold chunk_text. now rewrite H. Qed.

(** With one word at least, the output joined by single spaces is the
    collapsed text behind [lead], where [lead] is empty when the first word
    fits and one space when it does not. *)
Lemma chunk_text_join (text : string) (n : Z) (w : string) (ws : list string) :
  split text = w :: ws ->
  join " " (chunk_text text n)
  = (if (len w <=? n)%Z then "" else " ") +:+ normalized text.
Proof.
  intros Hsplit. unfold chunk_text, normalized. rewrite Hsplit.
  change (fold_left (chunk_step n) (w :: ws) ([], []))
    with (fold_left (chunk_step n) ws (chunk_step n ([], []) w)).
  set (lead := if (len w <=? n)%Z then "" else " ").
  assert (Hfirst : exists chunks,
             chunk_step n ([], []) w = (chunks, [w]) /\ prefixed chunks = lead).
  { unfold chunk_step. cbn [app join]. subst lead.
    destruct (len w <=? n)%Z; eexists; split; reflexivity. }
  destruct Hfirst as (chunks0 & -> & Hlead).
  destruct (chunk_loop_join n lead ws [w] chunks0 [w]) as [Hne Hjoin];
    [discriminate | discriminate | cbn [join]; now rewrite Hlead |].
  destruct (fold_left (chunk_step n) ws (chunks0, [w])) as [chunks cur].
  cbn [fst snd] in Hne, Hjoin. destruct cur as [|c cur]; [congruence|].
  rewrite join_snoc. exact Hjoin.
Qed.

(** When the first word fits, joining the chunks with single spaces gives
    the collapsed text exactly. *)
Lemma chunk_text_join_exact (text : string) (n : Z) (w : string)
    (ws : list string) :
  split text = w :: ws -> (len w <= n)%Z ->
  join " " (chunk_text text n) = normalized text.
Proof.
  intros Hsplit Hfit. rewrite (chunk_text_join text n w ws Hsplit).
  apply Z.leb_le in Hfit. now rewrite Hfit.
Qed.

(** In every case the chunks hold the words of the text, in order: joined
    and collapsed again, they collapse to the same text. *)
Lemma chunk_text_words (text : string) (n : Z) :
  split (join " " (chunk_text text n)) = split text.
Proof.
  destruct (split text) as [|w ws] eqn:Hsplit.
  - now rewrite chunk_text_no_words.
  - rewrite (chunk_text_join text n w ws Hsplit), <- Hsplit.
    destruct (len w <=? n)%Z.
    + apply split_normalized.
    + rewrite <- (append_nil_l (" " +:+ normalized text)), split_space.
      apply split_normalized.
Qed.

(** The bound on the chunks: for every text and every limit of at least
    one character, each chunk that [chunk_text] returns is at most
    [max_chars] long, unless it is a single word of the text that is itself
    longer than [max_chars]. *)
Theorem chunk_text_within (text : string) (max_chars : Z) :
  (1 <= max_chars)%Z ->
  Forall (within max_chars (split text)) (chunk_text text max_chars).
Proof.
  intros Hmax. unfold chunk_text.
  destruct (chunk_loop_within max_chars (split text) (split text) [] [])
    as [Hchunks Hcur].
  - apply incl_refl.
  - constructor.
  - left. cbn. unfold len. cbn. lia.
  - destruct (fold_left (chunk_step max_chars) (split text) ([], []))
      as [chunks cur].
    cbn [fst snd] in Hchunks, Hcur. destruct cur as [|c cur]; [assumption|].
    apply Forall_app. split; [assumption|]. constructor; [|constructor].
    destruct Hcur as [Hle | (w0 & Heq & Hin)]; [now left|].
    rewrite Heq. cbn [join].
    destruct (Z_le_gt_dec (len w0) max_chars); [now left|].
    right. split; [assumption | lia].
Qed.

Lemma chunk_text_within_witness :
  Forall (within 3 (split "ab cdefg h i")) (chunk_text "ab cdefg h i" 3).
Proof. apply chunk_text_within. lia. Defined.

(** C1, at the input where it fails. A first word longer than the limit
    makes the loop seal the still empty current chunk, so the result starts
    with an empty chunk and the chunks joined by single spaces start with a
    space that the collapsed text does not have. *)
Theorem chunk_text_overlong_first_word :
  chunk_text "hello" 3 = [""; "hello"] /\
  join " " (chunk_text "hello" 3) = " hello" /\
  normalized "hello" = "hello".
Proof. repeat split. Qed.

End PdfServiceFacts.

(** * Properties of the vector index wrapper *)

Module QdrantServiceFacts.
Import Effects Loops QdrantService Props Scenario.

(** *** Building the points *)

Lemma make_point_run (env : Env) (chunk : PDFChunk.t) (w : World) :
  make_point env chunk w =
  (advance w,
   match PDFChunk.embedding chunk with
   | None => Raise (ValidationError "vector")
   | Some v =>
       Return {| point_id := uuid4 env (tick w); vector := v;
                 payload :=
                   <["pdf_id" := get (PDFChunk.metadata chunk) "pdf_id" (VStr "")]>
                   (<["content" := VStr (PDFChunk.content chunk)]>
                   (<["page_number" := VInt (PDFChunk.page_number chunk)]>
                   (<["source" := get (PDFChunk.metadata chunk) "source" (VStr "")]>
                   (<["chunk_index" :=
                        get (PDFChunk.metadata chunk) "chunk_index" (VInt 0)]>
                    ∅)))) |}
   end).
Proof.
  unfold make_point, bind, ask. cbn.
  destruct (PDFChunk.embedding chunk); reflexivity.
Qed.

(** The loop that builds the points never touches the store; it stops at
    the first chunk without embedding, and otherwise appends one point per
    chunk, carrying the chunk's embedding under the id drawn at its tick. *)
Lemma build_points_run (env : Env) (chunks : list PDFChunk.t)
    (acc : list PointStruct) (w : World) :
  exists w' r,
    for_each chunks
      (fun chunk points =>
         point <- make_point env chunk ;; ret (points ++ [point])) acc w
    = (w', r) /\
    index w' = index w /\
    match r with
    | Raise _ => Exists (fun chunk => PDFChunk.embedding chunk = None) chunks
    | Return pts =>
        exists new,
          pts = acc ++ new /\
          tick w' = tick w + length chunks /\
          Forall2 (fun chunk p => PDFChunk.embedding chunk = Some (vector p))
                  chunks new /\
          map point_id new = map (uuid4 env) (seq (tick w) (length chunks))
    end.
Proof.
  revert acc w. induction chunks as [|chunk chunks IH]; intros acc w.
  - exists w, (Return acc). repeat split. exists [].
    rewrite app_nil_r. cbn. repeat split; [lia | constructor].
  - cbn [for_each]. unfold bind at 1. unfold bind at 1.
    rewrite make_point_run.
    destruct (PDFChunk.embedding chunk) as [v|] eqn:Hv.
    + unfold ret at 1.
      set (p := {| point_id := uuid4 env (tick w); vector := v;
                   payload := _ |}).
      destruct (IH (acc ++ [p]) (advance w)) as (w' & r & Hrun & Hidx & Hr).
      exists w', r. rewrite Hrun. repeat split; [exact Hidx|].
      destruct r as [pts|e]; [|now right].
      destruct Hr as (new & -> & Htick & Hall & Hids).
      exists (p :: new). rewrite <- app_assoc. cbn in *.
      repeat split; [lia | constructor; [exact Hv | exact Hall] | now f_equal].
    + exists (advance w), (Raise (ValidationError "vector")).
      repeat split. now left.
Qed.

(** *** Writing to the store *)

Lemma write_snoc (keep : list float -> list float)
    (pts : gmap string PointStruct) (ps : list PointStruct)
    (p : PointStruct) :
  fold_left (QdrantClient.put keep) (ps ++ [p]) pts
  = QdrantClient.put keep (fold_left (QdrantClient.put keep) ps pts) p.
Proof. now rewrite fold_left_app. Qed.

(** Writing points under ids that are new and pairwise distinct adds one
    point each. *)
Lemma write_fresh_size (keep : list float -> list float)
    (ps : list PointStruct) (pts : gmap string PointStruct) :
  NoDup (map point_id ps) ->
  (forall p, In p ps -> pts !! point_id p = None) ->
  size (fold_left (QdrantClient.put keep) ps pts) = size pts + length ps.
Proof.
  revert pts. induction ps as [|p ps IH]; intros pts Hnd Hnew; cbn.
  - lia.
  - apply NoDup_cons in Hnd as [Hp Hnd].
    rewrite IH; [|assumption|].
    + unfold QdrantClient.put. rewrite map_size_insert_None; [lia|].
      apply Hnew. now left.
    + intros q Hq. unfold QdrantClient.put.
      rewrite lookup_insert_ne; [apply Hnew; now right|].
      intros Heq. apply Hp. rewrite Heq. apply list_elem_of_In.
      now apply in_map.
Qed.

(** What a write leaves under an id: the last point of the batch that has
    this id, as the store keeps it, or what was there before. *)
Lemma write_lookup (keep : list float -> list float)
    (ps : list PointStruct) (pts : gmap string PointStruct) (k : string) :
  fold_left (QdrantClient.put keep) ps pts !! k =
  match List.find (fun p => String.eqb (point_id p) k) (rev ps) with
  | Some p => Some (QdrantClient.stored keep p)
  | None => pts !! k
  end.
Proof.
  induction ps as [|p ps IH] using rev_ind; [reflexivity|].
  rewrite write_snoc, rev_unit. cbn [List.find]. unfold QdrantClient.put at 1.
  destruct (String.eqb_spec (point_id p) k) as [->|Hne].
  - apply lookup_insert_eq.
  - rewrite lookup_insert_ne by assumption. exact IH.
Qed.

(** The store's own write is idempotent by point id: the same batch, with
    the same ids, written again changes nothing. *)
Lemma write_idempotent (keep : list float -> list float) (c : Collection)
    (ps : list PointStruct) :
  QdrantClient.write keep (QdrantClient.write keep c ps) ps
  = QdrantClient.write keep c ps.
Proof.
  unfold QdrantClient.write. cbn. f_equal. apply map_eq. intros k.
  rewrite !write_lookup.
  now destruct (List.find (fun p => String.eqb (point_id p) k) (rev ps)).
Qed.

(** *** Dimension mismatch *)


Lemma fitting_accepted (c : Collection) (chunks : list PDFChunk.t)
    (ps : list PointStruct) :
  Forall2 (fun chunk p => PDFChunk.embedding chunk = Some (vector p)) chunks ps ->
  Forall (fitting c) chunks ->
  forallb (QdrantClient.fits c) ps = true.
Proof.
  induction 1 as [|chunk p chunks ps Hp Hall IH]; intros Hfit; [reflexivity|].
  apply Forall_cons in Hfit as [(v & Hv & Hlen) Hfit].
  cbn [forallb]. rewrite IH by assumption.
  rewrite Hp in Hv. injection Hv as <-.
  unfold QdrantClient.fits. apply andb_true_iff. split; [|reflexivity].
  now apply Nat.eqb_eq.
Qed.

(** [upsert_vectors] always returns a boolean, whatever the store does. *)
Lemma upsert_vectors_returns (env : Env) (collection_name : string)
    (chunks : list PDFChunk.t) (w : World) :
  exists w' ok, upsert_vectors env collection_name chunks w = (w', Return ok).
Proof.
  unfold upsert_vectors, try_except.
  match goal with |- context [match ?body w with _ => _ end] =>
    destruct (body w) as [w' [ok|e]] end; unfold ret; eauto.
Qed.




(** *** Repeated upserts *)

(** One successful call: every chunk becomes a new point. *)
Lemma upsert_vectors_adds (env : Env) (w : World) (collection_name : string)
    (chunks : list PDFChunk.t) (c : Collection) :
  index w !! collection_name = Some c ->
  Forall (fitting c) chunks ->
  (forall t, transport env t = None) ->
  fresh_from env (tick w) c ->
  exists w' c',
    upsert_vectors env collection_name chunks w = (w', Return true) /\
    index w' !! collection_name = Some c' /\
    Forall (fitting c') chunks /\
    fresh_from env (tick w') c' /\
    size (points c') = size (points c) + length chunks.
Proof.
  intros Hc Hfit Hup [Hinj Hnew].
  unfold upsert_vectors, try_except. unfold bind at 1.
  destruct (build_points_run env chunks [] w) as (w1 & r & -> & Hidx & Hr).
  destruct r as [pts|e].
  2:{ exfalso. apply Exists_exists in Hr as (chunk & Hin & Hnone).
      rewrite Forall_forall in Hfit.
      destruct (Hfit chunk Hin) as (v & Hv & _). congruence. }
  destruct Hr as (new & -> & Htick & Hall & Hids). cbn [app].
  unfold bind, QdrantClient.upsert. cbv zeta.
  rewrite Hup, Hidx, Hc, (fitting_accepted c chunks new Hall Hfit).
  unfold ret.
  eexists _, (QdrantClient.write (kept_vector env collection_name) c new).
  split; [reflexivity|]. cbn [index tick advance].
  assert (Hlen : length new = length chunks).
  { symmetry. eapply Forall2_length, Hall. }
  assert (Hin : forall p, In p new ->
                  exists i, tick w <= i < tick w + length chunks /\
                            point_id p = uuid4 env i).
  { intros p Hp. apply (in_map point_id) in Hp. rewrite Hids in Hp.
    apply in_map_iff in Hp as (i & Hi & Hseq). apply in_seq in Hseq.
    exists i. split; [lia | now symmetry]. }
  split; [apply lookup_insert_eq|]. split; [exact Hfit|]. split.
  - split; [exact Hinj|]. intros i Hi. cbn [QdrantClient.write points].
    rewrite write_lookup.
    destruct (List.find _ (rev new)) as [p|] eqn:Hfind; [|apply Hnew; lia].
    apply find_some in Hfind as [Hp Heq]. apply in_rev in Hp.
    destruct (Hin p Hp) as (j & Hj & Hid).
    apply String.eqb_eq in Heq. rewrite Hid in Heq. apply Hinj in Heq. lia.
  - cbn [QdrantClient.write points]. rewrite write_fresh_size, Hlen.
    + reflexivity.
    + rewrite Hids. apply NoDup_fmap_2; [exact Hinj | apply NoDup_seq].
    + intros p Hp. destruct (Hin p Hp) as (i & Hi & ->). apply Hnew. lia.
Qed.

(** C6, as the code has it. Every call of [upsert_vectors] draws a new id
    for each chunk, so a second call with the same chunks does not replace
    the points of the first: after two calls the collection holds two
    points per chunk, and, the chunks being at least one, the index is not
    what it was after the first call. *)
Theorem upsert_vectors_twice_adds_twice (env : Env) (w : World)
    (collection_name : string) (chunks : list PDFChunk.t) (c : Collection) :
  chunks <> [] ->
  index w !! collection_name = Some c ->
  Forall (fitting c) chunks ->
  (forall t, transport env t = None) ->
  fresh_from env (tick w) c ->
  exists w1 w2,
    upsert_vectors env collection_name chunks w = (w1, Return true) /\
    upsert_vectors env collection_name chunks w1 = (w2, Return true) /\
    point_count w1 collection_name = Some (size (points c) + length chunks) /\
    point_count w2 collection_name
      = Some (size (points c) + 2 * length chunks) /\
    index w2 <> index w1.
Proof.
  intros Hne Hc Hfit Hup Hfresh.
  destruct (upsert_vectors_adds env w collection_name chunks c)
    as (w1 & c1 & Hrun1 & Hc1 & Hfit1 & Hfresh1 & Hsize1); try assumption.
  destruct (upsert_vectors_adds env w1 collection_name chunks c1)
    as (w2 & c2 & Hrun2 & Hc2 & _ & _ & Hsize2); try assumption.
  exists w1, w2. unfold point_count. rewrite Hc1, Hc2. cbn.
  repeat split; try assumption; try (f_equal; lia).
  intros Heq. rewrite Heq, Hc1 in Hc2. injection Hc2 as <-.
  destruct chunks; [congruence | cbn [length] in Hsize2; lia].
Qed.

Lemma uuid_of_inj (i j : nat) : uuid_of i = uuid_of j -> i = j.
Proof.
  unfold uuid_of. intros H.
  apply (inj (String.app "00000000-0000-4000-8000-")) in H.
  now apply (inj pretty) in H.
Qed.

Lemma upsert_vectors_twice_adds_twice_witness :
  exists w1 w2,
    upsert_vectors env_up "podcast_chunks" sample_chunks w0 = (w1, Return true) /\
    upsert_vectors env_up "podcast_chunks" sample_chunks w1 = (w2, Return true) /\
    point_count w1 "podcast_chunks" = Some (0 + 2) /\
    point_count w2 "podcast_chunks" = Some (0 + 2 * 2) /\
    index w2 <> index w1.
Proof.
  change (0 + 2) with (size (points {| vector_size := 4; points := ∅ |})
                       + length sample_chunks).
  change (0 + 2 * 2) with (size (points {| vector_size := 4; points := ∅ |})
                           + 2 * length sample_chunks).
  apply (upsert_vectors_twice_adds_twice env_up w0 "podcast_chunks"
           sample_chunks {| vector_size := 4; points := ∅ |}).
  - discriminate.
  - reflexivity.
  - repeat constructor; eexists; split; reflexivity.
  - reflexivity.
  - split; [exact uuid_of_inj | reflexivity].
Defined.

(** C6, as stated, fails: upserting the two sample chunks once leaves two
    points, upserting them a second time leaves four, so the second call
    changed the index. *)
Lemma upsert_vectors_not_idempotent :
  let once := upsert_vectors env_up "podcast_chunks" sample_chunks w0 in
  let twice := upsert_vectors env_up "podcast_chunks" sample_chunks (fst once) in
  snd once = Return true /\ snd twice = Return true /\
  point_count (fst once) "podcast_chunks" = Some 2 /\
  point_count (fst twice) "podcast_chunks" = Some 4 /\
  index (fst twice) <> index (fst once).
Proof.
  cbv zeta. repeat split; try (vm_compute; reflexivity).
  intros Heq.
  assert (H : point_count
                (fst (upsert_vectors env_up "podcast_chunks" sample_chunks
                        (fst (upsert_vectors env_up "podcast_chunks"
                                sample_chunks w0)))) "podcast_chunks"
              = point_count
                  (fst (upsert_vectors env_up "podcast_chunks" sample_chunks w0))
                  "podcast_chunks").
  { unfold point_count. now rewrite Heq. }
  vm_compute in H. discriminate H.
Qed.

(** *** Search *)

(** [search_similar] always returns a list. *)
Lemma search_similar_returns (env : Env) (collection_name : string)
    (query_vector : list float) (limit : Z)
    (filter : option (gmap string pyval)) (w : World) :
  exists w' results,
    search_similar env collection_name query_vector limit filter w
    = (w', Return results).
Proof.
  unfold search_similar, try_except.
  match goal with |- context [match ?body w with _ => _ end] =>
    destruct (body w) as [w' [results|e]] end; eauto.
Qed.

(** C7. On a collection that the index does not have, [search_similar]
    returns the empty list, whatever the query vector, the limit and the
    filter; no exception reaches the caller. *)
Theorem search_similar_missing_collection (env : Env) (w : World)
    (collection_name : string) (query_vector : list float) (limit : Z)
    (filter : option (gmap string pyval)) :
  index w !! collection_name = None ->
  exists w',
    search_similar env collection_name query_vector limit filter w
    = (w', Return []).
Proof.
  intros Hnone. unfold search_similar, try_except. unfold bind at 1.
  assert (Hsearch : forall qf w1, index w1 = index w ->
            exists w2 e,
              QdrantClient.search env collection_name query_vector limit qf w1
              = (w2, Raise e)).
  { intros qf w1 Hidx. unfold QdrantClient.search.
    destruct (transport env (tick w1)); [eauto|].
    rewrite Hidx, Hnone. eauto. }
  assert (Hfilter : exists w1 r, query_filter env filter w = (w1, r) /\
                                 index w1 = index w).
  { unfold query_filter. destruct filter as [d|]; [|unfold ret; eauto].
    destruct (decide (d = ∅)); [unfold ret; eauto|].
    unfold bind, lift. destruct (make_filter env d); unfold ret; eauto. }
  destruct Hfilter as (w1 & [qf|e] & -> & Hidx); [|unfold ret; eauto].
  unfold bind at 1.
  destruct (Hsearch qf w1 Hidx) as (w2 & e & ->). unfold ret. eauto.
Qed.

Example search_similar_empty_store :
  search_similar env_up "podcast_chunks" [0.5; 0.25; 0.125; 0.75]%float
    5 None w_empty
  = (advance w_empty, Return []).
Proof. reflexivity. Qed.

Lemma search_similar_missing_collection_witness :
  exists w',
    search_similar env_up "no_such_collection" [0.5; 0.25; 0.125; 0.75]%float
      5 None w0
    = (w', Return []).
Proof.
  apply search_similar_missing_collection. reflexivity.
Defined.

End QdrantServiceFacts.

(** * Properties of the context builder and the dialogue synthesizer *)

Module GeminiServiceFacts.
Import Effects Loops PyStr GeminiService Props Scenario PyStrFacts.

(** *** One turn *)

(** A call of [generate_agent_response] asks the model once and always
    returns: the stripped text, or the apology carrying the error. *)
Lemma generate_agent_response_run (env : Env) (agent : PodcastAgent.t)
    (context : string) (history : list PodcastMessage.t) (w : World) :
  generate_agent_response env agent context history w
  = (advance w, Return (reply env agent context history (tick w))).
Proof.
  unfold generate_agent_response, try_except, bind, ask, reply.
  destruct (generate_content env (tick w) _); reflexivity.
Qed.

Lemma turn_run (env : Env) (agent : PodcastAgent.t) (context : string)
    (messages history : list PodcastMessage.t) (w : World) :
  turn env agent context (messages, history) w
  = (advance (advance w),
     Return (messages ++
               [{| PodcastMessage.agent_id := PodcastAgent.id agent;
                   PodcastMessage.content :=
                     reply env agent context history (tick w);
                   PodcastMessage.timestamp := now env (S (tick w));
                   PodcastMessage.is_user_message := false |}],
             history ++
               [{| PodcastMessage.agent_id := PodcastAgent.id agent;
                   PodcastMessage.content :=
                     reply env agent context history (tick w);
                   PodcastMessage.timestamp := now env (S (tick w));
                   PodcastMessage.is_user_message := false |}])).
Proof.
  unfold turn. unfold bind at 1. rewrite generate_agent_response_run.
  reflexivity.
Qed.

(** *** The loop *)

Lemma speaker_even (explainer curious : PodcastAgent.t) (k : nat) :
  Nat.even k = true ->
  speaker explainer curious k = explainer /\
  speaker explainer curious (S k) = curious.
Proof.
  intros Hk. unfold speaker. rewrite Nat.even_succ, <- Nat.negb_even, Hk.
  now split.
Qed.

(** [n] rounds append [2 * n] messages, the explainer's and the curious
    agent's in turn; no round fails. *)
Lemma rounds_run (env : Env) (explainer curious : PodcastAgent.t)
    (context : string) (n a k : nat) (messages history : list PodcastMessage.t)
    (w : World) :
  Nat.even k = true ->
  exists w' new,
    for_each (seq a n)
      (fun (i : nat) st =>
         st <- turn env explainer context st ;; turn env curious context st)
      (messages, history) w
    = (w', Return (messages ++ new, history ++ new)) /\
    length new = 2 * n /\
    generated env explainer curious context (tick w) k history new.
Proof.
  revert a k messages history w.
  induction n as [|n IH]; intros a k messages history w Hk.
  - exists w, []. rewrite !app_nil_r. now repeat split.
  - cbn [seq for_each]. unfold bind at 1. unfold bind at 1.
    rewrite turn_run. cbv beta iota. rewrite turn_run. cbv beta iota.
    set (m1 := {| PodcastMessage.agent_id := PodcastAgent.id explainer;
                  PodcastMessage.content := _;
                  PodcastMessage.timestamp := _;
                  PodcastMessage.is_user_message := _ |}).
    set (m2 := {| PodcastMessage.agent_id := PodcastAgent.id curious;
                  PodcastMessage.content := _;
                  PodcastMessage.timestamp := _;
                  PodcastMessage.is_user_message := _ |}).
    destruct (IH (S a) (S (S k)) ((messages ++ [m1]) ++ [m2])
                ((history ++ [m1]) ++ [m2]) (advance (advance (advance (advance w)))))
      as (w' & new & -> & Hlen & Hgen); [exact Hk|].
    exists w', (m1 :: m2 :: new). rewrite <- !app_assoc. cbn [app].
    split; [reflexivity|]. split; [cbn; lia|].
    destruct (speaker_even explainer curious k Hk) as [He Hc].
    cbn [generated]. rewrite He, Hc. repeat split. exact Hgen.
Qed.

(** *** What [generated] gives *)

Lemma generated_ids (env : Env) (explainer curious : PodcastAgent.t)
    (context : string) (new history : list PodcastMessage.t) (t k : nat) :
  generated env explainer curious context t k history new ->
  map PodcastMessage.agent_id new
  = map (fun j => PodcastAgent.id (speaker explainer curious j))
        (seq k (length new)).
Proof.
  revert history t k. induction new as [|m new IH]; intros history t k H.
  - reflexivity.
  - destruct H as (Hid & _ & Hrest). cbn. rewrite Hid. f_equal.
    eapply IH, Hrest.
Qed.

Lemma generated_lookup (env : Env) (explainer curious : PodcastAgent.t)
    (context : string) (new history : list PodcastMessage.t) (t k j : nat)
    (m : PodcastMessage.t) :
  generated env explainer curious context t k history new ->
  new !! j = Some m ->
  PodcastMessage.content m
  = reply env (speaker explainer curious (k + j)) context
      (history ++ firstn j new) (t + 2 * j).
Proof.
  revert history t k j. induction new as [|m0 new IH]; intros history t k j H Hj.
  - discriminate.
  - destruct H as (_ & Hcontent & Hrest). destruct j as [|j].
    + injection Hj as <-. cbn [firstn]. rewrite app_nil_r.
      replace (k + 0) with k by lia. replace (t + 2 * 0) with t by lia.
      exact Hcontent.
    + cbn in Hj. rewrite (IH _ _ _ _ Hrest Hj). cbn [firstn].
      rewrite <- app_assoc. cbn [app].
      replace (S k + j) with (k + S j) by lia.
      replace (2 + t + 2 * j) with (t + 2 * S j) by lia. reflexivity.
Qed.

(** *** The whole flow *)

(** With both agents present the flow returns the opening question of the
    curious agent followed by the ten messages of five rounds. *)
Lemma conversation_flow_run (env : Env) (agents : list PodcastAgent.t)
    (context : string) (query : option string) (w : World)
    (explainer curious : PodcastAgent.t) :
  first_with_role "explainer" agents = Some explainer ->
  first_with_role "curious" agents = Some curious ->
  exists w' new,
    _generate_conversation_flow env agents context query w
    = (w', Return
             ({| PodcastMessage.agent_id := PodcastAgent.id curious;
                 PodcastMessage.content :=
                   "What can you tell me about "
                   +:+ or_default query "this PDF content" +:+ "?";
                 PodcastMessage.timestamp := now env (tick w);
                 PodcastMessage.is_user_message := false |} :: new)) /\
    length new = 10 /\
    generated env explainer curious context (S (tick w)) 0
      [{| PodcastMessage.agent_id := PodcastAgent.id curious;
          PodcastMessage.content :=
            "What can you tell me about "
            +:+ or_default query "this PDF content" +:+ "?";
          PodcastMessage.timestamp := now env (tick w);
          PodcastMessage.is_user_message := false |}]
      new.
Proof.
  intros He Hc. unfold _generate_conversation_flow. rewrite He, Hc.
  unfold bind at 1, ask. cbv beta iota. cbn [app].
  set (opening := {| PodcastMessage.agent_id := PodcastAgent.id curious;
                     PodcastMessage.content := _;
                     PodcastMessage.timestamp := _;
                     PodcastMessage.is_user_message := _ |}).
  unfold bind at 1. unfold for_range.
  destruct (rounds_run env explainer curious context 5 0 0
              [opening] [opening] (advance w) eq_refl)
    as (w' & new & -> & Hlen & Hgen).
  exists w', new. unfold ret. cbn [fst]. repeat split; assumption.
Qed.

(** C3. With an explainer and a curious agent among the agents, the flow
    (five rounds) returns exactly 11 messages, and their agent ids
    alternate between the curious agent and the explainer, starting with
    the curious agent. *)
Theorem conversation_flow_alternates (env : Env)
    (agents : list PodcastAgent.t) (context : string) (query : option string)
    (w : World) (explainer curious : PodcastAgent.t) :
  first_with_role "explainer" agents = Some explainer ->
  first_with_role "curious" agents = Some curious ->
  exists w' messages,
    _generate_conversation_flow env agents context query w
    = (w', Return messages) /\
    length messages = 11 /\
    map PodcastMessage.agent_id messages
    = let c := PodcastAgent.id curious in
      let e := PodcastAgent.id explainer in
      [c; e; c; e; c; e; c; e; c; e; c].
Proof.
  intros He Hc.
  destruct (conversation_flow_run env agents context query w explainer curious
              He Hc) as (w' & new & Hrun & Hlen & Hgen).
  eexists w', _. split; [exact Hrun|]. split; [cbn; now rewrite Hlen|].
  cbn [map PodcastMessage.agent_id]. f_equal.
  rewrite (generated_ids _ _ _ _ _ _ _ _ Hgen), Hlen. reflexivity.
Qed.

Lemma conversation_flow_alternates_witness :
  exists w' messages,
    _generate_conversation_flow env_up [alex; jamie] "Some context"
      (Some "black holes") w0
    = (w', Return messages) /\
    length messages = 11 /\
    map PodcastMessage.agent_id messages
    = ["2"; "1"; "2"; "1"; "2"; "1"; "2"; "1"; "2"; "1"; "2"].
Proof.
  apply (conversation_flow_alternates env_up [alex; jamie] "Some context"
           (Some "black holes") w0 alex jamie); reflexivity.
Defined.

(** C5. Each of the ten turns after the opening question asks the model
    once, with the prompt built from the messages before it. When that
    call fails with an error [e], the message of the turn is the apology
    followed by the text of [e]; when it succeeds, it is the stripped
    answer. Either way the next turns take place: the flow returns all 11
    messages. *)
Theorem failed_turn_becomes_apology (env : Env)
    (agents : list PodcastAgent.t) (context : string) (query : option string)
    (w : World) (explainer curious : PodcastAgent.t) :
  first_with_role "explainer" agents = Some explainer ->
  first_with_role "curious" agents = Some curious ->
  exists w' messages,
    _generate_conversation_flow env agents context query w
    = (w', Return messages) /\
    length messages = 11 /\
    forall k, k < 10 ->
      exists m,
        messages !! S k = Some m /\
        match generate_content env (tick w + 1 + 2 * k)
                (agent_prompt (speaker explainer curious k) context
                   (history_text (firstn (S k) messages))) with
        | Raise e =>
            PodcastMessage.content m
            = "Sorry, I encountered an error generating a response. "
              +:+ str_exn e
        | Return text => PodcastMessage.content m = strip text
        end.
Proof.
  intros He Hc.
  destruct (conversation_flow_run env agents context query w explainer curious
              He Hc) as (w' & new & Hrun & Hlen & Hgen).
  eexists w', _. split; [exact Hrun|]. split; [cbn; now rewrite Hlen|].
  intros k Hk.
  destruct (new !! k) as [m|] eqn:Hm.
  2:{ apply lookup_ge_None in Hm. lia. }
  exists m. split; [exact Hm|].
  pose proof (generated_lookup _ _ _ _ _ _ _ _ _ _ Hgen Hm) as Hcontent.
  cbn [firstn]. unfold reply in Hcontent. cbn [app] in Hcontent.
  change (0 + k) with k in Hcontent.
  replace (tick w + 1 + 2 * k) with (S (tick w) + 2 * k) by lia.
  destruct (generate_content env (S (tick w) + 2 * k) _); exact Hcontent.
Qed.

Lemma failed_turn_becomes_apology_witness :
  exists w' messages,
    _generate_conversation_flow env_model_down [alex; jamie] "Some context"
      None w0
    = (w', Return messages) /\
    length messages = 11 /\
    forall k, k < 10 ->
      exists m,
        messages !! S k = Some m /\
        match generate_content env_model_down (tick w0 + 1 + 2 * k)
                (agent_prompt (speaker alex jamie k) "Some context"
                   (history_text (firstn (S k) messages))) with
        | Raise e =>
            PodcastMessage.content m
            = "Sorry, I encountered an error generating a response. "
              +:+ str_exn e
        | Return text => PodcastMessage.content m = strip text
        end.
Proof.
  apply (failed_turn_becomes_apology env_model_down [alex; jamie]
           "Some context" None w0 alex jamie); reflexivity.
Defined.

Example all_turns_failed :
  map PodcastMessage.content
    (match snd (_generate_conversation_flow env_model_down [alex; jamie]
                  "Some context" None w0) with
     | Return messages => messages
     | Raise _ => []
     end)
  = "What can you tell me about this PDF content?"
    :: repeat "Sorry, I encountered an error generating a response. 429 quota exceeded" 10.
Proof. vm_compute. reflexivity. Qed.

(** *** Missing agents *)

Lemma first_with_role_none (role : string) (agents : list PodcastAgent.t) :
  Forall (fun a => PodcastAgent.role a <> role) agents ->
  first_with_role role agents = None.
Proof.
  induction 1 as [|a agents Ha Hall IH]; [reflexivity|].
  unfold first_with_role. cbn [List.find].
  apply String.eqb_neq in Ha. rewrite Ha. exact IH.
Qed.

Lemma conversation_flow_raises (env : Env) (agents : list PodcastAgent.t)
    (context : string) (query : option string) (w : World) :
  first_with_role "curious" agents = None \/
  first_with_role "explainer" agents = None ->
  _generate_conversation_flow env agents context query w
  = (w, Raise (ValueError "Explainer and curious agents must be present")).
Proof.
  unfold _generate_conversation_flow. intros [-> | ->].
  - now destruct (first_with_role "explainer" agents).
  - reflexivity.
Qed.

(** *** Building the agents *)

Lemma make_agent_run (env : Env) (agent_config : gmap string string)
    (w : World) :
  exists r,
    make_agent env agent_config w = (advance w, r) /\
    match r with
    | Return agent => agent_config !! "role" = Some (PodcastAgent.role agent)
    | Raise _ => ~ well_formed agent_config
    end.
Proof.
  unfold make_agent, bind, ask, getitem, well_formed. cbv beta iota.
  destruct (agent_config !! "name") as [name|]; unfold ret, raise.
  2:{ eexists. split; [reflexivity|]. intros [[? ?] _]. discriminate. }
  destruct (agent_config !! "role") as [role|].
  2:{ eexists. split; [reflexivity|]. intros (_ & [? ?] & _). discriminate. }
  destruct (agent_config !! "personality") as [personality|].
  2:{ eexists. split; [reflexivity|]. intros (_ & _ & [? ?]). discriminate. }
  eexists. split; reflexivity.
Qed.

Lemma build_agents_run (env : Env) (agent_configs : list (gmap string string))
    (acc : list PodcastAgent.t) (w : World) :
  exists w' r,
    for_each agent_configs
      (fun agent_config agents =>
         agent <- make_agent env agent_config ;; ret (agents ++ [agent]))
      acc w
    = (w', r) /\
    match r with
    | Return agents =>
        exists new,
          agents = acc ++ new /\
          Forall2 (fun agent_config agent =>
                     agent_config !! "role" = Some (PodcastAgent.role agent))
                  agent_configs new
    | Raise _ => Exists (fun agent_config => ~ well_formed agent_config)
                   agent_configs
    end.
Proof.
  revert acc w. induction agent_configs as [|cfg cfgs IH]; intros acc w.
  - exists w, (Return acc). split; [reflexivity|]. exists [].
    rewrite app_nil_r. split; [reflexivity | constructor].
  - cbn [for_each]. unfold bind at 1. unfold bind at 1.
    destruct (make_agent_run env cfg w) as ([agent|e] & -> & Hr).
    + unfold ret at 1.
      destruct (IH (acc ++ [agent]) (advance w)) as (w' & r & -> & Hrest).
      exists w', r. split; [reflexivity|]. destruct r as [agents|e].
      * destruct Hrest as (new & -> & Hall). exists (agent :: new).
        rewrite <- app_assoc. split; [reflexivity | now constructor].
      * now right.
    + exists (advance w), (Raise e). split; [reflexivity | now left].
Qed.

Lemma roles_missing (role : string) (agent_configs : list (gmap string string))
    (agents : list PodcastAgent.t) :
  Forall2 (fun agent_config agent =>
             agent_config !! "role" = Some (PodcastAgent.role agent))
          agent_configs agents ->
  ~ has_role role agent_configs ->
  first_with_role role agents = None.
Proof.
  intros Hall Hno. apply first_with_role_none.
  induction Hall as [|cfg a cfgs agents Ha Hall IH]; constructor.
  - intros Heq. apply Hno. left. now rewrite Ha, Heq.
  - apply IH. intros H. apply Hno. now right.
Qed.

Lemma roles_found (role : string) (agent_configs : list (gmap string string))
    (agents : list PodcastAgent.t) :
  Forall2 (fun agent_config agent =>
             agent_config !! "role" = Some (PodcastAgent.role agent))
          agent_configs agents ->
  has_role role agent_configs ->
  exists a, first_with_role role agents = Some a.
Proof.
  intros Hall Hhas. unfold first_with_role.
  induction Hall as [|cfg a cfgs agents Ha Hall IH]; [inversion Hhas|].
  cbn [List.find]. destruct (String.eqb_spec (PodcastAgent.role a) role).
  - now exists a.
  - apply IH. apply Exists_cons in Hhas as [Hcfg | Hrest]; [|exact Hrest].
    rewrite Ha in Hcfg. congruence.
Qed.

(** [_get_conversation_context] always returns a string. *)
Lemma conversation_context_returns (env : Env) (pdf_id : string)
    (query : option string) (w : World) :
  exists w' context,
    _get_conversation_context env pdf_id query w = (w', Return context).
Proof.
  unfold _get_conversation_context, try_except.
  match goal with |- context [match ?body w with _ => _ end] =>
    destruct (body w) as [w' [context|e]] end; unfold ret; eauto.
Qed.

(** C4. Without an agent with the curious role, or without one with the
    explainer role, the flow raises the error for the missing agents at
    once: the world is untouched, so no model was asked and no message
    was produced. [generate_podcast_conversation] then raises as well and
    returns no conversation; with well-formed configurations its error
    carries the message of the missing agents. *)
Theorem missing_agent_raises (env : Env) (w : World) :
  (forall agents context query,
     Forall (fun a => PodcastAgent.role a <> "curious") agents \/
     Forall (fun a => PodcastAgent.role a <> "explainer") agents ->
     _generate_conversation_flow env agents context query w
     = (w, Raise (ValueError "Explainer and curious agents must be present")))
  /\
  (forall request,
     ~ has_role "curious" (GeminiGenerationRequest.agent_configs request) \/
     ~ has_role "explainer" (GeminiGenerationRequest.agent_configs request) ->
     exists w' msg,
       generate_podcast_conversation env request w
       = (w', Raise (Exception msg)) /\
       (Forall well_formed (GeminiGenerationRequest.agent_configs request) ->
        msg = "Failed to generate podcast conversation: Explainer and curious agents must be present")).
Proof.
  split.
  - intros agents context query H. apply conversation_flow_raises.
    destruct H as [H | H]; [left | right]; now apply first_with_role_none.
  - intros request Hno.
    unfold generate_podcast_conversation, try_except. unfold bind at 1.
    destruct (build_agents_run env
                (GeminiGenerationRequest.agent_configs request) [] w)
      as (w1 & r & -> & Hr).
    destruct r as [agents|e].
    + destruct Hr as (new & -> & Hall). cbn [app]. unfold bind at 1.
      destruct (conversation_context_returns env
                  (GeminiGenerationRequest.pdf_id request)
                  (GeminiGenerationRequest.query request) w1)
        as (w2 & context & ->).
      unfold bind at 1. rewrite conversation_flow_raises.
      * unfold raise. eexists _, _. split; [reflexivity|]. reflexivity.
      * destruct Hno as [H | H]; [left | right];
          eapply roles_missing; eassumption.
    + unfold raise. eexists _, _. split; [reflexivity|].
      intros Hwf. exfalso. apply Exists_exists in Hr as (cfg & Hin & Hbad).
      rewrite Forall_forall in Hwf. exact (Hbad (Hwf cfg Hin)).
Qed.

Lemma missing_agent_raises_witness :
  _generate_conversation_flow env_up [alex] "Some context" None w0
  = (w0, Raise (ValueError "Explainer and curious agents must be present")) /\
  exists w' msg,
    generate_podcast_conversation env_up request_no_curious w0
    = (w', Raise (Exception msg)) /\
    (Forall well_formed
       (GeminiGenerationRequest.agent_configs request_no_curious) ->
     msg = "Failed to generate podcast conversation: Explainer and curious agents must be present").
Proof.
  split.
  - apply (proj1 (missing_agent_raises env_up w0)). left.
    repeat constructor; discriminate.
  - apply (proj2 (missing_agent_raises env_up w0) request_no_curious). left.
    intros H. apply Exists_exists in H as (cfg & Hin & Hrole).
    apply list_elem_of_In in Hin.
    destruct Hin as [<- | [<- | []]]; vm_compute in Hrole; discriminate.
Defined.

(** *** The context builder *)

(** A search that fails (store out of reach, or no such collection) yields
    the empty list. *)
Lemma search_similar_fails (env : Env) (collection_name : string)
    (query_vector : list float) (limit : Z) (w : World) :
  is_Some (transport env (tick w)) \/ index w !! collection_name = None ->
  QdrantService.search_similar env collection_name query_vector limit None w
  = (advance w, Return []).
Proof.
  intros H. unfold QdrantService.search_similar, try_except, bind.
  unfold QdrantService.query_filter, ret, QdrantClient.search.
  destruct (transport env (tick w)) as [e|]; [reflexivity|].
  destruct H as [[e He] | ->]; [discriminate | reflexivity].
Qed.




(** A failed search does not reach the [except] branch: [search_similar]
    has already turned it into an empty result, and the context is the
    empty string. *)
Lemma conversation_context_search_failed (env : Env) (pdf_id q : string)
    (v : list float) (w : World) :
  q <> "" -> encode env (tick w) q = Return v ->
  is_Some (transport env (S (tick w))) \/
  index w !! QDRANT_COLLECTION env = None ->
  _get_conversation_context env pdf_id (Some q) w
  = (advance (advance w), Return "").
Proof.
  intros Hq Henc Hfail. destruct q as [|c q]; [congruence|].
  unfold _get_conversation_context, try_except.
  unfold bind at 1, ask. rewrite Henc. unfold bind at 1.
  rewrite search_similar_fails by exact Hfail. reflexivity.
Qed.

Example conversation_context_store_down :
  snd (_get_conversation_context env_store_down "doc-42"
         (Some "black holes") w0)
  = Return "".
Proof. vm_compute. reflexivity. Qed.

(** With the sample chunks indexed, the context of a query is their
    contents, separated by a blank line. *)
Example conversation_context_from_index :
  snd (_get_conversation_context env_up "doc-42" (Some "black holes")
         (fst (QdrantService.upsert_vectors env_up "podcast_chunks"
                 sample_chunks w0)))
  = Return ("Another test content" +:+ nl +:+ nl
            +:+ "Sample content for testing").
Proof. vm_compute. reflexivity. Qed.

(** *** The conversation object *)

Lemma bind_returns {A B} (m : M A) (k : A -> M B) (w w' : World) (b : B) :
  bind m k w = (w', Return b) ->
  exists a w1, m w = (w1, Return a) /\ k a w1 = (w', Return b).
Proof.
  unfold bind. destruct (m w) as [w1 [a|e]]; intros H; [eauto | discriminate].
Qed.

(** When the model fails on every call, every generated message is an
    apology. *)
Lemma generated_all_failed (env : Env) (explainer curious : PodcastAgent.t)
    (context : string) (new history : list PodcastMessage.t) (t k : nat) :
  (forall t prompt, exists e, generate_content env t prompt = Raise e) ->
  generated env explainer curious context t k history new ->
  Forall (fun m => exists e,
            PodcastMessage.content m
            = "Sorry, I encountered an error generating a response. "
              +:+ str_exn e) new.
Proof.
  intros Hdown. revert history t k.
  induction new as [|m new IH]; intros history t k H; constructor.
  - destruct H as (_ & Hcontent & _). unfold reply in Hcontent.
    destruct (Hdown t (agent_prompt (speaker explainer curious k) context
                         (history_text history))) as [e He].
    rewrite He in Hcontent. now exists e.
  - destruct H as (_ & _ & Hrest). eapply IH, Hrest.
Qed.

(** C10. A conversation that [generate_podcast_conversation] returns has
    status ["completed"]: it is the only status the function writes, and a
    failure makes it raise instead of returning. In particular, when the
    model fails on every call and the agent configurations are complete
    and include an explainer and a curious agent, the function still
    returns a conversation, with status ["completed"], 11 messages and an
    apology in each message after the first. *)
Theorem conversation_status_completed (env : Env)
    (request : GeminiGenerationRequest.t) (w : World) :
  (forall w' conversation,
     generate_podcast_conversation env request w = (w', Return conversation) ->
     PodcastConversation.status conversation = "completed") /\
  (Forall well_formed (GeminiGenerationRequest.agent_configs request) ->
   has_role "explainer" (GeminiGenerationRequest.agent_configs request) ->
   has_role "curious" (GeminiGenerationRequest.agent_configs request) ->
   (forall t prompt, exists e, generate_content env t prompt = Raise e) ->
   exists w' conversation,
     generate_podcast_conversation env request w = (w', Return conversation) /\
     PodcastConversation.status conversation = "completed" /\
     length (PodcastConversation.messages conversation) = 11 /\
     Forall (fun m => exists e,
               PodcastMessage.content m
               = "Sorry, I encountered an error generating a response. "
                 +:+ str_exn e)
            (tail (PodcastConversation.messages conversation))).
Proof.
  split.
  - intros w' conversation. unfold generate_podcast_conversation, try_except.
    match goal with |- context [match ?body w with _ => _ end] =>
      destruct (body w) as [w1 [c|e]] eqn:Hbody end.
    2:{ unfold raise. discriminate. }
    intros H. injection H as <- <-.
    do 6 (apply bind_returns in Hbody as (? & ? & _ & Hbody);
          cbv beta in Hbody).
    unfold ret in Hbody. injection Hbody as <- <-. reflexivity.
  - intros Hwf Hexp Hcur Hdown.
    unfold generate_podcast_conversation, try_except. unfold bind at 1.
    destruct (build_agents_run env
                (GeminiGenerationRequest.agent_configs request) [] w)
      as (w1 & r & -> & Hr).
    destruct r as [agents|e].
    2:{ exfalso. apply Exists_exists in Hr as (cfg & Hin & Hbad).
        rewrite Forall_forall in Hwf. exact (Hbad (Hwf cfg Hin)). }
    destruct Hr as (new & -> & Hall). cbn [app]. unfold bind at 1.
    destruct (conversation_context_returns env
                (GeminiGenerationRequest.pdf_id request)
                (GeminiGenerationRequest.query request) w1)
      as (w2 & context & ->).
    destruct (roles_found "explainer" _ _ Hall Hexp) as [explainer He].
    destruct (roles_found "curious" _ _ Hall Hcur) as [curious Hc].
    destruct (conversation_flow_run env new context
                (GeminiGenerationRequest.query request) w2 explainer curious
                He Hc) as (w3 & msgs & Hrun & Hlen & Hgen).
    unfold bind at 1. rewrite Hrun. unfold bind, ask, ret.
    eexists _, _. split; [reflexivity|]. cbn [PodcastConversation.status
      PodcastConversation.messages tail length].
    split; [reflexivity|]. split; [now rewrite Hlen|].
    eapply generated_all_failed; eassumption.
Qed.

Lemma conversation_status_completed_witness :
  exists w' conversation,
    generate_podcast_conversation env_model_down request0 w0
    = (w', Return conversation) /\
    PodcastConversation.status conversation = "completed" /\
    length (PodcastConversation.messages conversation) = 11 /\
    Forall (fun m => exists e,
              PodcastMessage.content m
              = "Sorry, I encountered an error generating a response. "
                +:+ str_exn e)
           (tail (PodcastConversation.messages conversation)).
Proof.
  apply (proj2 (conversation_status_completed env_model_down request0 w0)).
  - repeat constructor; eexists; reflexivity.
  - left. reflexivity.
  - right. left. reflexivity.
  - intros t prompt. eexists. reflexivity.
Defined.

End GeminiServiceFacts.

(** * Further properties of the text segmenter *)

Module SegmenterFacts.
Import PyStr PdfService Props Grouping PyStrFacts.

(** *** Blank input *)

Lemma split_from_nil (s word : string) :
  split_from word s = [] <-> word = "" /\ all_blank s = true.
Proof.
  revert word. induction s as [|c s IH]; intros word; cbn [split_from all_blank].
  - destruct word; cbn [flush]; split; intros H; try easy; now destruct H.
  - destruct (isspace c) eqn:Hc; cbn [andb].
    + split.
      * intros H. apply app_eq_nil in H as [Hw Hs].
        apply IH in Hs as [_ Hs]. destruct word; [now split | discriminate].
      * intros [-> Hs]. cbn. apply IH. now split.
    + rewrite IH. split; [|intros [_ H]; discriminate].
      intros [H _]. destruct word; discriminate.
Qed.

Lemma chunk_loop_keeps_current (n : Z) (ws chunks cur : list string) :
  cur <> [] -> snd (fold_left (chunk_step n) ws (chunks, cur)) <> [].
Proof.
  revert chunks cur. induction ws as [|w ws IH]; intros chunks cur Hcur.
  - exact Hcur.
  - cbn [fold_left]. unfold chunk_step at 2.
    destruct (len (join " " (cur ++ [w])) <=? n)%Z; apply IH.
    + now destruct cur.
    + discriminate.
Qed.

(** X1. [chunk_text] returns no chunk exactly when the text has no word, that
    is, when it is empty or made of whitespace only; the limit plays no
    role. *)
Theorem chunk_text_nil_iff_blank (text : string) (chunk_size : Z) :
  chunk_text text chunk_size = [] <-> all_blank text = true.
Proof.
  unfold chunk_text. split.
  - intros H. destruct (split text) as [|w ws] eqn:Hsplit.
    + apply split_from_nil in Hsplit. tauto.
    + exfalso. cbn [fold_left] in H.
      pose proof (chunk_loop_keeps_current chunk_size ws
                    (fst (chunk_step chunk_size ([], []) w))
                    (snd (chunk_step chunk_size ([], []) w))) as Hkeep.
      assert (Hcur : snd (chunk_step chunk_size ([], []) w) <> []).
      { unfold chunk_step. now destruct (_ <=? _)%Z. }
      specialize (Hkeep Hcur).
      rewrite <- surjective_pairing in Hkeep.
      destruct (fold_left _ ws _) as [chunks cur]. cbn [snd] in Hkeep.
      destruct cur; [congruence|]. now destruct chunks.
  - intros H. assert (Hsplit : split text = [])
      by (apply split_from_nil; now split).
    now rewrite Hsplit.
Qed.

(** *** Greedy packing *)

Lemma chunk_loop_groups (n : Z) (ws : list string)
    (gs : list (list string)) (cur : list string) :
  fold_left (chunk_step n) ws (map (join " ") gs, cur)
  = (map (join " ") (fst (fold_left (group_step n) ws (gs, cur))),
     snd (fold_left (group_step n) ws (gs, cur))).
Proof.
  revert gs cur. induction ws as [|w ws IH]; intros gs cur; [reflexivity|].
  cbn [fold_left]. unfold chunk_step at 2, group_step at 2 4.
  destruct (len (join " " (cur ++ [w])) <=? n)%Z; [apply IH|].
  rewrite <- IH. now rewrite map_app.
Qed.

Lemma tight_extend (n : Z) (gs : list (list string)) (cur : list string)
    (w : string) :
  tight n (gs ++ [cur]) -> gs = [] \/ cur <> [] ->
  tight n (gs ++ [cur ++ [w]]).
Proof.
  induction gs as [|g gs IH]; intros Ht Hcur; [exact I|].
  destruct Hcur as [Hnil | Hcur]; [discriminate|].
  destruct gs as [|g' gs].
  - cbn in *. destruct Ht as [(w0 & more & -> & Hlen) _].
    split; [|exact I]. now exists w0, (more ++ [w]).
  - cbn [app tight] in *. destruct Ht as [Hpair Ht].
    split; [exact Hpair|]. apply IH; [exact Ht | now right].
Qed.

Lemma tight_seal (n : Z) (gs : list (list string)) (cur : list string)
    (w : string) :
  tight n (gs ++ [cur]) -> (n < len (join " " (cur ++ [w])))%Z ->
  tight n ((gs ++ [cur]) ++ [[w]]).
Proof.
  induction gs as [|g gs IH]; intros Ht Hlen.
  - cbn. split; [|exact I]. now exists w, [].
  - destruct gs as [|g' gs].
    + cbn in *. destruct Ht as [Hpair _]. split; [exact Hpair|].
      split; [|exact I]. now exists w, [].
    + cbn [app tight] in *. destruct Ht as [Hpair Ht].
      split; [exact Hpair|]. now apply IH.
Qed.

(** The grouping loop keeps the words in order and keeps the groups
    tight. *)
Lemma group_loop_inv (n : Z) (ws seen : list string)
    (gs : list (list string)) (cur : list string) :
  concat gs ++ cur = seen -> tight n (gs ++ [cur]) -> gs = [] \/ cur <> [] ->
  concat (fst (fold_left (group_step n) ws (gs, cur)))
    ++ snd (fold_left (group_step n) ws (gs, cur)) = seen ++ ws /\
  tight n (fst (fold_left (group_step n) ws (gs, cur))
           ++ [snd (fold_left (group_step n) ws (gs, cur))]) /\
  (cur <> [] \/ ws <> [] ->
   snd (fold_left (group_step n) ws (gs, cur)) <> []).
Proof.
  revert seen gs cur.
  induction ws as [|w ws IH]; intros seen gs cur Hseen Ht Hcur.
  - rewrite app_nil_r. split; [exact Hseen|]. split; [exact Ht|].
    intros [H | H]; [exact H | congruence].
  - cbn [fold_left].
    assert (Hstep : group_step n (gs, cur) w
                    = if (len (join " " (cur ++ [w])) <=? n)%Z
                      then (gs, cur ++ [w]) else (gs ++ [cur], [w]))
      by reflexivity.
    rewrite Hstep. clear Hstep.
    replace (seen ++ w :: ws) with ((seen ++ [w]) ++ ws)
      by now rewrite <- app_assoc.
    destruct (len (join " " (cur ++ [w])) <=? n)%Z eqn:Hfit.
    + destruct (IH (seen ++ [w]) gs (cur ++ [w])) as (H1 & H2 & H3).
      * now rewrite app_assoc, Hseen.
      * now apply tight_extend.
      * right. now destruct cur.
      * split; [exact H1|]. split; [exact H2|]. intros _.
        apply H3. left. now destruct cur.
    + destruct (IH (seen ++ [w]) (gs ++ [cur]) [w]) as (H1 & H2 & H3).
      * rewrite concat_app. cbn [concat]. rewrite app_nil_r.
        now rewrite Hseen.
      * apply tight_seal; [exact Ht|]. apply Z.leb_gt in Hfit. lia.
      * right. discriminate.
      * split; [exact H1|]. split; [exact H2|]. intros _.
        apply H3. left. discriminate.
Qed.

Lemma tight_lookup (n : Z) (groups : list (list string)) (i : nat)
    (g next : list string) :
  tight n groups -> groups !! i = Some g -> groups !! S i = Some next ->
  exists w more, next = w :: more /\ (n < len (join " " (g ++ [w])))%Z.
Proof.
  revert i. induction groups as [|g0 groups IH]; intros i Ht Hi Hnext.
  - discriminate.
  - destruct groups as [|g1 groups]; [discriminate|].
    destruct Ht as [Hpair Ht]. destruct i as [|i].
    + cbn in Hi, Hnext. injection Hi as <-. injection Hnext as <-.
      exact Hpair.
    + apply (IH i); assumption.
Qed.

(** The chunks of a text are the joined groups of a tight grouping of its
    words. *)
Lemma chunk_text_groups (text : string) (n : Z) :
  exists groups,
    chunk_text text n = map (join " ") groups /\
    concat groups = split text /\ tight n groups.
Proof.
  unfold chunk_text.
  destruct (split text) as [|w ws] eqn:Hsplit.
  { exists []. now repeat split. }
  pose proof (chunk_loop_groups n (w :: ws) [] []) as Hloop.
  cbn [map] in Hloop. rewrite Hloop.
  destruct (group_loop_inv n (w :: ws) [] [] [])
    as (Hwords & Htight & Hcur); [reflexivity | exact I | now left |].
  destruct (fold_left (group_step n) (w :: ws) ([], [])) as [gs cur].
  cbn [fst snd app] in *. destruct cur as [|c cur].
  { exfalso. apply Hcur; [right; discriminate | reflexivity]. }
  exists (gs ++ [c :: cur]). rewrite map_app. cbn [map].
  split; [reflexivity|]. split; [|exact Htight].
  rewrite concat_app. cbn [concat]. now rewrite app_nil_r.
Qed.

(** X2. The packing is greedy: the first word of every chunk after the first
    did not fit at the end of the chunk before it. *)
Theorem chunk_text_greedy (text : string) (chunk_size : Z) (i : nat)
    (a b : string) :
  chunk_text text chunk_size !! i = Some a ->
  chunk_text text chunk_size !! S i = Some b ->
  exists w more,
    split b = w :: more /\
    (chunk_size < len (join " " (split a ++ [w])))%Z.
Proof.
  intros Ha Hb.
  destruct (chunk_text_groups text chunk_size)
    as (groups & Hchunks & Hwords & Htight).
  rewrite Hchunks in Ha, Hb. rewrite list_lookup_fmap in Ha, Hb.
  destruct (groups !! i) as [g|] eqn:Hg; [|discriminate].
  destruct (groups !! S i) as [next|] eqn:Hnext; [|discriminate].
  cbn in Ha, Hb. injection Ha as <-. injection Hb as <-.
  destruct (tight_lookup _ _ _ _ _ Htight Hg Hnext) as (w & more & -> & Hlen).
  assert (Hall : Forall (fun w => is_word w = true) (concat groups))
    by (rewrite Hwords; apply split_words).
  assert (Hgroup : forall j g', groups !! j = Some g' ->
                     split (join " " g') = g').
  { intros j g' Hj. apply split_join_words.
    apply Forall_forall. intros x Hx.
    rewrite Forall_forall in Hall. apply Hall.
    apply list_elem_of_In, in_concat. exists g'.
    split; apply list_elem_of_In; [|exact Hx].
    apply list_elem_of_lookup. now exists j. }
  exists w, more. rewrite (Hgroup _ _ Hg), (Hgroup _ _ Hnext).
  split; [reflexivity | exact Hlen].
Qed.

Lemma chunk_text_greedy_witness :
  exists w more,
    split "c d" = w :: more /\
    (3 < len (join " " (split "a b" ++ [w])))%Z.
Proof.
  apply (chunk_text_greedy "a b c d e" 3 0 "a b" "c d"); reflexivity.
Defined.

End SegmenterFacts.

(** * Further properties of the vector index wrapper *)

Module IndexFacts.
Import Effects Loops QdrantService Props Stored Scenario.

(** *** What an upsert leaves alone *)

(** The loop that builds the points returns them in full. *)
Lemma build_points_exact (env : Env) (chunks : list PDFChunk.t)
    (acc : list PointStruct) (w : World) :
  exists w' r,
    for_each chunks
      (fun chunk points =>
         point <- make_point env chunk ;; ret (points ++ [point])) acc w
    = (w', r) /\
    index w' = index w /\
    match r with
    | Raise _ => True
    | Return pts =>
        exists new,
          pts = acc ++ new /\
          tick w' = tick w + length chunks /\
          length new = length chunks /\
          forall i chunk,
            chunks !! i = Some chunk ->
            exists v,
              PDFChunk.embedding chunk = Some v /\
              new !! i = Some {| point_id := uuid4 env (tick w + i);
                                 vector := v;
                                 payload := payload_of chunk |}
    end.
Proof.
  revert acc w. induction chunks as [|chunk chunks IH]; intros acc w.
  - exists w, (Return acc). repeat split. exists [].
    rewrite app_nil_r. cbn. repeat split; [lia | intros i c H; discriminate].
  - cbn [for_each]. unfold bind at 1. unfold bind at 1.
    unfold make_point at 1. unfold bind at 1, ask. cbv beta iota.
    destruct (PDFChunk.embedding chunk) as [v|] eqn:Hv.
    + unfold ret at 1 2.
      set (p := {| point_id := uuid4 env (tick w); vector := v;
                   payload := _ |}).
      destruct (IH (acc ++ [p]) (advance w)) as (w' & r & Hrun & Hidx & Hr).
      exists w', r. rewrite Hrun. repeat split; [exact Hidx|].
      destruct r as [pts|e]; [|exact I].
      destruct Hr as (new & -> & Htick & Hlen & Hall).
      exists (p :: new). rewrite <- app_assoc.
      cbn [tick advance] in Htick. cbn [length app].
      repeat split; [lia | lia |].
      intros i c Hc. destruct i as [|i].
      * injection Hc as <-. exists v. split; [exact Hv|].
        subst p. now rewrite Nat.add_0_r.
      * destruct (Hall i c Hc) as (v' & Hv' & Hnew). exists v'.
        split; [exact Hv'|]. cbn [tick advance] in Hnew.
        change ((p :: new) !! S i) with (new !! i). rewrite Hnew.
        replace (S (tick w) + i) with (tick w + S i) by lia. reflexivity.
    + exists (advance w), (Raise (ValidationError "vector")).
      repeat split.
Qed.

Lemma advance_iter (n : nat) (w : World) :
  tick (Nat.iter n advance w) = n + tick w /\
  index (Nat.iter n advance w) = index w.
Proof.
  induction n as [|n [IHt IHi]]; [now split|].
  rewrite Nat.iter_succ. cbn [advance tick index]. split; [lia | exact IHi].
Qed.

(** The loop that builds the points stops at the first chunk without
    embedding, one id having been drawn for each chunk up to it. *)
Lemma build_points_stops (env : Env) (chunks : list PDFChunk.t)
    (acc : list PointStruct) (w : World) :
  Exists (fun chunk => PDFChunk.embedding chunk = None) chunks ->
  exists i chunk e,
    chunks !! i = Some chunk /\
    PDFChunk.embedding chunk = None /\
    (forall j earlier,
       j < i -> chunks !! j = Some earlier ->
       is_Some (PDFChunk.embedding earlier)) /\
    for_each chunks
      (fun chunk points =>
         point <- make_point env chunk ;; ret (points ++ [point])) acc w
    = (Nat.iter (S i) advance w, Raise e).
Proof.
  intros Hex. revert acc w.
  induction chunks as [|chunk chunks IH]; intros acc w; [inversion Hex|].
  cbn [for_each]. unfold bind at 1. unfold bind at 1.
  rewrite QdrantServiceFacts.make_point_run.
  destruct (PDFChunk.embedding chunk) as [v|] eqn:Hv.
  - apply Exists_cons in Hex as [Hex|Hex]; [congruence|].
    unfold ret at 1.
    match goal with |- context [for_each chunks _ ?a (advance w)] =>
      destruct (IH Hex a (advance w))
        as (i & bad & e & Hi & Hbad & Hbefore & Hrun)
    end.
    exists (S i), bad, e. rewrite Hrun.
    split; [exact Hi|]. split; [exact Hbad|]. split.
    + intros j earlier Hj Hlook. destruct j as [|j].
      * injection Hlook as <-. rewrite Hv. eauto.
      * apply (Hbefore j); [lia | exact Hlook].
    + now rewrite <- !Nat.iter_succ_r.
  - exists 0, chunk, (ValidationError "vector").
    split; [reflexivity|]. split; [exact Hv|]. split; [intros; lia|].
    reflexivity.
Qed.

(** X4. [upsert_vectors] builds every point before it calls the store, so a
    chunk without embedding anywhere in the batch makes it return [False]
    with nothing sent, not even the chunks before it: ids are drawn up to
    that chunk, the store is not contacted, and the index is as it was,
    whatever the store would have done. *)
Theorem upsert_vectors_unembedded (env : Env) (w : World)
    (collection_name : string) (chunks : list PDFChunk.t) :
  Exists (fun chunk => PDFChunk.embedding chunk = None) chunks ->
  exists w' i chunk,
    upsert_vectors env collection_name chunks w = (w', Return false) /\
    index w' = index w /\
    tick w' = tick w + S i /\
    chunks !! i = Some chunk /\
    PDFChunk.embedding chunk = None /\
    forall j earlier,
      j < i -> chunks !! j = Some earlier ->
      is_Some (PDFChunk.embedding earlier).
Proof.
  intros Hex.
  destruct (build_points_stops env chunks [] w Hex)
    as (i & chunk & e & Hi & Hbad & Hbefore & Hrun).
  exists (Nat.iter (S i) advance w), i, chunk.
  unfold upsert_vectors, try_except. unfold bind at 1. rewrite Hrun.
  unfold ret. split; [reflexivity|].
  destruct (advance_iter (S i) w) as [Ht Hidx].
  split; [exact Hidx|]. split; [lia|]. auto.
Qed.

Lemma upsert_vectors_unembedded_witness :
  exists w' i chunk,
    upsert_vectors env_up "podcast_chunks"
      (sample_chunks ++ [unembedded_chunk; short_chunk]) w0
    = (w', Return false) /\
    index w' = index w0 /\
    tick w' = tick w0 + S i /\
    (sample_chunks ++ [unembedded_chunk; short_chunk]) !! i = Some chunk /\
    PDFChunk.embedding chunk = None /\
    forall j earlier,
      j < i ->
      (sample_chunks ++ [unembedded_chunk; short_chunk]) !! j = Some earlier ->
      is_Some (PDFChunk.embedding earlier).
Proof.
  apply (upsert_vectors_unembedded env_up w0 "podcast_chunks"
           (sample_chunks ++ [unembedded_chunk; short_chunk])).
  apply Exists_app. right. left. reflexivity.
Defined.

(** A store that writes what fits before it refuses a batch: the call
    returns [False], and the index has changed. *)
Example upsert_vectors_failed_may_write :
  snd (upsert_vectors env_eager "podcast_chunks"
         (sample_chunks ++ [short_chunk]) w0) = Return false /\
  point_count (fst (upsert_vectors env_eager "podcast_chunks"
                      (sample_chunks ++ [short_chunk]) w0))
    "podcast_chunks" = Some 2 /\
  point_count w0 "podcast_chunks" = Some 0.
Proof. repeat split; vm_compute; reflexivity. Qed.

(** *** Reading back what was written *)

Lemma write_other (keep : list float -> list float)
    (ps : list PointStruct) (pts : gmap string PointStruct) (k : string) :
  ~ In k (map point_id ps) ->
  fold_left (QdrantClient.put keep) ps pts !! k = pts !! k.
Proof.
  revert pts. induction ps as [|p ps IH]; intros pts Hk; [reflexivity|].
  cbn [fold_left]. rewrite IH.
  - unfold QdrantClient.put. apply lookup_insert_ne.
    intros Heq. apply Hk. now left.
  - intros Hin. apply Hk. now right.
Qed.

Lemma write_read (keep : list float -> list float)
    (ps : list PointStruct) (pts : gmap string PointStruct)
    (i : nat) (p : PointStruct) :
  NoDup (map point_id ps) -> ps !! i = Some p ->
  fold_left (QdrantClient.put keep) ps pts !! point_id p
  = Some (QdrantClient.stored keep p).
Proof.
  revert pts i. induction ps as [|q ps IH]; intros pts i Hnd Hi.
  - discriminate.
  - apply NoDup_cons in Hnd as [Hq Hnd]. cbn [fold_left].
    destruct i as [|i].
    + injection Hi as <-. rewrite write_other.
      * unfold QdrantClient.put. apply lookup_insert_eq.
      * intros Hin. apply Hq. now apply list_elem_of_In.
    + now apply (IH _ i).
Qed.

(** X5. After an upsert that returned [True], and with an id generator that
    never repeats itself, every chunk can be read back from the
    collection: under the id drawn for it there is a point whose payload
    has the chunk's content and page number, and the source and the chunk
    index of its metadata (the empty string and 0 where the metadata has
    none). *)
Theorem upsert_vectors_stores (env : Env) (w w' : World)
    (collection_name : string) (chunks : list PDFChunk.t) :
  (forall i j, uuid4 env i = uuid4 env j -> i = j) ->
  upsert_vectors env collection_name chunks w = (w', Return true) ->
  exists c',
    index w' !! collection_name = Some c' /\
    forall i chunk,
      chunks !! i = Some chunk ->
      exists p,
        points c' !! uuid4 env (tick w + i) = Some p /\
        payload p !! "content" = Some (VStr (PDFChunk.content chunk)) /\
        payload p !! "page_number"
          = Some (VInt (PDFChunk.page_number chunk)) /\
        payload p !! "source"
          = Some (get (PDFChunk.metadata chunk) "source" (VStr "")) /\
        payload p !! "chunk_index"
          = Some (get (PDFChunk.metadata chunk) "chunk_index" (VInt 0)).
Proof.
  intros Hinj. unfold upsert_vectors, try_except. unfold bind at 1.
  destruct (build_points_exact env chunks [] w) as (w1 & r & -> & Hidx & Hr).
  destruct r as [pts|e]; [|unfold ret; discriminate].
  destruct Hr as (new & -> & Htick & Hlen & Hall). cbn [app].
  unfold bind, QdrantClient.upsert. cbv zeta.
  destruct (transport env (tick w1)); [unfold ret; discriminate|].
  rewrite Hidx.
  destruct (index w !! collection_name) as [c|] eqn:Hc;
    [|unfold ret; discriminate].
  destruct (forallb (QdrantClient.fits c) new); [|unfold ret; discriminate].
  unfold ret. intros H. injection H as <-.
  exists (QdrantClient.write (kept_vector env collection_name) c new).
  cbn [index].
  split; [apply lookup_insert_eq|].
  intros i chunk Hi. destruct (Hall i chunk Hi) as (v & Hv & Hnew).
  set (p := {| point_id := uuid4 env (tick w + i); vector := v;
               payload := payload_of chunk |}) in Hnew.
  exists (QdrantClient.stored (kept_vector env collection_name) p).
  split; [|repeat split].
  cbn [QdrantClient.write points].
  change (uuid4 env (tick w + i)) with (point_id p).
  apply (write_read _ new (points c) i p); [|exact Hnew].
  assert (Hids : map point_id new
                 = map (uuid4 env) (seq (tick w) (length chunks))).
  { apply list_eq. intros j. rewrite !list_lookup_fmap.
    destruct (chunks !! j) as [cj|] eqn:Hj.
    - destruct (Hall j cj Hj) as (vj & _ & ->).
      rewrite lookup_seq_lt by (apply lookup_lt_Some in Hj; lia).
      reflexivity.
    - apply lookup_ge_None in Hj.
      rewrite (lookup_ge_None_2 new) by lia.
      rewrite lookup_seq_ge by lia. reflexivity. }
  rewrite Hids. apply NoDup_fmap_2; [exact Hinj | apply NoDup_seq].
Qed.

Lemma upsert_vectors_stores_witness :
  exists c',
    index (fst (upsert_vectors env_up "podcast_chunks" sample_chunks w0))
      !! "podcast_chunks" = Some c' /\
    forall i chunk,
      sample_chunks !! i = Some chunk ->
      exists p,
        points c' !! uuid4 env_up (tick w0 + i) = Some p /\
        payload p !! "content" = Some (VStr (PDFChunk.content chunk)) /\
        payload p !! "page_number"
          = Some (VInt (PDFChunk.page_number chunk)) /\
        payload p !! "source"
          = Some (get (PDFChunk.metadata chunk) "source" (VStr "")) /\
        payload p !! "chunk_index"
          = Some (get (PDFChunk.metadata chunk) "chunk_index" (VInt 0)).
Proof.
  apply (upsert_vectors_stores env_up w0).
  - intros i j H. unfold env_up, uuid4, uuid_of in H.
    apply (inj (String.app "00000000-0000-4000-8000-")) in H.
    now apply (inj pretty) in H.
  - reflexivity.
Defined.

(** *** What a search returns *)

Lemma results_of_bare (hits : list ScoredPoint)
    (acc : list VectorSearchResult.t) (w : World) :
  Forall bare hits ->
  for_each hits
    (fun result results =>
       v <- vector_tolist (sp_vector result) ;;
       ret (results ++
              [{| VectorSearchResult.id := sp_id result;
                  VectorSearchResult.score := sp_score result;
                  VectorSearchResult.payload := sp_payload result;
                  VectorSearchResult.vector := v |}])) acc w
  = (w, Return (acc ++ map result_of hits)).
Proof.
  intros Hall. revert acc.
  induction Hall as [|hit hits Hhit Hall IH]; intros acc.
  - cbn. now rewrite app_nil_r.
  - cbn [for_each map]. unfold bind at 1. unfold bind at 1.
    assert (Hv : vector_tolist (sp_vector hit) w = (w, Return None)).
    { destruct Hhit as [-> | ->]; reflexivity. }
    rewrite Hv. unfold ret at 1. rewrite IH, <- app_assoc. reflexivity.
Qed.

Lemma results_of_loaded (hits : list ScoredPoint)
    (acc : list VectorSearchResult.t) (w : World) :
  Exists loaded hits ->
  exists e,
    for_each hits
      (fun result results =>
         v <- vector_tolist (sp_vector result) ;;
         ret (results ++
                [{| VectorSearchResult.id := sp_id result;
                    VectorSearchResult.score := sp_score result;
                    VectorSearchResult.payload := sp_payload result;
                    VectorSearchResult.vector := v |}])) acc w
    = (w, Raise e).
Proof.
  intros Hex. revert acc.
  induction hits as [|hit hits IH]; intros acc; [inversion Hex|].
  cbn [for_each]. unfold bind at 1. unfold bind at 1.
  destruct (sp_vector hit) as [[|x v]|] eqn:Hv.
  - unfold vector_tolist, ret at 1 2. apply IH.
    apply Exists_cons in Hex as [(x & v & H) | H]; [congruence | exact H].
  - unfold vector_tolist, raise. eauto.
  - unfold vector_tolist, ret at 1 2. apply IH.
    apply Exists_cons in Hex as [(x & v & H) | H]; [congruence | exact H].
Qed.

(** X6. On a reachable store and an existing collection, a search without
    filter returns one result per hit, in the order of the hits and with
    their ids, scores and payloads, as long as no hit carries a vector.
    A single hit that carries a vector makes the whole search return the
    empty list. *)
Theorem search_similar_hits (env : Env) (w : World)
    (collection_name : string) (c : Collection)
    (query_vector : list float) (limit : Z) :
  transport env (tick w) = None ->
  index w !! collection_name = Some c ->
  (Forall bare (nearest env c query_vector limit None) ->
   search_similar env collection_name query_vector limit None w
   = (advance w,
      Return (map result_of (nearest env c query_vector limit None)))) /\
  (Exists loaded (nearest env c query_vector limit None) ->
   search_similar env collection_name query_vector limit None w
   = (advance w, Return [])).
Proof.
  intros Hup Hc. split; intros Hhits.
  - pose proof (results_of_bare _ [] (advance w) Hhits) as Hrun.
    unfold search_similar, try_except, query_filter, QdrantClient.search.
    unfold bind, ret in *. rewrite Hup, Hc, Hrun. reflexivity.
  - destruct (results_of_loaded _ [] (advance w) Hhits) as [e Hrun].
    unfold search_similar, try_except, query_filter, QdrantClient.search.
    unfold bind, ret in *. rewrite Hup, Hc, Hrun. reflexivity.
Qed.

Lemma search_similar_hits_witness :
  (search_similar env_up "podcast_chunks" [0.5; 0.25; 0.125; 0.75]%float
     5 None w_stocked
   = (advance w_stocked,
      Return (map result_of
                (nearest env_up stocked [0.5; 0.25; 0.125; 0.75]%float
                   5 None))) /\
   length (nearest env_up stocked [0.5; 0.25; 0.125; 0.75]%float 5 None)
   = 2) /\
  (search_similar env_with_vectors "podcast_chunks"
     [0.5; 0.25; 0.125; 0.75]%float 5 None w_stocked
   = (advance w_stocked, Return []) /\
   length (nearest env_with_vectors stocked [0.5; 0.25; 0.125; 0.75]%float
             5 None)
   = 2).
Proof.
  split; (split; [|vm_compute; reflexivity]).
  - apply (search_similar_hits env_up w_stocked "podcast_chunks" stocked);
      [reflexivity | reflexivity |].
    vm_compute. repeat constructor.
  - apply (search_similar_hits env_with_vectors w_stocked "podcast_chunks"
             stocked); [reflexivity | reflexivity |].
    vm_compute. left. eexists _, _. reflexivity.
Defined.

End IndexFacts.

(** * Further properties of the dialogue synthesizer *)

Module DialogueFacts.
Import Effects Loops PyStr GeminiService Props Transcript Scenario.
Import PyStrFacts GeminiServiceFacts.

(** *** The history window *)

(** X7. Of a history of five messages or more, a turn shows the model the
    last five and nothing else.  Whatever stands before them is dropped;
    the prompt carries one line for each of the five, the id of the
    speaker, a colon and the content, in their order; time stamps and the
    user flag are not shown.  The stripped answer is returned, or the
    apology that quotes the error. *)
Theorem generate_agent_response_window (env : Env) (agent : PodcastAgent.t)
    (context : string) (older recent : list PodcastMessage.t) (w : World) :
  length recent = 5 ->
  generate_agent_response env agent context (older ++ recent) w
  = (advance w,
     Return
       match generate_content env (tick w)
               (nl +:+ indent +:+ "You are " +:+ PodcastAgent.name agent
                +:+ ", a " +:+ PodcastAgent.role agent
                +:+ " with the following personality: "
                +:+ PodcastAgent.personality agent +:+ "." +:+ nl
                +:+ indent +:+ "Current conversation context: " +:+ context
                +:+ nl
                +:+ indent +:+ "Conversation history:" +:+ nl
                +:+ indent
                +:+ join nl
                      (map (fun msg => PodcastMessage.agent_id msg +:+ ": "
                                       +:+ PodcastMessage.content msg)
                           recent)
                +:+ nl
                +:+ nl
                +:+ indent +:+ "Please generate a response that is appropriate for your role and personality." +:+ nl
                +:+ indent +:+ "Keep responses concise but informative, typically 1-3 sentences." +:+ nl
                +:+ indent) with
       | Return response => strip response
       | Raise e =>
           "Sorry, I encountered an error generating a response. "
           +:+ str_exn e
       end).
Proof.
  intros Hlen. unfold generate_agent_response, history_text, last5.
  rewrite length_app, Hlen.
  replace (length older + 5 - 5) with (length older) by lia.
  change (skipn (length older) (older ++ recent))
    with (drop (length older) (older ++ recent)).
  rewrite drop_app_length.
  unfold try_except, bind, ask, ret, agent_prompt, apology.
  now destruct (generate_content env (tick w) _).
Qed.

Lemma generate_agent_response_window_witness :
  generate_agent_response env_up alex "Some context"
    ([ {| PodcastMessage.agent_id := "2";
          PodcastMessage.content := "oldest";
          PodcastMessage.timestamp := 1;
          PodcastMessage.is_user_message := false |};
       {| PodcastMessage.agent_id := "1";
          PodcastMessage.content := "older";
          PodcastMessage.timestamp := 2;
          PodcastMessage.is_user_message := false |} ]
     ++ [ {| PodcastMessage.agent_id := "2";
             PodcastMessage.content := "one";
             PodcastMessage.timestamp := 3;
             PodcastMessage.is_user_message := false |};
          {| PodcastMessage.agent_id := "1";
             PodcastMessage.content := "two";
             PodcastMessage.timestamp := 4;
             PodcastMessage.is_user_message := false |};
          {| PodcastMessage.agent_id := "2";
             PodcastMessage.content := "three";
             PodcastMessage.timestamp := 5;
             PodcastMessage.is_user_message := false |};
          {| PodcastMessage.agent_id := "1";
             PodcastMessage.content := "four";
             PodcastMessage.timestamp := 6;
             PodcastMessage.is_user_message := false |};
          {| PodcastMessage.agent_id := "2";
             PodcastMessage.content := "five";
             PodcastMessage.timestamp := 7;
             PodcastMessage.is_user_message := true |} ]) w0
  = (advance w0,
     Return
       match generate_content env_up (tick w0)
               (nl +:+ indent +:+ "You are " +:+ "Alex"
                +:+ ", a " +:+ "explainer"
                +:+ " with the following personality: "
                +:+ "Knowledgeable and patient" +:+ "." +:+ nl
                +:+ indent +:+ "Current conversation context: "
                +:+ "Some context" +:+ nl
                +:+ indent +:+ "Conversation history:" +:+ nl
                +:+ indent
                +:+ join nl ["2: one"; "1: two"; "2: three"; "1: four";
                             "2: five"]
                +:+ nl
                +:+ nl
                +:+ indent +:+ "Please generate a response that is appropriate for your role and personality." +:+ nl
                +:+ indent +:+ "Keep responses concise but informative, typically 1-3 sentences." +:+ nl
                +:+ indent) with
       | Return response => strip response
       | Raise e =>
           "Sorry, I encountered an error generating a response. "
           +:+ str_exn e
       end).
Proof.
  apply (generate_agent_response_window env_up alex "Some context").
  reflexivity.
Defined.

(** *** The transcript in full *)

Lemma rounds_produced (env : Env) (explainer curious : PodcastAgent.t)
    (context : string) (n a k : nat) (messages history : list PodcastMessage.t)
    (w : World) :
  Nat.even k = true ->
  exists new,
    for_each (seq a n)
      (fun (i : nat) st =>
         st <- turn env explainer context st ;; turn env curious context st)
      (messages, history) w
    = (Nat.iter (4 * n) advance w,
       Return (messages ++ new, history ++ new)) /\
    length new = 2 * n /\
    produced env explainer curious context (tick w) k history new.
Proof.
  revert a k messages history w.
  induction n as [|n IH]; intros a k messages history w Hk.
  - exists []. rewrite !app_nil_r. now repeat split.
  - cbn [seq for_each]. unfold bind at 1. unfold bind at 1.
    rewrite turn_run. cbv beta iota. rewrite turn_run. cbv beta iota.
    set (m1 := {| PodcastMessage.agent_id := PodcastAgent.id explainer;
                  PodcastMessage.content := _;
                  PodcastMessage.timestamp := _;
                  PodcastMessage.is_user_message := _ |}).
    set (m2 := {| PodcastMessage.agent_id := PodcastAgent.id curious;
                  PodcastMessage.content := _;
                  PodcastMessage.timestamp := _;
                  PodcastMessage.is_user_message := _ |}).
    destruct (IH (S a) (S (S k)) ((messages ++ [m1]) ++ [m2])
                ((history ++ [m1]) ++ [m2])
                (advance (advance (advance (advance w)))))
      as (new & -> & Hlen & Hgen); [exact Hk|].
    exists (m1 :: m2 :: new). rewrite <- !app_assoc. cbn [app].
    split.
    { f_equal. replace (4 * S n) with (4 * n + 4) by lia.
      now rewrite Nat.iter_add. }
    split; [cbn; lia|].
    destruct (speaker_even explainer curious k Hk) as [He Hc].
    cbn [produced]. rewrite He, Hc. repeat split. exact Hgen.
Qed.

Lemma tick_iter_advance (n : nat) (w : World) :
  tick (Nat.iter n advance w) = n + tick w /\
  index (Nat.iter n advance w) = index w.
Proof.
  induction n as [|n [IHt IHi]]; [now split|].
  rewrite Nat.iter_succ. cbn [advance tick index]. split; [lia | exact IHi].
Qed.

(** With both agents present the flow returns the opening question and
    ten produced messages, after 21 interactions with the outside. *)
Lemma conversation_flow_produced (env : Env) (agents : list PodcastAgent.t)
    (context : string) (query : option string) (w : World)
    (explainer curious : PodcastAgent.t) :
  first_with_role "explainer" agents = Some explainer ->
  first_with_role "curious" agents = Some curious ->
  exists new,
    _generate_conversation_flow env agents context query w
    = (Nat.iter 21 advance w,
       Return
         ({| PodcastMessage.agent_id := PodcastAgent.id curious;
             PodcastMessage.content :=
               "What can you tell me about "
               +:+ or_default query "this PDF content" +:+ "?";
             PodcastMessage.timestamp := now env (tick w);
             PodcastMessage.is_user_message := false |} :: new)) /\
    length new = 10 /\
    produced env explainer curious context (S (tick w)) 0
      [{| PodcastMessage.agent_id := PodcastAgent.id curious;
          PodcastMessage.content :=
            "What can you tell me about "
            +:+ or_default query "this PDF content" +:+ "?";
          PodcastMessage.timestamp := now env (tick w);
          PodcastMessage.is_user_message := false |}]
      new.
Proof.
  intros He Hc. unfold _generate_conversation_flow. rewrite He, Hc.
  unfold bind at 1, ask. cbv beta iota. cbn [app].
  set (opening := {| PodcastMessage.agent_id := PodcastAgent.id curious;
                     PodcastMessage.content := _;
                     PodcastMessage.timestamp := _;
                     PodcastMessage.is_user_message := _ |}).
  unfold bind at 1. unfold for_range.
  destruct (rounds_produced env explainer curious context 5 0 0
              [opening] [opening] (advance w) eq_refl)
    as (new & -> & Hlen & Hgen).
  exists new. unfold ret. cbn [fst]. repeat split; assumption.
Qed.

Lemma produced_lookup (env : Env) (explainer curious : PodcastAgent.t)
    (context : string) (new history : list PodcastMessage.t) (t k j : nat)
    (m : PodcastMessage.t) :
  produced env explainer curious context t k history new ->
  new !! j = Some m ->
  PodcastMessage.agent_id m
    = PodcastAgent.id (speaker explainer curious (k + j)) /\
  PodcastMessage.timestamp m = now env (S (t + 2 * j)) /\
  PodcastMessage.is_user_message m = false.
Proof.
  revert history t k j. induction new as [|m0 new IH]; intros history t k j H Hj.
  - discriminate.
  - destruct H as (Hm0 & Hrest). destruct j as [|j].
    + injection Hj as <-. rewrite Hm0.
      cbn [PodcastMessage.agent_id PodcastMessage.timestamp
           PodcastMessage.is_user_message].
      replace (k + 0) with k by lia. replace (t + 2 * 0) with t by lia.
      now repeat split.
    + cbn in Hj. destruct (IH _ _ _ _ Hrest Hj) as (H1 & H2 & H3).
      replace (k + S j) with (S k + j) by lia.
      replace (t + 2 * S j) with (2 + t + 2 * j) by lia.
      now repeat split.
Qed.

(** *** The conversation object *)

Lemma make_agent_full (env : Env) (agent_config : gmap string string)
    (w : World) :
  exists r,
    make_agent env agent_config w = (advance w, r) /\
    match r with
    | Return agent =>
        mirrors agent_config agent /\ PodcastAgent.id agent = uuid4 env (tick w)
    | Raise e =>
        ~ well_formed agent_config /\
        exists key, e = KeyError key /\
                    In key ["name"; "role"; "personality"]
    end.
Proof.
  unfold make_agent, bind, ask, getitem, well_formed, mirrors.
  cbv beta iota.
  destruct (agent_config !! "name") as [name|]; unfold ret, raise.
  2:{ eexists. split; [reflexivity|]. split.
      - intros [[? ?] _]. discriminate.
      - exists "name". split; [reflexivity | now left]. }
  destruct (agent_config !! "role") as [role|].
  2:{ eexists. split; [reflexivity|]. split.
      - intros (_ & [? ?] & _). discriminate.
      - exists "role". split; [reflexivity | right; now left]. }
  destruct (agent_config !! "personality") as [personality|].
  2:{ eexists. split; [reflexivity|]. split.
      - intros (_ & _ & [? ?]). discriminate.
      - exists "personality". split; [reflexivity | right; right; now left]. }
  eexists. split; [reflexivity|]. now repeat split.
Qed.

Lemma build_agents_full (env : Env) (agent_configs : list (gmap string string))
    (acc : list PodcastAgent.t) (w : World) :
  exists w' r,
    for_each agent_configs
      (fun agent_config agents =>
         agent <- make_agent env agent_config ;; ret (agents ++ [agent]))
      acc w
    = (w', r) /\
    index w' = index w /\
    tick w' <= tick w + length agent_configs /\
    match r with
    | Return agents =>
        exists new,
          agents = acc ++ new /\ Forall2 mirrors agent_configs new
    | Raise e =>
        Exists (fun agent_config => ~ well_formed agent_config)
          agent_configs /\
        exists key, e = KeyError key /\
                    In key ["name"; "role"; "personality"]
    end.
Proof.
  revert acc w. induction agent_configs as [|cfg cfgs IH]; intros acc w.
  - exists w, (Return acc). cbn. repeat split; [lia|]. exists [].
    rewrite app_nil_r. split; [reflexivity | constructor].
  - cbn [for_each]. unfold bind at 1. unfold bind at 1.
    destruct (make_agent_full env cfg w) as ([agent|e] & -> & Hr).
    + unfold ret at 1.
      destruct (IH (acc ++ [agent]) (advance w))
        as (w' & r & -> & Hidx & Htick & Hrest).
      exists w', r. split; [reflexivity|]. split; [exact Hidx|].
      cbn [tick advance length] in *. split; [lia|].
      destruct r as [agents|e].
      * destruct Hrest as (new & -> & Hall). exists (agent :: new).
        rewrite <- app_assoc. split; [reflexivity|].
        constructor; [apply Hr | exact Hall].
      * destruct Hrest as [Hex Hkey]. split; [now right | exact Hkey].
    + exists (advance w), (Raise e). split; [reflexivity|].
      split; [reflexivity|]. cbn [tick advance length]. split; [lia|].
      destruct Hr as [Hbad Hkey]. split; [now left | exact Hkey].
Qed.

(** A returned conversation, piece by piece. *)
Lemma conversation_returned (env : Env) (request : GeminiGenerationRequest.t)
    (w w' : World) (conversation : PodcastConversation.t) :
  generate_podcast_conversation env request w = (w', Return conversation) ->
  exists t0 explainer curious context new,
    Forall2 mirrors (GeminiGenerationRequest.agent_configs request)
      (PodcastConversation.agents conversation) /\
    first_with_role "explainer" (PodcastConversation.agents conversation)
      = Some explainer /\
    first_with_role "curious" (PodcastConversation.agents conversation)
      = Some curious /\
    PodcastConversation.messages conversation
      = opening env curious (GeminiGenerationRequest.query request) t0
        :: new /\
    length new = 10 /\
    produced env explainer curious context (S t0) 0
      [opening env curious (GeminiGenerationRequest.query request) t0] new /\
    PodcastConversation.created_at conversation = now env (22 + t0) /\
    PodcastConversation.updated_at conversation = now env (23 + t0).
Proof.
  unfold generate_podcast_conversation, try_except. unfold bind at 1.
  destruct (build_agents_full env
              (GeminiGenerationRequest.agent_configs request) [] w)
    as (w1 & r & -> & _ & _ & Hr).
  destruct r as [agents|e]; [|unfold raise; discriminate].
  destruct Hr as (new_agents & -> & Hall). cbn [app]. unfold bind at 1.
  destruct (conversation_context_returns env
              (GeminiGenerationRequest.pdf_id request)
              (GeminiGenerationRequest.query request) w1)
    as (w2 & context & ->).
  unfold bind at 1.
  destruct (first_with_role "explainer" new_agents) as [explainer|] eqn:He.
  2:{ rewrite conversation_flow_raises by now right.
      unfold raise. discriminate. }
  destruct (first_with_role "curious" new_agents) as [curious|] eqn:Hc.
  2:{ rewrite conversation_flow_raises by now left.
      unfold raise. discriminate. }
  destruct (conversation_flow_produced env new_agents context
              (GeminiGenerationRequest.query request) w2 explainer curious
              He Hc) as (new & -> & Hlen & Hgen).
  unfold bind, ask, ret. intros H. injection H as <- <-.
  exists (tick w2), explainer, curious, context, new.
  cbn [PodcastConversation.agents PodcastConversation.messages
       PodcastConversation.created_at PodcastConversation.updated_at].
  repeat split; try assumption.
Qed.

(** X8. With complete agent configurations that include an explainer and a
    curious agent, [generate_podcast_conversation] returns a conversation
    whatever the model, the embedding model and the vector store do.  Its
    agents are the configurations in order, with the voice ["default"]
    where none is configured, and it has 11 messages. *)
Theorem conversation_always_returned (env : Env)
    (request : GeminiGenerationRequest.t) (w : World) :
  Forall well_formed (GeminiGenerationRequest.agent_configs request) ->
  has_role "explainer" (GeminiGenerationRequest.agent_configs request) ->
  has_role "curious" (GeminiGenerationRequest.agent_configs request) ->
  exists w' conversation,
    generate_podcast_conversation env request w = (w', Return conversation) /\
    Forall2 mirrors (GeminiGenerationRequest.agent_configs request)
      (PodcastConversation.agents conversation) /\
    length (PodcastConversation.messages conversation) = 11 /\
    PodcastConversation.pdf_id conversation
      = GeminiGenerationRequest.pdf_id request.
Proof.
  intros Hwf Hexp Hcur.
  unfold generate_podcast_conversation, try_except. unfold bind at 1.
  destruct (build_agents_full env
              (GeminiGenerationRequest.agent_configs request) [] w)
    as (w1 & r & -> & _ & _ & Hr).
  destruct r as [agents|e].
  2:{ exfalso. destruct Hr as [Hr _].
      apply Exists_exists in Hr as (cfg & Hin & Hbad).
      rewrite Forall_forall in Hwf. exact (Hbad (Hwf cfg Hin)). }
  destruct Hr as (new_agents & -> & Hall). cbn [app]. unfold bind at 1.
  destruct (conversation_context_returns env
              (GeminiGenerationRequest.pdf_id request)
              (GeminiGenerationRequest.query request) w1)
    as (w2 & context & ->).
  assert (Hroles : Forall2 (fun agent_config agent =>
                     agent_config !! "role" = Some (PodcastAgent.role agent))
                     (GeminiGenerationRequest.agent_configs request)
                     new_agents).
  { eapply Forall2_impl; [exact Hall|]. intros cfg a H. apply H. }
  destruct (roles_found "explainer" _ _ Hroles Hexp) as [explainer He].
  destruct (roles_found "curious" _ _ Hroles Hcur) as [curious Hc].
  destruct (conversation_flow_produced env new_agents context
              (GeminiGenerationRequest.query request) w2 explainer curious
              He Hc) as (new & Hrun & Hlen & Hgen).
  unfold bind at 1. rewrite Hrun. unfold bind, ask, ret.
  eexists _, _. split; [reflexivity|].
  cbn [PodcastConversation.agents PodcastConversation.messages
       PodcastConversation.pdf_id length].
  split; [exact Hall|]. split; [now rewrite Hlen | reflexivity].
Qed.

Lemma conversation_always_returned_witness :
  exists w' conversation,
    generate_podcast_conversation env_store_down request0 w_empty
    = (w', Return conversation) /\
    Forall2 mirrors (GeminiGenerationRequest.agent_configs request0)
      (PodcastConversation.agents conversation) /\
    length (PodcastConversation.messages conversation) = 11 /\
    PodcastConversation.pdf_id conversation
      = GeminiGenerationRequest.pdf_id request0.
Proof.
  apply (conversation_always_returned env_store_down request0 w_empty).
  - repeat constructor; eexists; reflexivity.
  - left. reflexivity.
  - right. left. reflexivity.
Defined.

Lemma first_with_role_some (role : string) (agents : list PodcastAgent.t)
    (a : PodcastAgent.t) :
  first_with_role role agents = Some a ->
  In a agents /\ PodcastAgent.role a = role.
Proof.
  unfold first_with_role. intros H. apply find_some in H as [Hin Hrole].
  split; [exact Hin | now apply String.eqb_eq].
Qed.

Lemma message_stamp (env : Env) (explainer curious : PodcastAgent.t)
    (context : string) (query : option string) (t0 : nat)
    (new : list PodcastMessage.t) (i : nat) (m : PodcastMessage.t) :
  produced env explainer curious context (S t0) 0
    [opening env curious query t0] new ->
  (opening env curious query t0 :: new) !! i = Some m ->
  PodcastMessage.timestamp m = now env (t0 + 2 * i) /\
  PodcastMessage.is_user_message m = false /\
  (PodcastMessage.agent_id m = PodcastAgent.id explainer \/
   PodcastMessage.agent_id m = PodcastAgent.id curious).
Proof.
  intros Hgen Hi. destruct i as [|i].
  - injection Hi as <-. cbn. replace (t0 + 0) with t0 by lia.
    repeat split. now right.
  - cbn in Hi. destruct (produced_lookup _ _ _ _ _ _ _ _ _ _ Hgen Hi)
      as (Hid & Hstamp & Huser).
    split; [|split; [exact Huser|]].
    + rewrite Hstamp. f_equal. lia.
    + rewrite Hid. unfold speaker. destruct (Nat.even (0 + i)); auto.
Qed.

(** X9. Every message of a returned conversation carries the id of an agent
    of that conversation, the one found for the explainer role or the one
    found for the curious role, and none is marked as a user message: an
    agent with the user role never speaks. *)
Theorem conversation_messages_belong (env : Env)
    (request : GeminiGenerationRequest.t) (w w' : World)
    (conversation : PodcastConversation.t) :
  generate_podcast_conversation env request w = (w', Return conversation) ->
  Forall (fun m =>
            PodcastMessage.is_user_message m = false /\
            exists a,
              In a (PodcastConversation.agents conversation) /\
              PodcastAgent.id a = PodcastMessage.agent_id m /\
              (PodcastAgent.role a = "explainer" \/
               PodcastAgent.role a = "curious"))
         (PodcastConversation.messages conversation).
Proof.
  intros Hrun.
  destruct (conversation_returned env request w w' conversation Hrun)
    as (t0 & explainer & curious & context & new
        & _ & He & Hc & -> & _ & Hgen & _).
  apply first_with_role_some in He as [Hein Herole].
  apply first_with_role_some in Hc as [Hcin Hcrole].
  apply Forall_lookup. intros i m Hi.
  destruct (message_stamp _ _ _ _ _ _ _ _ _ Hgen Hi) as (_ & Huser & Hid).
  split; [exact Huser|].
  destruct Hid as [Hid | Hid]; [exists explainer | exists curious]; auto.
Qed.

Lemma conversation_messages_belong_witness :
  exists w' conversation,
    generate_podcast_conversation env_up request0 w0
    = (w', Return conversation) /\
    Forall (fun m =>
              PodcastMessage.is_user_message m = false /\
              exists a,
                In a (PodcastConversation.agents conversation) /\
                PodcastAgent.id a = PodcastMessage.agent_id m /\
                (PodcastAgent.role a = "explainer" \/
                 PodcastAgent.role a = "curious"))
           (PodcastConversation.messages conversation).
Proof.
  destruct (generate_podcast_conversation env_up request0 w0)
    as [w' [conversation|e]] eqn:Hrun.
  - exists w', conversation. split; [reflexivity|].
    exact (conversation_messages_belong env_up request0 w0 w' conversation
             Hrun).
  - vm_compute in Hrun. discriminate Hrun.
Defined.

(** X10. When the clock never goes back, the messages of a returned
    conversation are stamped in the order of the transcript, none later
    than [created_at], which is not later than [updated_at]. *)
Theorem conversation_chronological (env : Env)
    (request : GeminiGenerationRequest.t) (w w' : World)
    (conversation : PodcastConversation.t) :
  (forall i j, i <= j -> (now env i <= now env j)%Z) ->
  generate_podcast_conversation env request w = (w', Return conversation) ->
  (forall i j m m',
     i <= j ->
     PodcastConversation.messages conversation !! i = Some m ->
     PodcastConversation.messages conversation !! j = Some m' ->
     (PodcastMessage.timestamp m <= PodcastMessage.timestamp m')%Z) /\
  (forall m,
     In m (PodcastConversation.messages conversation) ->
     (PodcastMessage.timestamp m
      <= PodcastConversation.created_at conversation)%Z) /\
  (PodcastConversation.created_at conversation
   <= PodcastConversation.updated_at conversation)%Z.
Proof.
  intros Hmono Hrun.
  destruct (conversation_returned env request w w' conversation Hrun)
    as (t0 & explainer & curious & context & new
        & _ & _ & _ & -> & Hlen & Hgen & -> & ->).
  split; [|split].
  - intros i j m m' Hij Hi Hj.
    destruct (message_stamp _ _ _ _ _ _ _ _ _ Hgen Hi) as (-> & _).
    destruct (message_stamp _ _ _ _ _ _ _ _ _ Hgen Hj) as (-> & _).
    apply Hmono. lia.
  - intros m Hm. apply list_elem_of_In, list_elem_of_lookup in Hm as [i Hi].
    pose proof (lookup_lt_Some _ _ _ Hi) as Hlt. cbn [length] in Hlt.
    destruct (message_stamp _ _ _ _ _ _ _ _ _ Hgen Hi) as (-> & _).
    apply Hmono. lia.
  - apply Hmono. lia.
Qed.

Lemma conversation_chronological_witness :
  exists w' conversation,
    generate_podcast_conversation env_up request0 w0
    = (w', Return conversation) /\
    (forall i j m m',
       i <= j ->
       PodcastConversation.messages conversation !! i = Some m ->
       PodcastConversation.messages conversation !! j = Some m' ->
       (PodcastMessage.timestamp m <= PodcastMessage.timestamp m')%Z) /\
    (forall m,
       In m (PodcastConversation.messages conversation) ->
       (PodcastMessage.timestamp m
        <= PodcastConversation.created_at conversation)%Z) /\
    (PodcastConversation.created_at conversation
     <= PodcastConversation.updated_at conversation)%Z.
Proof.
  destruct (generate_podcast_conversation env_up request0 w0)
    as [w' [conversation|e]] eqn:Hrun.
  - exists w', conversation. split; [reflexivity|].
    apply (conversation_chronological env_up request0 w0 w' conversation);
      [|exact Hrun].
    intros i j Hij. cbn. lia.
  - vm_compute in Hrun. discriminate Hrun.
Defined.

(** A configuration that is not complete makes [make_agent] raise for the
    first of the keys, in the order in which they are read, that it
    lacks. *)
Lemma make_agent_fails (env : Env) (agent_config : gmap string string)
    (w : World) :
  ~ well_formed agent_config ->
  exists key,
    make_agent env agent_config w = (advance w, Raise (KeyError key)) /\
    agent_config !! key = None /\
    (key = "name" \/
     key = "role" /\ is_Some (agent_config !! "name") \/
     key = "personality" /\ is_Some (agent_config !! "name") /\
     is_Some (agent_config !! "role")).
Proof.
  intros Hbad. unfold make_agent, bind, ask, getitem. cbv beta iota.
  destruct (agent_config !! "name") as [name|] eqn:Hname; unfold ret, raise.
  2:{ exists "name". auto. }
  destruct (agent_config !! "role") as [role|] eqn:Hrole.
  2:{ exists "role". split; [reflexivity|]. split; [exact Hrole|].
      right. left. eauto. }
  destruct (agent_config !! "personality") as [personality|] eqn:Hpers.
  2:{ exists "personality". split; [reflexivity|]. split; [exact Hpers|].
      right. right. eauto. }
  exfalso. apply Hbad. unfold well_formed. rewrite Hrole, Hpers. eauto.
Qed.

Lemma build_agents_fails (env : Env) (agent_configs : list (gmap string string))
    (acc : list PodcastAgent.t) (w : World) :
  Exists (fun agent_config => ~ well_formed agent_config) agent_configs ->
  exists i agent_config key,
    for_each agent_configs
      (fun agent_config agents =>
         agent <- make_agent env agent_config ;; ret (agents ++ [agent]))
      acc w
    = (Nat.iter (S i) advance w, Raise (KeyError key)) /\
    agent_configs !! i = Some agent_config /\
    (forall j earlier,
       j < i -> agent_configs !! j = Some earlier -> well_formed earlier) /\
    agent_config !! key = None /\
    (key = "name" \/
     key = "role" /\ is_Some (agent_config !! "name") \/
     key = "personality" /\ is_Some (agent_config !! "name") /\
     is_Some (agent_config !! "role")).
Proof.
  intros Hex. revert acc w.
  induction agent_configs as [|cfg cfgs IH]; intros acc w; [inversion Hex|].
  cbn [for_each]. unfold bind at 1. unfold bind at 1.
  destruct (make_agent_full env cfg w) as ([agent|e] & Hrun & Hr).
  - rewrite Hrun. unfold ret at 1.
    assert (Hgood : well_formed cfg).
    { destruct Hr as [(H1 & H2 & H3 & _) _]. unfold well_formed.
      rewrite H1, H2, H3. eauto. }
    apply Exists_cons in Hex as [Hex|Hex]; [contradiction|].
    destruct (IH Hex (acc ++ [agent]) (advance w))
      as (i & bad & key & -> & Hi & Hbefore & Hkey).
    exists (S i), bad, key. split; [now rewrite <- !Nat.iter_succ_r|].
    split; [exact Hi|]. split; [|exact Hkey].
    intros j earlier Hj Hlook. destruct j as [|j].
    + now injection Hlook as <-.
    + apply (Hbefore j); [lia | exact Hlook].
  - destruct Hr as [Hbad _].
    destruct (make_agent_fails env cfg w Hbad) as (key & Hfail & Hkey).
    rewrite Hfail. exists 0, cfg, key. split; [reflexivity|].
    split; [reflexivity|]. split; [intros; lia | exact Hkey].
Qed.

(** X11. When some configuration lacks one of the keys ["name"], ["role"]
    or ["personality"], [generate_podcast_conversation] raises the error of
    a missing key, wrapped.  The key that the message quotes is the first,
    in the order name, role, personality, that the first incomplete
    configuration lacks.  This happens while the agents are built: one id
    has been drawn for each configuration up to that one, and the store is
    untouched. *)
Theorem conversation_missing_key (env : Env)
    (request : GeminiGenerationRequest.t) (w : World) :
  Exists (fun agent_config => ~ well_formed agent_config)
    (GeminiGenerationRequest.agent_configs request) ->
  exists w' i agent_config key,
    generate_podcast_conversation env request w
    = (w', Raise (Exception ("Failed to generate podcast conversation: '"
                             +:+ key +:+ "'"))) /\
    GeminiGenerationRequest.agent_configs request !! i = Some agent_config /\
    (forall j earlier,
       j < i ->
       GeminiGenerationRequest.agent_configs request !! j = Some earlier ->
       well_formed earlier) /\
    agent_config !! key = None /\
    (key = "name" \/
     key = "role" /\ is_Some (agent_config !! "name") \/
     key = "personality" /\ is_Some (agent_config !! "name") /\
     is_Some (agent_config !! "role")) /\
    index w' = index w /\
    tick w' = tick w + S i.
Proof.
  intros Hbad.
  destruct (build_agents_fails env
              (GeminiGenerationRequest.agent_configs request) [] w Hbad)
    as (i & cfg & key & Hrun & Hi & Hbefore & Hnone & Hfirst).
  exists (Nat.iter (S i) advance w), i, cfg, key.
  unfold generate_podcast_conversation, try_except. unfold bind at 1.
  rewrite Hrun. unfold raise. cbn [str_exn].
  destruct (tick_iter_advance (S i) w) as [Ht Hidx].
  split; [reflexivity|]. split; [exact Hi|]. split; [exact Hbefore|].
  split; [exact Hnone|]. split; [exact Hfirst|]. split; [exact Hidx | lia].
Qed.

Lemma conversation_missing_key_witness :
  exists w' i incomplete key,
    generate_podcast_conversation env_up
      {| GeminiGenerationRequest.pdf_id := "doc-42";
         GeminiGenerationRequest.query := None;
         GeminiGenerationRequest.context := None;
         GeminiGenerationRequest.agent_configs :=
           [ agent_config "Dr. Knowledge" "explainer" "Expert" "v1";
             {[ "name" := "Curious Carl" ]} ] |} w0
    = (w', Raise (Exception ("Failed to generate podcast conversation: '"
                             +:+ key +:+ "'"))) /\
    [ agent_config "Dr. Knowledge" "explainer" "Expert" "v1";
      {[ "name" := "Curious Carl" ]} ] !! i = Some incomplete /\
    (forall j earlier,
       j < i ->
       [ agent_config "Dr. Knowledge" "explainer" "Expert" "v1";
         {[ "name" := "Curious Carl" ]} ] !! j = Some earlier ->
       well_formed earlier) /\
    incomplete !! key = None /\
    (key = "name" \/
     key = "role" /\ is_Some (incomplete !! "name") \/
     key = "personality" /\ is_Some (incomplete !! "name") /\
     is_Some (incomplete !! "role")) /\
    index w' = index w0 /\
    tick w' = tick w0 + S i.
Proof.
  apply (conversation_missing_key env_up
           {| GeminiGenerationRequest.pdf_id := "doc-42";
              GeminiGenerationRequest.query := None;
              GeminiGenerationRequest.context := None;
              GeminiGenerationRequest.agent_configs :=
                [ agent_config "Dr. Knowledge" "explainer" "Expert" "v1";
                  {[ "name" := "Curious Carl" ]} ] |} w0).
  right. left. intros (_ & [role Hrole] & _). vm_compute in Hrole.
  discriminate.
Defined.

End DialogueFacts.

(** * Properties of the rest of the PDF service *)

Module PdfIngestFacts.
Import Effects Loops PyStr PyPath PdfService PdfIngest Props Scenario.
Import PyStrFacts.

(** *** Extraction *)

Lemma split_from_blank (c : ascii) (a b word : string) :
  isspace c = true ->
  split_from word (a +:+ String c b) = split_from word a ++ split b.
Proof.
  intros Hc. revert word. induction a as [|x a IH]; intros word.
  - rewrite append_nil_l. cbn [split_from]. now rewrite Hc.
  - rewrite append_cons. cbn [split_from]. destruct (isspace x).
    + now rewrite IH, app_assoc.
    + apply IH.
Qed.

Lemma join_empty_cons (x : string) (l : list string) :
  join "" (x :: l) = x +:+ join "" l.
Proof.
  destruct l as [|y l]; cbn [join];
    [now rewrite append_nil_r | now rewrite append_nil_l].
Qed.

(** The text of the pages, each followed by a newline. *)
Lemma extract_loop (pages : list string) (text : string) (w : World) :
  for_each pages
    (fun page text => ret (text +:+ page +:+ GeminiService.nl)) text w
  = (w, Return (text +:+ join "" (map (fun page => page +:+ GeminiService.nl)
                                      pages))).
Proof.
  revert text. induction pages as [|page pages IH]; intros text.
  - cbn. now rewrite append_nil_r.
  - cbn [for_each map]. unfold bind, ret at 1. rewrite IH.
    now rewrite join_empty_cons, !append_assoc.
Qed.

Lemma split_lines (pages : list string) :
  split (join "" (map (fun page => page +:+ GeminiService.nl) pages))
  = concat (map split pages).
Proof.
  induction pages as [|page pages IH]; [reflexivity|].
  cbn [map]. rewrite join_empty_cons. unfold GeminiService.nl at 1.
  rewrite append_assoc, append_cons, append_nil_l. unfold split at 1.
  rewrite split_from_blank by reflexivity. cbn [map concat]. now rewrite IH.
Qed.

Lemma split_join_space (l : list string) :
  split (join " " l) = concat (map split l).
Proof.
  induction l as [|x l IH]; [reflexivity|].
  destruct l as [|y l].
  - cbn [join map concat]. now rewrite app_nil_r.
  - change (join " " (x :: y :: l))
      with (x +:+ " " +:+ join " " (y :: l)).
    rewrite append_cons, append_nil_l. unfold split at 1.
    rewrite split_from_blank by reflexivity.
    fold (split x). now rewrite IH.
Qed.

(** X3. Chunking neither loses nor moves nor cuts a word: for every text and
    every limit, even one that no word fits, the words of the chunks, one
    chunk after the other, are the words of the text. *)
Theorem chunks_keep_words (text : string) (n : Z) :
  concat (map split (chunk_text text n)) = split text.
Proof.
  rewrite <- split_join_space. apply PdfServiceFacts.chunk_text_words.
Qed.

(** C9. For every text and every limit of at least one character, each
    chunk that [chunk_text] returns is at most [max_chars] long, unless it
    is a single word of the text that is itself longer than [max_chars]:
    such a word is a chunk of its own.  And no word is cut, the over-long
    ones included: the words of the chunks, one chunk after the other, are
    the words of the text, whole and in order. *)
Theorem chunk_text_within_whole_words (text : string) (max_chars : Z) :
  (1 <= max_chars)%Z ->
  Forall (within max_chars (split text)) (chunk_text text max_chars) /\
  concat (map split (chunk_text text max_chars)) = split text.
Proof.
  intros Hmax. split.
  - now apply PdfServiceFacts.chunk_text_within.
  - rewrite <- split_join_space. apply PdfServiceFacts.chunk_text_words.
Qed.

Lemma chunk_text_within_whole_words_witness :
  Forall (within 5 (split "so  supercalifragilistic a b  c"))
    (chunk_text "so  supercalifragilistic a b  c" 5) /\
  concat (map split (chunk_text "so  supercalifragilistic a b  c" 5))
  = split "so  supercalifragilistic a b  c".
Proof.
  apply (chunk_text_within_whole_words "so  supercalifragilistic a b  c" 5).
  lia.
Defined.

(** The chunks of that text: the over-long word stands alone, uncut. *)
Example chunk_text_overlong_word_alone :
  chunk_text "so  supercalifragilistic a b  c" 5
  = ["so"; "supercalifragilistic"; "a b c"].
Proof. reflexivity. Qed.

(** X12. When the reader delivers the pages, the extracted text has exactly the
    words of the pages, page after page: the newline added after each page
    keeps the last word of a page apart from the first word of the next. *)
Theorem extract_text_words (tools : Tools.t) (file_path : string)
    (pages : list string) (w : World) :
  Tools.read_pages tools (tick w) file_path = Return pages ->
  exists text,
    extract_text_from_pdf tools file_path w = (advance w, Return text) /\
    split text = concat (map split pages).
Proof.
  intros Hread. unfold extract_text_from_pdf, bind, ask. rewrite Hread.
  rewrite extract_loop, append_nil_l. eexists. split; [reflexivity|].
  apply split_lines.
Qed.

Lemma extract_text_words_witness :
  exists text,
    extract_text_from_pdf Ingested.tools_up "doc.pdf" w0
    = (advance w0, Return text) /\
    split text
    = concat (map split ["Sample PDF Content";
                         "Page 2 Content More text here"]).
Proof.
  apply (extract_text_words Ingested.tools_up "doc.pdf"). reflexivity.
Defined.

(** *** Processing *)

Lemma make_chunk_run (env : Env) (tools : Tools.t) (filename : string)
    (i : nat) (text : string) (emb : list float) (w : World) :
  make_chunk env tools filename (i, (text, emb)) w
  = (advance (advance w),
     Return (Ingested.chunk_at env tools filename (tick w) i text emb)).
Proof. reflexivity. Qed.

(** The loop over the enumerated pairs: one chunk per pair, two
    interactions each. *)
Lemma chunks_loop_run (env : Env) (tools : Tools.t) (filename : string)
    (items : list (string * list float)) (i0 : nat)
    (acc : list PDFChunk.t) (w : World) :
  exists new,
    for_each (combine (seq i0 (length items)) items)
      (fun item chunks =>
         chunk <- make_chunk env tools filename item ;;
         ret (chunks ++ [chunk])) acc w
    = (Nat.iter (2 * length items) advance w, Return (acc ++ new)) /\
    length new = length items /\
    forall i text emb,
      items !! i = Some (text, emb) ->
      new !! i = Some (Ingested.chunk_at env tools filename
                         (tick w + 2 * i) (i0 + i) text emb).
Proof.
  revert i0 acc w. induction items as [|[text emb] items IH]; intros i0 acc w.
  - exists []. rewrite app_nil_r. repeat split. intros i t e H. discriminate.
  - cbn [length seq combine for_each]. unfold bind at 1. unfold bind at 1.
    rewrite make_chunk_run. unfold ret at 1.
    destruct (IH (S i0) (acc ++ [Ingested.chunk_at env tools filename
                                   (tick w) i0 text emb])
                (advance (advance w))) as (new & -> & Hlen & Hall).
    exists (Ingested.chunk_at env tools filename (tick w) i0 text emb :: new).
    rewrite <- app_assoc. cbn [app length]. split.
    { f_equal. replace (2 * S (length items)) with (2 * length items + 2)
        by lia. now rewrite Nat.iter_add. }
    split; [lia|]. intros i t e Hi. destruct i as [|i].
    + injection Hi as <- <-.
      replace (tick w + 2 * 0) with (tick w) by lia.
      replace (i0 + 0) with i0 by lia. reflexivity.
    + cbn in Hi. pose proof (Hall i t e Hi) as Hnew.
      cbn [tick advance] in Hnew.
      replace (tick w + 2 * S i) with (S (S (tick w)) + 2 * i) by lia.
      replace (i0 + S i) with (S i0 + i) by lia. exact Hnew.
Qed.

Lemma lookup_combine {A B} (l : list A) (k : list B) (i : nat) (a : A)
    (b : B) :
  l !! i = Some a -> k !! i = Some b -> combine l k !! i = Some (a, b).
Proof.
  revert k i. induction l as [|x l IH]; intros k i Ha Hb; [discriminate|].
  destruct k as [|y k]; [discriminate|]. destruct i as [|i].
  - cbn in *. congruence.
  - cbn in *. now apply IH.
Qed.

Lemma lookup_combine_inv {A B} (l : list A) (k : list B) (i : nat)
    (p : A * B) :
  combine l k !! i = Some p -> l !! i = Some (fst p) /\ k !! i = Some (snd p).
Proof.
  revert k i. induction l as [|x l IH]; intros k i H; [discriminate|].
  destruct k as [|y k]; [discriminate|]. destruct i as [|i].
  - cbn in *. injection H as <-. now split.
  - cbn in *. now apply IH.
Qed.

Lemma tick_iter_advance_index (n : nat) (w : World) :
  tick (Nat.iter n advance w) = n + tick w /\
  index (Nat.iter n advance w) = index w.
Proof.
  induction n as [|n [IHt IHi]]; [now split|].
  rewrite Nat.iter_succ. cbn [advance tick index]. split; [lia | exact IHi].
Qed.

(** A run of [process_pdf_file] whose reader and embedder answer. *)
Lemma process_pdf_file_run (env : Env) (tools : Tools.t)
    (file_path filename : string) (w : World) (pages : list string)
    (embeddings : list (list float)) :
  Tools.read_pages tools (tick w) file_path = Return pages ->
  Tools.encode_chunks tools (S (tick w))
    (chunk_text (Ingested.page_lines pages) 1000) = Return embeddings ->
  exists w' chunks pdf_id created_at,
    process_pdf_file env tools file_path filename w
    = (w',
       Return
         {| PDFProcessingResult.pdf_id := pdf_id;
            PDFProcessingResult.filename := filename;
            PDFProcessingResult.total_chunks := Z.of_nat (length chunks);
            PDFProcessingResult.total_pages :=
              Z.of_nat (length (chunk_text (Ingested.page_lines pages) 1000))
              / 5 + 1;
            PDFProcessingResult.status := "completed";
            PDFProcessingResult.created_at := created_at;
            PDFProcessingResult.chunks := chunks |}) /\
    index w' = index w /\
    length chunks
    = Nat.min (length (chunk_text (Ingested.page_lines pages) 1000))
              (length embeddings) /\
    forall i text emb,
      chunk_text (Ingested.page_lines pages) 1000 !! i = Some text ->
      embeddings !! i = Some emb ->
      chunks !! i = Some (Ingested.chunk_at env tools filename
                            (tick w + 2 + 2 * i) i text emb).
Proof.
  intros Hread Henc. unfold process_pdf_file. unfold bind at 1.
  unfold extract_text_from_pdf, bind at 1, ask. rewrite Hread.
  rewrite extract_loop, append_nil_l.
  fold (Ingested.page_lines pages).
  unfold bind at 1. unfold generate_embeddings, ask.
  cbn [tick advance]. rewrite Henc.
  set (text_chunks := chunk_text (Ingested.page_lines pages) 1000).
  unfold bind at 1. unfold enumerate.
  destruct (chunks_loop_run env tools filename
              (combine text_chunks embeddings) 0 []
              (advance (advance w))) as (new & -> & Hlen & Hall).
  cbn [app]. unfold bind, ask, ret.
  eexists _, new, _, _. split; [reflexivity|].
  split.
  { cbn [advance index].
    destruct (tick_iter_advance_index
                (2 * length (combine text_chunks embeddings))
                (advance (advance w))) as [_ ->]. reflexivity. }
  split; [now rewrite Hlen, length_combine|].
  intros i text emb Ht He.
  rewrite (Hall i text emb).
  - cbn [tick advance]. do 2 f_equal. lia.
  - now apply lookup_combine.
Qed.

Lemma processed_chunk (env : Env) (tools : Tools.t) (filename : string)
    (t : nat) (text_chunks : list string) (embeddings : list (list float))
    (chunks : list PDFChunk.t) (i : nat) (chunk : PDFChunk.t) :
  length chunks = Nat.min (length text_chunks) (length embeddings) ->
  (forall i text emb,
     text_chunks !! i = Some text -> embeddings !! i = Some emb ->
     chunks !! i = Some (Ingested.chunk_at env tools filename
                           (t + 2 + 2 * i) i text emb)) ->
  chunks !! i = Some chunk ->
  exists text emb,
    text_chunks !! i = Some text /\ embeddings !! i = Some emb /\
    chunk = Ingested.chunk_at env tools filename (t + 2 + 2 * i) i text emb.
Proof.
  intros Hlen Hall Hi. pose proof (lookup_lt_Some _ _ _ Hi) as Hlt.
  destruct (lookup_lt_is_Some_2 text_chunks i) as [text Ht]; [lia|].
  destruct (lookup_lt_is_Some_2 embeddings i) as [emb He]; [lia|].
  exists text, emb. split; [exact Ht|]. split; [exact He|].
  rewrite (Hall i text emb Ht He) in Hi. now injection Hi.
Qed.

(** X13. When the reader and the embedder answer, [process_pdf_file] returns a
    completed result and leaves the index alone.  Chunk texts and
    embeddings are paired position by position, as many as the shorter of
    the two lists has: chunk [i] has the [i]-th text, the [i]-th embedding,
    and its own position and the file name in its metadata. *)
Theorem process_pdf_file_chunks (env : Env) (tools : Tools.t)
    (file_path filename : string) (w : World) (pages : list string)
    (embeddings : list (list float)) :
  Tools.read_pages tools (tick w) file_path = Return pages ->
  Tools.encode_chunks tools (S (tick w))
    (chunk_text (Ingested.page_lines pages) 1000) = Return embeddings ->
  exists w' result,
    process_pdf_file env tools file_path filename w = (w', Return result) /\
    index w' = index w /\
    PDFProcessingResult.status result = "completed" /\
    PDFProcessingResult.filename result = filename /\
    PDFProcessingResult.total_chunks result
    = Z.of_nat (Nat.min
                  (length (chunk_text (Ingested.page_lines pages) 1000))
                  (length embeddings)) /\
    length (PDFProcessingResult.chunks result)
    = Nat.min (length (chunk_text (Ingested.page_lines pages) 1000))
              (length embeddings) /\
    forall i chunk,
      PDFProcessingResult.chunks result !! i = Some chunk ->
      chunk_text (Ingested.page_lines pages) 1000 !! i
        = Some (PDFChunk.content chunk) /\
      (exists emb, embeddings !! i = Some emb /\
                   PDFChunk.embedding chunk = Some emb) /\
      PDFChunk.metadata chunk !! "chunk_index" = Some (VInt (Z.of_nat i)) /\
      PDFChunk.metadata chunk !! "source" = Some (VStr filename).
Proof.
  intros Hread Henc.
  destruct (process_pdf_file_run env tools file_path filename w pages
              embeddings Hread Henc)
    as (w' & chunks & pdf_id & created_at & Hrun & Hidx & Hlen & Hall).
  eexists w', _. split; [exact Hrun|].
  cbn [PDFProcessingResult.status PDFProcessingResult.filename
       PDFProcessingResult.total_chunks PDFProcessingResult.chunks].
  repeat split; try assumption; try (now rewrite Hlen).
  all: destruct (processed_chunk _ _ _ _ _ _ _ _ _ Hlen Hall H)
         as (text & emb & Ht & He & ->); cbn; eauto.
Qed.

Lemma process_pdf_file_chunks_witness :
  exists w' result,
    process_pdf_file env_up Ingested.tools_up "doc.pdf" "test.pdf" w0
    = (w', Return result) /\
    index w' = index w0 /\
    PDFProcessingResult.status result = "completed" /\
    PDFProcessingResult.filename result = "test.pdf" /\
    PDFProcessingResult.total_chunks result
    = Z.of_nat (Nat.min 1 1) /\
    length (PDFProcessingResult.chunks result) = Nat.min 1 1 /\
    forall i chunk,
      PDFProcessingResult.chunks result !! i = Some chunk ->
      chunk_text (Ingested.page_lines
                    ["Sample PDF Content"; "Page 2 Content More text here"])
        1000 !! i
        = Some (PDFChunk.content chunk) /\
      (exists emb, [[0.5; 0.25; 0.125; 0.75]%float] !! i = Some emb /\
                   PDFChunk.embedding chunk = Some emb) /\
      PDFChunk.metadata chunk !! "chunk_index" = Some (VInt (Z.of_nat i)) /\
      PDFChunk.metadata chunk !! "source" = Some (VStr "test.pdf").
Proof.
  apply (process_pdf_file_chunks env_up Ingested.tools_up "doc.pdf" "test.pdf"
           w0 ["Sample PDF Content"; "Page 2 Content More text here"]
           [[0.5; 0.25; 0.125; 0.75]%float]); reflexivity.
Defined.

(** X14. Page numbers are an index-based approximation: chunk [i] is on page
    [i // 5 + 1].  So they start at 1, never decrease along the chunks,
    never exceed [total_pages], and at most five chunks share one. *)
Theorem process_pdf_file_pages (env : Env) (tools : Tools.t)
    (file_path filename : string) (w : World) (pages : list string)
    (embeddings : list (list float)) :
  Tools.read_pages tools (tick w) file_path = Return pages ->
  Tools.encode_chunks tools (S (tick w))
    (chunk_text (Ingested.page_lines pages) 1000) = Return embeddings ->
  exists w' result,
    process_pdf_file env tools file_path filename w = (w', Return result) /\
    (forall i chunk,
       PDFProcessingResult.chunks result !! i = Some chunk ->
       PDFChunk.page_number chunk = (Z.of_nat i / 5 + 1)%Z /\
       (1 <= PDFChunk.page_number chunk
          <= PDFProcessingResult.total_pages result)%Z) /\
    (forall i j ci cj,
       i <= j ->
       PDFProcessingResult.chunks result !! i = Some ci ->
       PDFProcessingResult.chunks result !! j = Some cj ->
       (PDFChunk.page_number ci <= PDFChunk.page_number cj)%Z /\
       (PDFChunk.page_number ci = PDFChunk.page_number cj -> j < i + 5)).
Proof.
  intros Hread Henc.
  destruct (process_pdf_file_run env tools file_path filename w pages
              embeddings Hread Henc)
    as (w' & chunks & pdf_id & created_at & Hrun & Hidx & Hlen & Hall).
  eexists w', _. split; [exact Hrun|].
  cbn [PDFProcessingResult.total_pages PDFProcessingResult.chunks].
  assert (Hpage : forall i chunk, chunks !! i = Some chunk ->
            PDFChunk.page_number chunk = (Z.of_nat i / 5 + 1)%Z).
  { intros i chunk Hi.
    destruct (processed_chunk _ _ _ _ _ _ _ _ _ Hlen Hall Hi)
      as (text & emb & _ & _ & ->). reflexivity. }
  split.
  - intros i chunk Hi. rewrite (Hpage i chunk Hi). split; [reflexivity|].
    pose proof (lookup_lt_Some _ _ _ Hi) as Hlt.
    assert (Z.of_nat i / 5
            <= Z.of_nat (length (chunk_text (Ingested.page_lines pages)
                                   1000)) / 5)%Z
      by (apply Z.div_le_mono; lia).
    assert (0 <= Z.of_nat i / 5)%Z by (apply Z.div_pos; lia). lia.
  - intros i j ci cj Hij Hi Hj.
    rewrite (Hpage i ci Hi), (Hpage j cj Hj). split.
    + assert (Z.of_nat i / 5 <= Z.of_nat j / 5)%Z
        by (apply Z.div_le_mono; lia). lia.
    + intros Heq.
      pose proof (Z.div_mod (Z.of_nat i) 5 ltac:(lia)) as Hdi.
      pose proof (Z.div_mod (Z.of_nat j) 5 ltac:(lia)) as Hdj.
      pose proof (Z.mod_pos_bound (Z.of_nat i) 5 ltac:(lia)).
      pose proof (Z.mod_pos_bound (Z.of_nat j) 5 ltac:(lia)).
      lia.
Qed.

Lemma process_pdf_file_pages_witness :
  exists w' result,
    process_pdf_file env_up Ingested.tools_long "doc.pdf" "test.pdf" w0
    = (w', Return result) /\
    map PDFChunk.page_number (PDFProcessingResult.chunks result)
    = [1; 1; 1; 1; 1; 2; 2]%Z /\
    PDFProcessingResult.total_pages result = 2%Z /\
    (forall i chunk,
       PDFProcessingResult.chunks result !! i = Some chunk ->
       PDFChunk.page_number chunk = (Z.of_nat i / 5 + 1)%Z /\
       (1 <= PDFChunk.page_number chunk
          <= PDFProcessingResult.total_pages result)%Z) /\
    (forall i j ci cj,
       i <= j ->
       PDFProcessingResult.chunks result !! i = Some ci ->
       PDFProcessingResult.chunks result !! j = Some cj ->
       (PDFChunk.page_number ci <= PDFChunk.page_number cj)%Z /\
       (PDFChunk.page_number ci = PDFChunk.page_number cj -> j < i + 5)).
Proof.
  destruct (process_pdf_file_pages env_up Ingested.tools_long "doc.pdf"
              "test.pdf" w0 Ingested.long_pages
              (map (fun _ => [0.5; 0.25; 0.125; 0.75]%float)
                 (chunk_text (Ingested.page_lines Ingested.long_pages) 1000))
              eq_refl eq_refl)
    as (w' & result & Hrun & Hpages & Horder).
  exists w', result. split; [exact Hrun|].
  split; [|split; [|split; [exact Hpages | exact Horder]]].
  - vm_compute in Hrun. injection Hrun as _ <-. reflexivity.
  - vm_compute in Hrun. injection Hrun as _ <-. reflexivity.
Defined.

Lemma processed_contents (env : Env) (tools : Tools.t) (filename : string)
    (t : nat) (text_chunks : list string) (embeddings : list (list float))
    (chunks : list PDFChunk.t) :
  length text_chunks <= length embeddings ->
  length chunks = Nat.min (length text_chunks) (length embeddings) ->
  (forall i text emb,
     text_chunks !! i = Some text -> embeddings !! i = Some emb ->
     chunks !! i = Some (Ingested.chunk_at env tools filename
                           (t + 2 + 2 * i) i text emb)) ->
  map PDFChunk.content chunks = text_chunks.
Proof.
  intros Hle Hlen Hall. apply list_eq. intros i. rewrite list_lookup_fmap.
  destruct (chunks !! i) as [chunk|] eqn:Hi.
  - destruct (processed_chunk _ _ _ _ _ _ _ _ _ Hlen Hall Hi)
      as (text & emb & Ht & _ & ->). now rewrite Ht.
  - apply lookup_ge_None_1 in Hi. symmetry. apply lookup_ge_None_2. lia.
Qed.

(** X15. With an embedder that gives one vector for each chunk, no word of the
    document is lost or moved on the way from the pages to the chunks: the
    contents of the chunks, read one after the other, have exactly the
    words of the pages, page after page. *)
Theorem process_pdf_file_words (env : Env) (tools : Tools.t)
    (file_path filename : string) (w : World) (pages : list string)
    (embeddings : list (list float)) :
  Tools.read_pages tools (tick w) file_path = Return pages ->
  Tools.encode_chunks tools (S (tick w))
    (chunk_text (Ingested.page_lines pages) 1000) = Return embeddings ->
  length (chunk_text (Ingested.page_lines pages) 1000) <= length embeddings ->
  exists w' result,
    process_pdf_file env tools file_path filename w = (w', Return result) /\
    split (join " " (map PDFChunk.content
                       (PDFProcessingResult.chunks result)))
    = concat (map split pages).
Proof.
  intros Hread Henc Hle.
  destruct (process_pdf_file_run env tools file_path filename w pages
              embeddings Hread Henc)
    as (w' & chunks & pdf_id & created_at & Hrun & _ & Hlen & Hall).
  eexists w', _. split; [exact Hrun|].
  cbn [PDFProcessingResult.chunks].
  rewrite (processed_contents _ _ _ _ _ _ _ Hle Hlen Hall).
  rewrite PdfServiceFacts.chunk_text_words. apply split_lines.
Qed.

Lemma process_pdf_file_words_witness :
  exists w' result,
    process_pdf_file env_up Ingested.tools_up "doc.pdf" "test.pdf" w0
    = (w', Return result) /\
    split (join " " (map PDFChunk.content
                       (PDFProcessingResult.chunks result)))
    = concat (map split ["Sample PDF Content";
                         "Page 2 Content More text here"]).
Proof.
  apply (process_pdf_file_words env_up Ingested.tools_up "doc.pdf" "test.pdf"
           w0 ["Sample PDF Content"; "Page 2 Content More text here"]
           [[0.5; 0.25; 0.125; 0.75]%float]);
    [reflexivity | reflexivity | vm_compute; lia].
Defined.



(** [process_pdf_file] never writes to the index, whatever the reader and
    the embedder do. *)
Lemma process_pdf_file_index (env : Env) (tools : Tools.t)
    (file_path filename : string) (w : World) :
  index (fst (process_pdf_file env tools file_path filename w)) = index w.
Proof.
  destruct (Tools.read_pages tools (tick w) file_path) as [pages|e] eqn:Hread.
  - destruct (Tools.encode_chunks tools (S (tick w))
                (chunk_text (Ingested.page_lines pages) 1000))
      as [embeddings|e] eqn:Henc.
    + destruct (process_pdf_file_run env tools file_path filename w pages
                  embeddings Hread Henc)
        as (w' & chunks & pdf_id & created_at & -> & Hidx & _). exact Hidx.
    + unfold process_pdf_file. unfold bind at 1.
      unfold extract_text_from_pdf, bind at 1, ask. rewrite Hread.
      rewrite extract_loop, append_nil_l.
      fold (Ingested.page_lines pages).
      unfold bind at 1. unfold generate_embeddings, ask.
      cbn [tick advance]. now rewrite Henc.
  - unfold process_pdf_file. unfold bind at 1.
    unfold extract_text_from_pdf, bind at 1, ask. now rewrite Hread.
Qed.

(** *** Saving an upload *)

Lemma split_on_shape (sep : ascii) (s : string) :
  exists x rest pre,
    split_on sep s = x :: rest /\
    s = pre +:+ List.last (x :: rest) "" /\
    count_char sep (List.last (x :: rest) "") = 0 /\
    (rest = [] -> pre = "") /\
    (rest <> [] -> exists stem, pre = stem +:+ String sep "").
Proof.
  induction s as [|c s IH].
  - exists "", [], "". cbn. repeat split; congruence.
  - destruct IH as (x & rest & pre & Hsplit & Hs & Hcount & Hone & Hmany).
    cbn [split_on]. rewrite Hsplit. destruct (Ascii.eqb c sep) eqn:Hc.
    + apply Ascii.eqb_eq in Hc. subst c.
      exists "", (x :: rest), (String sep pre).
      change (List.last ("" :: x :: rest) "") with (List.last (x :: rest) "").
      rewrite append_cons, <- Hs. repeat split; try congruence.
      intros _. destruct rest as [|y rest].
      * rewrite Hone by reflexivity. now exists "".
      * destruct Hmany as (stem & ->); [congruence|].
        exists (String sep stem). now rewrite append_cons.
    + destruct rest as [|y rest].
      * exists (String c x), [], "". rewrite Hone in Hs by reflexivity.
        rewrite append_nil_l in *. cbn [List.last] in *. subst s.
        repeat split; try congruence. cbn [count_char].
        now rewrite Hc, Hcount.
      * exists (String c x), (y :: rest), (String c pre).
        change (List.last (String c x :: y :: rest) "")
          with (List.last (x :: y :: rest) "").
        rewrite append_cons, <- Hs. repeat split; try congruence.
        intros _. destruct Hmany as (stem & ->); [congruence|].
        exists (String c stem). now rewrite append_cons.
Qed.

(** The last item of [s.split(sep)]: a suffix of [s], free of [sep], and
    what stands before it is empty or ends with [sep]. *)
Lemma split_on_last (sep : ascii) (s : string) :
  exists pre,
    s = pre +:+ last_item (split_on sep s) /\
    count_char sep (last_item (split_on sep s)) = 0 /\
    (pre = "" \/ exists stem, pre = stem +:+ String sep "").
Proof.
  destruct (split_on_shape sep s)
    as (x & rest & pre & Hsplit & Hs & Hcount & Hone & Hmany).
  unfold last_item. rewrite Hsplit. exists pre.
  split; [exact Hs|]. split; [exact Hcount|].
  destruct rest as [|y rest]; [left; now apply Hone|right].
  apply Hmany. congruence.
Qed.

Lemma save_uploaded_file_run (env : Env) (tools : Tools.t)
    (file_content : list Byte.byte) (filename : string) (w : World) :
  save_uploaded_file env tools file_content filename w
  = (advance (advance w),
     let file_path :=
       path_join (Tools.UPLOAD_DIR tools)
         (uuid4 env (tick w) +:+ "." +:+ last_item (split_on "." filename)) in
     match Tools.write_file tools (S (tick w)) file_path file_content with
     | Some e => Raise e
     | None => Return file_path
     end).
Proof.
  unfold save_uploaded_file, bind, ask, ret. cbn [tick advance].
  now destruct (Tools.write_file _ _ _ _).
Qed.

(** X17. When the file can be written, [save_uploaded_file] returns the path it
    wrote to: the upload directory joined with a fresh id, a dot, and the
    extension of the uploaded name.  The extension is what follows the last
    dot of the name, so it has no dot itself; a name without any dot is
    taken whole as the extension.  Nothing else of the name is used. *)
Theorem save_uploaded_file_path (env : Env) (tools : Tools.t)
    (file_content : list Byte.byte) (filename : string) (w : World) :
  (forall path,
     Tools.write_file tools (S (tick w)) path file_content = None) ->
  exists pre ext,
    save_uploaded_file env tools file_content filename w
    = (advance (advance w),
       Return (path_join (Tools.UPLOAD_DIR tools)
                 (uuid4 env (tick w) +:+ "." +:+ ext))) /\
    filename = pre +:+ ext /\
    count_char "." ext = 0 /\
    (pre = "" \/ exists stem, pre = stem +:+ ".").
Proof.
  intros Hwrite.
  destruct (split_on_last "." filename) as (pre & Hname & Hcount & Hpre).
  exists pre, (last_item (split_on "." filename)).
  rewrite save_uploaded_file_run. cbv zeta. rewrite Hwrite. auto.
Qed.

Lemma save_uploaded_file_path_witness :
  exists pre ext,
    save_uploaded_file env_up Ingested.tools_up [] "notes.v2.pdf" w0
    = (advance (advance w0),
       Return (path_join (Tools.UPLOAD_DIR Ingested.tools_up)
                 (uuid4 env_up (tick w0) +:+ "." +:+ ext))) /\
    "notes.v2.pdf" = pre +:+ ext /\
    count_char "." ext = 0 /\
    (pre = "" \/ exists stem, pre = stem +:+ ".").
Proof.
  apply (save_uploaded_file_path env_up Ingested.tools_up [] "notes.v2.pdf"
           w0). reflexivity.
Defined.

End PdfIngestFacts.

(** * Properties of the answers with retrieval *)

Module RagFacts.
Import Effects Loops PyStr GeminiService GeminiRag Props Scenario.
Import PyStrFacts.

Lemma generate_response_with_rag_returns (env : Env)
    (pdf_id query : string) (agent : PodcastAgent.t) (w : World) :
  exists w' response,
    generate_response_with_rag env pdf_id query agent w
    = (w', Return response).
Proof.
  unfold generate_response_with_rag, try_except.
  match goal with |- context [match ?body w with _ => _ end] =>
    destruct (body w) as [w' [response|e]] end; unfold ret; eauto.
Qed.

(** X18. [generate_response_with_rag] never raises.  The context lookup
    always gives a context; the model is asked once, with the prompt that
    names the agent, its role and its personality and carries the query
    and that context; its answer is returned stripped, and its failure
    becomes the apology that ends with the text of the error. *)
Theorem generate_response_with_rag_answers (env : Env)
    (pdf_id query : string) (agent : PodcastAgent.t) (w : World) :
  exists w1 context,
    _get_conversation_context env pdf_id (Some query) w
    = (w1, Return context) /\
    generate_response_with_rag env pdf_id query agent w
    = (advance w1,
       Return
         match generate_content env (tick w1)
                 (nl +:+ indent +:+ "You are " +:+ PodcastAgent.name agent
                  +:+ ", a " +:+ PodcastAgent.role agent
                  +:+ " with personality: "
                  +:+ PodcastAgent.personality agent +:+ "." +:+ nl
                  +:+ indent +:+ "Answer the following question based on the provided context:" +:+ nl
                  +:+ nl
                  +:+ indent +:+ "Question: " +:+ query +:+ nl
                  +:+ indent +:+ "Context: " +:+ context +:+ nl
                  +:+ nl
                  +:+ indent +:+ "Provide a detailed and informative answer based on the context." +:+ nl
                  +:+ indent +:+ "If the context doesn't contain relevant information, say you don't know." +:+ nl
                  +:+ indent) with
         | Return response => strip response
         | Raise e =>
             "Sorry, I couldn't generate a response based on the provided context. "
             +:+ str_exn e
         end).
Proof.
  destruct (GeminiServiceFacts.conversation_context_returns env pdf_id
              (Some query) w) as (w1 & context & Hctx).
  exists w1, context. split; [exact Hctx|].
  unfold generate_response_with_rag, try_except, bind at 1. rewrite Hctx.
  unfold bind, ask, ret, rag_prompt, rag_apology.
  now destruct (generate_content env (tick w1) _).
Qed.

(** With the model down and the document indexed nowhere, the answer is
    the apology with the error of the model. *)
Example generate_response_with_rag_apology :
  snd (generate_response_with_rag env_model_down "doc-42" "black holes" alex
         w_empty)
  = Return "Sorry, I couldn't generate a response based on the provided context. 429 quota exceeded".
Proof. vm_compute. reflexivity. Qed.

(** X19. When the default collection is missing, or the store cannot be
    reached, a question is not refused: the model is asked all the same,
    with an empty context in the prompt. *)
Theorem generate_response_with_rag_without_index (env : Env)
    (pdf_id query : string) (agent : PodcastAgent.t) (v : list float)
    (w : World) :
  query <> "" ->
  encode env (tick w) query = Return v ->
  is_Some (transport env (S (tick w))) \/
  index w !! QDRANT_COLLECTION env = None ->
  generate_response_with_rag env pdf_id query agent w
  = (advance (advance (advance w)),
     Return match generate_content env (S (S (tick w)))
                    (rag_prompt agent query "") with
            | Return response => strip response
            | Raise e => rag_apology e
            end).
Proof.
  intros Hq Henc Hfail.
  unfold generate_response_with_rag, try_except, bind at 1.
  rewrite (GeminiServiceFacts.conversation_context_search_failed
             env pdf_id query v w Hq Henc Hfail).
  unfold bind, ask, ret. cbn [tick advance].
  now destruct (generate_content env (S (S (tick w))) _).
Qed.

Lemma generate_response_with_rag_without_index_witness :
  generate_response_with_rag env_up "doc-42" "black holes" alex w_empty
  = (advance (advance (advance w_empty)),
     Return match generate_content env_up (S (S (tick w_empty)))
                    (rag_prompt alex "black holes" "") with
            | Return response => strip response
            | Raise e => rag_apology e
            end).
Proof.
  apply (generate_response_with_rag_without_index env_up "doc-42"
           "black holes" alex [0.5; 0.25; 0.125; 0.75]%float w_empty);
    [discriminate | reflexivity | right; reflexivity].
Defined.

End RagFacts.

(** * Properties of the speech service *)

Module VoiceFacts.
Import Effects Loops PyStr PyPath GeminiService VoiceService Props Scenario.
Import PyStrFacts.

Lemma generate_speech_run (env : Env) (tools : Tools.t)
    (request : AudioGenerationRequest.t) (w : World) :
  generate_speech env tools request w
  = match Tools.tts_generate tools (tick w)
            (AudioGenerationRequest.text request)
            (AudioGenerationRequest.voice_id request) with
    | Raise e =>
        (advance w,
         Raise (Exception ("Failed to generate speech: " +:+ str_exn e)))
    | Return audio =>
        let file_id := uuid4 env (S (tick w)) in
        let filename :=
          file_id +:+ "." +:+ AudioGenerationRequest.format request in
        match Tools.store_audio tools (S (S (tick w)))
                (path_join (Tools.AUDIO_DIR tools) filename) audio with
        | Raise e =>
            (advance (advance (advance w)),
             Raise (Exception ("Failed to generate speech: " +:+ str_exn e)))
        | Return milliseconds =>
            (advance (advance (advance w)),
             Return
               {| AudioGenerationResponse.audio_url := "/audio/" +:+ filename;
                  AudioGenerationResponse.file_id := file_id;
                  AudioGenerationResponse.duration :=
                    (milliseconds / 1000)%float;
                  AudioGenerationResponse.format :=
                    AudioGenerationRequest.format request |})
        end
    end.
Proof.
  unfold generate_speech, try_except, bind, ask, ret, raise.
  destruct (Tools.tts_generate tools (tick w) _ _) as [audio|e];
    [|reflexivity].
  cbn [tick advance].
  now destruct (Tools.store_audio tools (S (S (tick w))) _ audio).
Qed.

(** X20. [generate_speech] has two outcomes only.  Either it returns a response
    whose URL names the very file that was stored: [/audio/] followed by the
    name, which is the fresh id, a dot and the requested format, the file
    being stored under that name in the audio directory.  Or it raises the
    generic exception whose message starts with the notice of the failed
    speech generation. *)
Theorem generate_speech_outcome (env : Env) (tools : Tools.t)
    (request : AudioGenerationRequest.t) (w : World) :
  (exists w' response audio milliseconds,
     generate_speech env tools request w = (w', Return response) /\
     AudioGenerationResponse.audio_url response
     = "/audio/" +:+ AudioGenerationResponse.file_id response +:+ "."
       +:+ AudioGenerationRequest.format request /\
     AudioGenerationResponse.format response
     = AudioGenerationRequest.format request /\
     Tools.store_audio tools (S (S (tick w)))
       (path_join (Tools.AUDIO_DIR tools)
          (AudioGenerationResponse.file_id response +:+ "."
           +:+ AudioGenerationRequest.format request)) audio
     = Return milliseconds /\
     AudioGenerationResponse.duration response = (milliseconds / 1000)%float)
  \/
  (exists w' msg,
     generate_speech env tools request w
     = (w', Raise (Exception ("Failed to generate speech: " +:+ msg)))).
Proof.
  rewrite generate_speech_run.
  destruct (Tools.tts_generate tools (tick w) _ _) as [audio|e];
    [|right; eauto].
  cbv zeta.
  destruct (Tools.store_audio tools (S (S (tick w))) _ audio)
    as [milliseconds|e] eqn:Hstore; [left|right; eauto].
  eexists _, _, audio, milliseconds. split; [reflexivity|].
  cbn [AudioGenerationResponse.audio_url AudioGenerationResponse.file_id
       AudioGenerationResponse.format AudioGenerationResponse.duration].
  auto.
Qed.

Lemma podcast_audio_raises (env : Env) (tools : Tools.t)
    (conversation_id : string) (messages : list (gmap string string))
    (w : World) :
  exists w' msg,
    generate_podcast_audio env tools conversation_id messages w
    = (w', Raise (Exception ("Failed to generate podcast audio: " +:+ msg))).
Proof.
  unfold generate_podcast_audio, try_except, bind at 1.
  destruct (for_each (enumerate messages) (segment_step env tools)
              ([], 0%float) w) as [w1 [st|e]]; unfold raise; eauto.
Qed.

Lemma segment_step_run (env : Env) (tools : Tools.t) (i : nat)
    (message : gmap string string)
    (st : list PodcastAudioSegment.t * float) (w : World)
    (content agent_id : string) :
  (forall t text voice,
     exists audio, Tools.tts_generate tools t text voice = Return audio) ->
  (forall t path audio,
     exists ms, Tools.store_audio tools t path audio = Return ms) ->
  message !! "content" = Some content ->
  message !! "agent_id" = Some agent_id ->
  exists segment,
    segment_step env tools (i, message) st w
    = (advance (advance (advance w)),
       Return (fst st ++ [segment],
               (snd st + PodcastAudioSegment.duration segment)%float)) /\
    PodcastAudioSegment.text_content segment = content /\
    PodcastAudioSegment.agent_id segment = agent_id /\
    PodcastAudioSegment.order segment = Z.of_nat i /\
    PodcastAudioSegment.segment_id segment = uuid4 env (S (tick w)).
Proof.
  intros Htts Hstore Hc Ha. destruct st as [segments total_duration].
  unfold segment_step, getitem. rewrite Hc, Ha.
  unfold bind at 1, ret at 1. unfold bind at 1, ret at 1.
  unfold bind at 1. rewrite generate_speech_run.
  cbn [AudioGenerationRequest.text AudioGenerationRequest.voice_id
       AudioGenerationRequest.format].
  destruct (Htts (tick w) content
              (QdrantService.get message "voice_id" "21m00Tcm4TlvDq8ikWAM"))
    as [audio ->].
  cbv zeta.
  destruct (Hstore (S (S (tick w)))
              (path_join (Tools.AUDIO_DIR tools)
                 (uuid4 env (S (tick w)) +:+ "." +:+ "mp3")) audio)
    as [ms ->].
  unfold bind, ret. cbn [fst snd].
  match goal with |- context [segments ++ [?s]] => exists s end.
  split; [reflexivity|]. cbn. auto.
Qed.

Lemma segments_loop_run (env : Env) (tools : Tools.t)
    (messages : list (gmap string string)) (i0 : nat)
    (st : list PodcastAudioSegment.t * float) (w : World) :
  (forall t text voice,
     exists audio, Tools.tts_generate tools t text voice = Return audio) ->
  (forall t path audio,
     exists ms, Tools.store_audio tools t path audio = Return ms) ->
  Forall (fun message =>
            is_Some (message !! "content") /\
            is_Some (message !! "agent_id")) messages ->
  exists st',
    for_each (combine (seq i0 (length messages)) messages)
      (segment_step env tools) st w
    = (Nat.iter (3 * length messages) advance w, Return st') /\
    length (fst st') = length (fst st) + length messages.
Proof.
  intros Htts Hstore Hall. revert i0 st w.
  induction Hall as [|message messages [[c Hc] [a Ha]] _ IH];
    intros i0 st w.
  - exists st. cbn. split; [reflexivity | lia].
  - cbn [length seq combine for_each]. unfold bind at 1.
    destruct (segment_step_run env tools i0 message st w c a Htts Hstore
                Hc Ha) as (segment & -> & _).
    destruct (IH (S i0)
                (fst st ++ [segment],
                 (snd st + PodcastAudioSegment.duration segment)%float)
                (advance (advance (advance w)))) as (st' & -> & Hlen).
    exists st'. split.
    + f_equal.
      replace (3 * S (length messages)) with (3 * length messages + 3)
        by lia.
      now rewrite Nat.iter_add.
    + rewrite Hlen. cbn [fst]. rewrite length_app. cbn [length]. lia.
Qed.

(** X21. Even when every message is complete and every segment is synthesised
    and stored, [generate_podcast_audio] fails: after three interactions
    for each message and one more for the id of the podcast, reading
    [podcast_audio] inside the statement that assigns it raises, and the
    caller gets that error in place of the audio. *)
Theorem generate_podcast_audio_unbound (env : Env) (tools : Tools.t)
    (conversation_id : string) (messages : list (gmap string string))
    (w : World) :
  (forall t text voice,
     exists audio, Tools.tts_generate tools t text voice = Return audio) ->
  (forall t path audio,
     exists ms, Tools.store_audio tools t path audio = Return ms) ->
  Forall (fun message =>
            is_Some (message !! "content") /\
            is_Some (message !! "agent_id")) messages ->
  exists w',
    generate_podcast_audio env tools conversation_id messages w
    = (w', Raise (Exception ("Failed to generate podcast audio: "
                             +:+ Tools.unbound_local tools "podcast_audio")))
    /\ tick w' = tick w + 3 * length messages + 1
    /\ index w' = index w.
Proof.
  intros Htts Hstore Hall.
  unfold generate_podcast_audio, try_except, bind at 1, enumerate.
  destruct (segments_loop_run env tools messages 0 ([], 0%float) w
              Htts Hstore Hall) as (st' & -> & _).
  unfold bind, ask, read_unbound, raise. eexists. split; [reflexivity|].
  cbn [tick index advance].
  destruct (PdfIngestFacts.tick_iter_advance_index (3 * length messages) w)
    as [-> ->]. split; [lia | reflexivity].
Qed.

Lemma generate_podcast_audio_unbound_witness :
  exists w',
    generate_podcast_audio env_up Ingested.tools_up "conv-1"
      [{[ "content" := "Hello"; "agent_id" := "a-1" ]};
       {[ "content" := "Hi there"; "agent_id" := "a-2";
          "voice_id" := "v-2" ]}] w0
    = (w', Raise (Exception ("Failed to generate podcast audio: "
                             +:+ Tools.unbound_local Ingested.tools_up
                                   "podcast_audio")))
    /\ tick w' = tick w0 + 3 * 2 + 1
    /\ index w' = index w0.
Proof.
  apply (generate_podcast_audio_unbound env_up Ingested.tools_up "conv-1"
           [{[ "content" := "Hello"; "agent_id" := "a-1" ]};
            {[ "content" := "Hi there"; "agent_id" := "a-2";
               "voice_id" := "v-2" ]}] w0).
  - intros t text voice. eexists. reflexivity.
  - intros t path audio. eexists. reflexivity.
  - repeat constructor; vm_compute; eauto.
Defined.

End VoiceFacts.

(** * Properties of the collection management and of the handlers *)

Module RouteFacts.
Import Http Effects Loops PyStr PyPath Props Scenario.
Import PyStrFacts.

(** *** The services never raise *)

Lemma create_collection_returns (tools : Tools.t) (admin : Admin.t)
    (config : QdrantCollectionConfig.t) (w : World) :
  exists w' success,
    QdrantCollections.create_collection tools admin config w
    = (w', Return success).
Proof.
  unfold QdrantCollections.create_collection, try_except.
  match goal with |- context [match ?body w with _ => _ end] =>
    destruct (body w) as [w' [success|e]] end; unfold ret; eauto.
Qed.

Lemma get_collection_info_returns (admin : Admin.t)
    (collection_name : string) (w : World) :
  exists w' info,
    QdrantCollections.get_collection_info admin collection_name w
    = (w', Return info).
Proof.
  unfold QdrantCollections.get_collection_info, try_except.
  match goal with |- context [match ?body w with _ => _ end] =>
    destruct (body w) as [w' [info|e]] end; unfold ret; eauto.
Qed.

Lemma delete_collection_returns (admin : Admin.t) (collection_name : string)
    (w : World) :
  exists w' success,
    QdrantCollections.delete_collection admin collection_name w
    = (w', Return success).
Proof.
  unfold QdrantCollections.delete_collection, try_except.
  match goal with |- context [match ?body w with _ => _ end] =>
    destruct (body w) as [w' [success|e]] end; unfold ret; eauto.
Qed.

(** *** The handlers of the vector store *)

(** X23. The three handlers that raise a client error (400 or 404) when the
    service reports a failure do so inside their own [try]: the handler
    for every exception catches it, so the client never sees it.  Each of
    them answers with its body when the service succeeds, and with status
    500 otherwise, the text of the client error being part of the detail. *)
Theorem qdrant_routes_mask_client_errors (tools : Tools.t) (admin : Admin.t)
    (config : QdrantCollectionConfig.t) (collection_name : string)
    (w : World) :
  (exists w' success,
     QdrantCollections.create_collection tools admin config w
     = (w', Return success) /\
     QdrantRoutes.create_collection tools admin config w
     = (w',
        if success : bool then
          Ok {[ "status" := "success";
                "collection_name" :=
                  QdrantCollectionConfig.collection_name config ]}
        else
          Failed (HTTPException 500
                    ("Error creating collection: "
                     +:+ Tools.str_http tools 400
                           "Failed to create collection")))) /\
  (exists w' info,
     QdrantCollections.get_collection_info admin collection_name w
     = (w', Return info) /\
     QdrantRoutes.get_collection_info tools admin collection_name w
     = (w',
        if QdrantCollections.truthy info then Ok info
        else
          Failed (HTTPException 500
                    ("Error getting collection info: "
                     +:+ Tools.str_http tools 404 "Collection not found")))) /\
  (exists w' success,
     QdrantCollections.delete_collection admin collection_name w
     = (w', Return success) /\
     QdrantRoutes.delete_collection tools admin collection_name w
     = (w',
        if success : bool then
          Ok {[ "status" := "success";
                "message" :=
                  "Collection " +:+ collection_name +:+ " deleted" ]}
        else
          Failed (HTTPException 500
                    ("Error deleting collection: "
                     +:+ Tools.str_http tools 404 "Collection not found")))).
Proof.
  split; [|split].
  - destruct (create_collection_returns tools admin config w)
      as (w' & success & Hrun). exists w', success. split; [exact Hrun|].
    unfold QdrantRoutes.create_collection, Http.try_except, Http.bind, call.
    rewrite Hrun. now destruct success.
  - destruct (get_collection_info_returns admin collection_name w)
      as (w' & info & Hrun). exists w', info. split; [exact Hrun|].
    unfold QdrantRoutes.get_collection_info, Http.try_except, Http.bind, call.
    rewrite Hrun. now destruct (QdrantCollections.truthy info).
  - destruct (delete_collection_returns admin collection_name w)
      as (w' & success & Hrun). exists w', success. split; [exact Hrun|].
    unfold QdrantRoutes.delete_collection, Http.try_except, Http.bind, call.
    rewrite Hrun. now destruct success.
Qed.

Lemma create_collection_rejected (tools : Tools.t) (admin : Admin.t)
    (config : QdrantCollectionConfig.t) (e : exn) (w : World) :
  Tools.distance tools (QdrantCollectionConfig.distance_metric config)
  = Raise e ->
  QdrantCollections.create_collection tools admin config w
  = (w, Return false).
Proof.
  intros Hd.
  unfold QdrantCollections.create_collection, try_except, bind, lift.
  now rewrite Hd.
Qed.

(** X24. When the enumeration of distances rejects the metric of the
    configuration, [create_collection] returns [False] without having
    called the client: the world is as before, and the handler answers
    with status 500. *)
Theorem create_collection_rejected_metric (tools : Tools.t)
    (admin : Admin.t) (config : QdrantCollectionConfig.t) (e : exn)
    (w : World) :
  Tools.distance tools (QdrantCollectionConfig.distance_metric config)
  = Raise e ->
  QdrantCollections.create_collection tools admin config w
  = (w, Return false) /\
  QdrantRoutes.create_collection tools admin config w
  = (w, Failed (HTTPException 500
                  ("Error creating collection: "
                   +:+ Tools.str_http tools 400
                         "Failed to create collection"))).
Proof.
  intros Hd.
  pose proof (create_collection_rejected tools admin config e w Hd) as Hrun.
  split; [exact Hrun|].
  unfold QdrantRoutes.create_collection, Http.try_except, Http.bind, call.
  now rewrite Hrun.
Qed.

Lemma create_collection_rejected_metric_witness :
  QdrantCollections.create_collection Served.tools_strict Served.admin_up
    {| QdrantCollectionConfig.collection_name := "papers";
       QdrantCollectionConfig.vector_size := 4;
       QdrantCollectionConfig.distance_metric := "cosine" |} w_empty
  = (w_empty, Return false) /\
  QdrantRoutes.create_collection Served.tools_strict Served.admin_up
    {| QdrantCollectionConfig.collection_name := "papers";
       QdrantCollectionConfig.vector_size := 4;
       QdrantCollectionConfig.distance_metric := "cosine" |} w_empty
  = (w_empty,
     Failed (HTTPException 500
               ("Error creating collection: "
                +:+ Tools.str_http Served.tools_strict 400
                      "Failed to create collection"))).
Proof.
  apply (create_collection_rejected_metric Served.tools_strict
           Served.admin_up _
           (ValueError ("'" +:+ "cosine" +:+ "' is not a valid Distance"))).
  reflexivity.
Defined.

(** X25. The search handler never answers with an error: whatever the store
    does, the body holds the results of [search_similar] and their number. *)
Theorem search_vectors_always_ok (env : Env) (tools : Tools.t)
    (collection_name : string) (query_vector : list float) (limit : Z)
    (filter : option (gmap string pyval)) (w : World) :
  exists w' results,
    QdrantService.search_similar env collection_name query_vector limit
      filter w = (w', Return results) /\
    QdrantRoutes.search_vectors env tools collection_name query_vector limit
      filter w
    = (w', Ok {| QdrantRoutes.results := results;
                 QdrantRoutes.count := Z.of_nat (length results) |}).
Proof.
  destruct (QdrantServiceFacts.search_similar_returns env collection_name
              query_vector limit filter w) as (w' & results & Hrun).
  exists w', results. split; [exact Hrun|].
  unfold QdrantRoutes.search_vectors, Http.try_except, Http.bind, call.
  now rewrite Hrun.
Qed.

(** *** Initialising the default collection *)

Lemma collection_exists_run (admin : Admin.t) (collection_name : string)
    (w : World) :
  QdrantCollections.collection_exists admin collection_name w
  = (advance w,
     Return match Admin.collection_exists admin (tick w) (index w)
                    collection_name with
            | Return present => present
            | Raise _ => false
            end).
Proof.
  unfold QdrantCollections.collection_exists, try_except, Admin.reading.
  now destruct (Admin.collection_exists admin (tick w) (index w) _).
Qed.

(** X26. When the store says that the default collection is there,
    [initialize_default_collection] returns its name after this one
    question: neither the embedding model nor the creation is touched. *)
Theorem initialize_default_collection_present (env : Env) (tools : Tools.t)
    (admin : Admin.t) (w : World) :
  Admin.collection_exists admin (tick w) (index w) (QDRANT_COLLECTION env)
  = Return true ->
  QdrantCollections.initialize_default_collection env tools admin w
  = (advance w, Return (QDRANT_COLLECTION env)).
Proof.
  intros Hex. unfold QdrantCollections.initialize_default_collection.
  unfold bind at 1. rewrite collection_exists_run, Hex. reflexivity.
Qed.

Lemma initialize_default_collection_present_witness :
  QdrantCollections.initialize_default_collection env_up Ingested.tools_up
    Served.admin_up w0
  = (advance w0, Return (QDRANT_COLLECTION env_up)).
Proof.
  apply (initialize_default_collection_present env_up Ingested.tools_up
           Served.admin_up w0). reflexivity.
Defined.

(** X27. The handler reports success although nothing was created: when the
    collection is not found (the store says so, or the question fails), the
    sample embedding is obtained, and the creation fails on the metric,
    the answer is the success body with the name of the default
    collection, and the index is as it was. *)
Theorem initialize_reports_success_without_collection (env : Env)
    (tools : Tools.t) (admin : Admin.t) (d : Z) (e : exn) (w : World) :
  Admin.collection_exists admin (tick w) (index w) (QDRANT_COLLECTION env)
  <> Return true ->
  Admin.sample_dimension admin (S (tick w)) = Return d ->
  Tools.distance tools "cosine" = Raise e ->
  QdrantRoutes.initialize_default_collection env tools admin w
  = (advance (advance w),
     Ok {[ "status" := "success";
           "collection_name" := QDRANT_COLLECTION env;
           "message" := "Default collection initialized" ]}).
Proof.
  intros Hex Hdim Hd.
  unfold QdrantRoutes.initialize_default_collection, Http.try_except,
    Http.bind, call.
  unfold QdrantCollections.initialize_default_collection.
  unfold bind at 1. rewrite collection_exists_run.
  assert (Hpresent :
            match Admin.collection_exists admin (tick w) (index w)
                    (QDRANT_COLLECTION env) with
            | Return present => present
            | Raise _ => false
            end = false).
  { destruct (Admin.collection_exists admin (tick w) (index w) _)
      as [[|]|]; congruence. }
  rewrite Hpresent. cbn [negb]. unfold bind at 1, ask.
  cbn [tick advance]. rewrite Hdim. unfold bind at 1.
  pose proof (create_collection_rejected tools admin
                {| QdrantCollectionConfig.collection_name :=
                     QDRANT_COLLECTION env;
                   QdrantCollectionConfig.vector_size := d;
                   QdrantCollectionConfig.distance_metric := "cosine" |}
                e (advance (advance w)) Hd) as Hcreate.
  unfold advance in Hcreate |- *. cbn [tick index] in Hcreate |- *.
  rewrite Hcreate. reflexivity.
Qed.

Lemma initialize_reports_success_without_collection_witness :
  QdrantRoutes.initialize_default_collection env_up Served.tools_strict
    Served.admin_up w_empty
  = (advance (advance w_empty),
     Ok {[ "status" := "success";
           "collection_name" := QDRANT_COLLECTION env_up;
           "message" := "Default collection initialized" ]}).
Proof.
  apply (initialize_reports_success_without_collection env_up
           Served.tools_strict Served.admin_up 4
           (ValueError ("'" +:+ "cosine" +:+ "' is not a valid Distance"))
           w_empty); [discriminate | reflexivity | reflexivity].
Defined.

(** *** The handlers of the dialogue *)

(** X28. The podcast handler counts words, not tokens of the model: when the
    conversation is generated, [tokens_used] is the sum, over the
    messages, of the number of words of the content.  When the generation
    fails, the answer has status 500 and quotes the error. *)
Theorem generate_podcast_tokens (env : Env) (tools : Tools.t)
    (request : GeminiGenerationRequest.t) (w : World) :
  (exists w' conversation response,
     GeminiService.generate_podcast_conversation env request w
     = (w', Return conversation) /\
     PodcastRoutes.generate_podcast env tools request w = (w', Ok response) /\
     GeminiGenerationResponse.conversation_id response
     = PodcastConversation.id conversation /\
     GeminiGenerationResponse.messages response
     = PodcastConversation.messages conversation /\
     GeminiGenerationResponse.status response = "completed" /\
     GeminiGenerationResponse.tokens_used response
     = Z.of_nat
         (list_sum
            (map (fun msg => length (split (PodcastMessage.content msg)))
               (PodcastConversation.messages conversation))))
  \/
  (exists w' e,
     GeminiService.generate_podcast_conversation env request w
     = (w', Raise e) /\
     PodcastRoutes.generate_podcast env tools request w
     = (w', Failed (HTTPException 500
                      ("Error generating podcast: " +:+ str_exn e)))).
Proof.
  unfold PodcastRoutes.generate_podcast, Http.try_except, Http.bind, call.
  destruct (GeminiService.generate_podcast_conversation env request w)
    as [w' [conversation|e]]; [left|right; eauto].
  eexists w', conversation, _. split; [reflexivity|].
  split; [reflexivity|].
  cbn [GeminiGenerationResponse.conversation_id
       GeminiGenerationResponse.messages GeminiGenerationResponse.status
       GeminiGenerationResponse.tokens_used].
  repeat split. rewrite PdfIngestFacts.split_join_space, length_concat, !map_map.
  reflexivity.
Qed.

(** X29. The handler for questions never answers with an error: the temporary
    assistant is always well formed and [generate_response_with_rag]
    always returns, so the body with the response, the document, the query
    and the role is always sent. *)
Theorem generate_rag_response_always_ok (env : Env) (tools : Tools.t)
    (pdf_id query agent_role : string) (w : World) :
  exists w' response,
    PodcastRoutes.generate_rag_response env tools pdf_id query agent_role w
    = (w', Ok {[ "response" := response;
                 "pdf_id" := pdf_id;
                 "query" := query;
                 "agent_role" := agent_role ]}).
Proof.
  unfold PodcastRoutes.generate_rag_response, Http.try_except, Http.bind,
    call.
  destruct (RagFacts.generate_response_with_rag_returns env pdf_id query
              {| PodcastAgent.id := "temp";
                 PodcastAgent.name := "Assistant";
                 PodcastAgent.role := agent_role;
                 PodcastAgent.personality := "Helpful and informative";
                 PodcastAgent.voice_id := "default" |} w)
    as (w' & response & ->).
  eauto.
Qed.

(** *** The handler of the uploads *)

(** X30. Uploading a document never writes to the vector index, whether the
    upload is answered with success or with an error: the chunks and their
    embeddings are computed and then dropped with the result. *)
Theorem upload_pdf_never_indexes (env : Env) (tools : Tools.t)
    (content : list Byte.byte) (filename : string) (w : World) :
  index (fst (PdfRoutes.upload_pdf env tools content filename w)) = index w.
Proof.
  unfold PdfRoutes.upload_pdf, Http.try_except, Http.bind at 1, call at 1.
  rewrite PdfIngestFacts.save_uploaded_file_run. cbv zeta.
  destruct (Tools.write_file tools (S (tick w)) _ content) as [e|];
    [reflexivity|].
  unfold Http.bind, call.
  match goal with |- context [PdfIngest.process_pdf_file env tools ?p ?f ?w1] =>
    pose proof (PdfIngestFacts.process_pdf_file_index env tools p f w1)
      as Hidx;
    destruct (PdfIngest.process_pdf_file env tools p f w1)
      as [w' [result|e]]
  end; exact Hidx.
Qed.

(** When the file is written, read and embedded, the upload is answered
    with success: the body repeats the name of the file and tells the
    number of chunks, which is the number of chunk texts or, if the
    embedder gave fewer vectors, the number of vectors. *)
Theorem upload_pdf_success (env : Env) (tools : Tools.t)
    (content : list Byte.byte) (filename : string) (w : World)
    (pages : list string) (embeddings : list (list float)) :
  (forall path, Tools.write_file tools (S (tick w)) path content = None) ->
  (forall path, Tools.read_pages tools (S (S (tick w))) path = Return pages) ->
  Tools.encode_chunks tools (S (S (S (tick w))))
    (PdfService.chunk_text (Ingested.page_lines pages) 1000)
  = Return embeddings ->
  exists w' response,
    PdfRoutes.upload_pdf env tools content filename w = (w', Ok response) /\
    PDFUploadResponse.filename response = filename /\
    PDFUploadResponse.status response = "success" /\
    PDFUploadResponse.message response
    = "PDF processed successfully. Generated "
      +:+ pretty (Z.of_nat
                    (Nat.min
                       (length (PdfService.chunk_text
                                  (Ingested.page_lines pages) 1000))
                       (length embeddings)))
      +:+ " chunks.".
Proof.
  intros Hwrite Hread Henc.
  unfold PdfRoutes.upload_pdf, Http.try_except, Http.bind at 1, call at 1.
  rewrite PdfIngestFacts.save_uploaded_file_run. cbv zeta. rewrite Hwrite.
  unfold Http.bind, call.
  match goal with |- context [PdfIngest.process_pdf_file env tools ?p ?f ?w1] =>
    destruct (PdfIngestFacts.process_pdf_file_run env tools p f w1 pages
                embeddings (Hread p) Henc)
      as (w' & chunks & pdf_id & created_at & -> & _ & Hlen & _)
  end.
  eexists w', _. split; [reflexivity|].
  cbn [PDFUploadResponse.filename PDFUploadResponse.status
       PDFUploadResponse.message PDFProcessingResult.filename
       PDFProcessingResult.total_chunks].
  now rewrite Hlen.
Qed.

Lemma upload_pdf_success_witness :
  exists w' response,
    PdfRoutes.upload_pdf env_up Ingested.tools_up [] "test.pdf" w0
    = (w', Ok response) /\
    PDFUploadResponse.filename response = "test.pdf" /\
    PDFUploadResponse.status response = "success" /\
    PDFUploadResponse.message response
    = "PDF processed successfully. Generated "
      +:+ pretty (Z.of_nat (Nat.min 1 1)) +:+ " chunks.".
Proof.
  apply (upload_pdf_success env_up Ingested.tools_up [] "test.pdf" w0
           ["Sample PDF Content"; "Page 2 Content More text here"]
           [[0.5; 0.25; 0.125; 0.75]%float]); reflexivity.
Defined.

(** *** The handler of the podcast audio *)

(** X22. [generate_podcast_audio] never returns, and so its handler can only
    answer with status 500: for every conversation and every list of
    messages the service raises the generic exception whose message starts
    with the notice of the failed podcast audio, and the handler puts that
    message behind its own notice. *)
Theorem generate_podcast_audio_always_fails (env : Env) (tools : Tools.t)
    (conversation_id : string) (messages : list (gmap string string))
    (w : World) :
  exists w' msg,
    VoiceService.generate_podcast_audio env tools conversation_id messages w
    = (w', Raise (Exception ("Failed to generate podcast audio: " +:+ msg)))
    /\
    VoiceRoutes.generate_podcast_audio env tools conversation_id messages w
    = (w', Failed (HTTPException 500
                     ("Error generating podcast audio: "
                      +:+ "Failed to generate podcast audio: " +:+ msg))).
Proof.
  destruct (VoiceFacts.podcast_audio_raises env tools conversation_id
              messages w) as (w' & msg & Hrun).
  exists w', msg. split; [exact Hrun|].
  unfold VoiceRoutes.generate_podcast_audio, Http.try_except, Http.bind,
    call. now rewrite Hrun.
Qed.

End RouteFacts.
